(** * A process-scheduler simulator and its IPC primitives

    Shallow embedding of [procesos.py], [planificador.py] and
    [comunicacion.py]: the process table, the four cycle-driven schedulers,
    the per-process message queues and the producer-consumer buffer; and of
    the operations of [cli.py] that change the simulation.

    Python objects are mutable and shared.  Process objects live in a store
    (the [processes] list of the process manager, in creation order); the
    ready queue, the scheduler's [current_process] and the events hold
    references (indices) into that store.  Exceptions are results: a call
    that raises gives the exception, and what the objects it had already
    written hold afterwards is not part of the model. *)

From stdpp Require Import gmap strings list pretty.

Open Scope Z_scope.

(** ** Exceptions *)

Inductive exn :=
  | ValueError (msg : string)
  | ResourceError
  | DanglingReference.

Inductive result (A : Type) :=
  | Ok (a : A)
  | Raise (e : exn).

Arguments Ok {A} a.
Arguments Raise {A} e.

#[global] Instance result_ret : MRet result := λ A a, Ok a.
#[global] Instance result_bind : MBind result := λ A B f m,
  match m with
  | Ok a => f a
  | Raise e => Raise e
  end.

(** ** procesos.py *)

(** The four values the [state] attribute takes:
    "ready", "running", "waiting", "terminated". *)
Inductive proc_state := Ready | Running | Waiting | Terminated.

#[global] Instance proc_state_eq_dec : EqDecision proc_state.
Proof. solve_decision. Defined.

Record Process := mkProcess {
  pid : Z;
  state : proc_state;
  priority : Z;
  memory : Z;
  burst_time : Z;
  proc_resources : list string;
  arrival_time : Z
}.

(** [Process.__init__] *)
Definition new_Process (pid priority memory burst_time : Z) : Process :=
  mkProcess pid Ready priority memory burst_time [] 0.

Definition set_state (p : Process) (st : proc_state) : Process :=
  mkProcess (pid p) st (priority p) (memory p) (burst_time p)
            (proc_resources p) (arrival_time p).

Definition set_burst_time (p : Process) (b : Z) : Process :=
  mkProcess (pid p) (state p) (priority p) (memory p) b
            (proc_resources p) (arrival_time p).

(** A reference to a process object: its position in the store. *)
Abbreviation ref := nat (only parsing).

Record ProcessManager := mkProcessManager {
  processes : list Process;   (* every process created, the object store *)
  ready_queue : list ref      (* references, in queue order *)
}.

(** [ProcessManager.__init__] *)
Definition new_ProcessManager : ProcessManager := mkProcessManager [] [].

(** [ProcessManager.create_process] *)
Definition create_process (pm : ProcessManager) (priority memory burst_time : Z)
  : ProcessManager * ref :=
  let pid := Z.of_nat (length (processes pm)) + 1 in
  let new_process := new_Process pid priority memory burst_time in
  let r := length (processes pm) in
  (mkProcessManager (processes pm ++ [new_process]) (ready_queue pm ++ [r]), r).

(** ** recursos.py (not part of the sources)

    The schedulers read and write the [cpu_available] flag and call
    [release_memory(pid, memory)] when a process completes. *)

(** Modelled from the spec: [SystemResources.release_memory] is missing
    from the sources.  The memory accounting is kept abstract.  A release
    either returns the new accounting, leaving the CPU flag alone, or
    raises: "releasing an amount not previously assigned to that pid is an
    invariant violation and must fail loudly". *)
Class MemoryModel := {
  Memory : Type;
  release_memory : Memory → Z → Z → result Memory
}.

(** Modelled from the spec: a pool with [total_memory], [available_memory]
    and the amount assigned to each pid.  The pool is "debited on process
    creation, credited on termination"; [assign_memory] and [release_memory]
    are "strictly paired", and an unmatched release is a ResourceError. *)
Record MemoryPool := mkMemoryPool {
  total_memory : Z;
  available_memory : Z;
  assigned : gmap Z Z
}.

#[global] Instance pool_memory : MemoryModel := {|
  Memory := MemoryPool;
  release_memory := λ m pid amount,
    if bool_decide (assigned m !! pid = Some amount) then
      Ok (mkMemoryPool (total_memory m) (available_memory m + amount)
                       (delete pid (assigned m)))
    else Raise ResourceError
|}.

(** Modelled from the spec: a pool is coherent when what is available and
    what is assigned add up to [total_memory], with "0 ≤ available" and no
    negative assignment. *)
Definition assigned_total (m : MemoryPool) : Z :=
  map_fold (λ _ amount total, amount + total) 0 (assigned m).

Definition pool_ok (m : MemoryPool) : Prop :=
  available_memory m + assigned_total m = total_memory m
  ∧ 0 ≤ available_memory m
  ∧ map_Forall (λ _ amount, 0 ≤ amount) (assigned m).

Section Schedulers.
Context `{MM : MemoryModel}.

Record SystemResources := mkSystemResources {
  cpu_available : bool;
  mem : Memory
}.

(** ** planificador.py *)

(** The four subclasses of [Scheduler] the factory makes. *)
Inductive scheduler_class := FCFS | SJF | Priority | RoundRobin.

(** One record for the four subclasses of [Scheduler]; [quantum] and
    [current_quantum] are attributes of [RoundRobinScheduler] only and are
    not read by the others. *)
Record Scheduler := mkScheduler {
  kind : scheduler_class;
  process_manager : ProcessManager;
  resources : SystemResources;
  current_process : option ref;
  name : string;
  time : Z;
  quantum : Z;
  current_quantum : Z
}.

(** What [execute_cycle] returns: the dict [{"event": ..., "process": ...}]. *)
Inductive Event :=
  | idle
  | process_started (p : ref)
  | process_completed (p : ref)
  | process_running (p : ref)
  | process_preempted (p : ref).

(** *** Attribute updates *)

Definition set_time (s : Scheduler) (t : Z) : Scheduler :=
  mkScheduler (kind s) (process_manager s) (resources s) (current_process s)
              (name s) t (quantum s) (current_quantum s).

Definition set_current_process (s : Scheduler) (c : option ref) : Scheduler :=
  mkScheduler (kind s) (process_manager s) (resources s) c
              (name s) (time s) (quantum s) (current_quantum s).

Definition set_current_quantum (s : Scheduler) (q : Z) : Scheduler :=
  mkScheduler (kind s) (process_manager s) (resources s) (current_process s)
              (name s) (time s) (quantum s) q.

Definition set_resources (s : Scheduler) (r : SystemResources) : Scheduler :=
  mkScheduler (kind s) (process_manager s) r (current_process s)
              (name s) (time s) (quantum s) (current_quantum s).

Definition set_cpu_available (s : Scheduler) (b : bool) : Scheduler :=
  set_resources s (mkSystemResources b (mem (resources s))).

Definition set_process_manager (s : Scheduler) (pm : ProcessManager) : Scheduler :=
  mkScheduler (kind s) pm (resources s) (current_process s)
              (name s) (time s) (quantum s) (current_quantum s).

Definition set_ready_queue (s : Scheduler) (q : list ref) : Scheduler :=
  set_process_manager s (mkProcessManager (processes (process_manager s)) q).

(** Reading and writing through a reference. *)
Definition deref (s : Scheduler) (r : ref) : result Process :=
  match processes (process_manager s) !! r with
  | Some p => Ok p
  | None => Raise DanglingReference
  end.

Definition store (s : Scheduler) (r : ref) (p : Process) : Scheduler :=
  set_process_manager s
    (mkProcessManager (<[r := p]> (processes (process_manager s)))
                      (ready_queue (process_manager s))).

(** [self.current_process and self.current_process.state == "running"] *)
Definition current_running (s : Scheduler) : result bool :=
  match current_process s with
  | None => Ok false
  | Some c => p ← deref s c; Ok (bool_decide (state p = Running))
  end.

(** *** Selection *)

(** [for process in ready_queue: if process.state == "ready": return process] *)
Fixpoint first_ready (ps : list Process) (q : list ref) : result (option ref) :=
  match q with
  | [] => Ok None
  | r :: q' =>
      match ps !! r with
      | None => Raise DanglingReference
      | Some p => if bool_decide (state p = Ready) then Ok (Some r)
                  else first_ready ps q'
      end
  end.

(** [[p for p in ready_queue if p.state == "ready"]] *)
Fixpoint ready_processes (ps : list Process) (q : list ref)
  : result (list (ref * Process)) :=
  match q with
  | [] => Ok []
  | r :: q' =>
      match ps !! r with
      | None => Raise DanglingReference
      | Some p =>
          rest ← ready_processes ps q';
          Ok (if bool_decide (state p = Ready) then (r, p) :: rest else rest)
      end
  end.

(** Python's [min(l, key=...)] on a non-empty list: the first element whose
    key is minimal. *)
Definition py_min {A} (key : A → Z) (first : A) (rest : list A) : A :=
  fold_left (λ best x, if key x <? key best then x else best) rest first.

Definition select_min (key : Process → Z) (s : Scheduler) : result (option ref) :=
  match ready_queue (process_manager s) with
  | [] => Ok None
  | _ =>
      rp ← ready_processes (processes (process_manager s))
                           (ready_queue (process_manager s));
      match rp with
      | [] => Ok None
      | x :: rest => Ok (Some (fst (py_min (λ e, key (snd e)) x rest)))
      end
  end.

(** [list.remove(x)]: drops the first occurrence, [ValueError] if there is
    none. *)
Fixpoint list_remove (x : ref) (l : list ref) : result (list ref) :=
  match l with
  | [] => Raise (ValueError "list.remove(x): x not in list")
  | y :: l' => if bool_decide (y = x) then Ok l'
               else l'' ← list_remove x l'; Ok (y :: l'')
  end.

(** [FCFSScheduler.select_next_process] *)
Definition fcfs_select_next_process (s : Scheduler) : result (option ref) :=
  first_ready (processes (process_manager s)) (ready_queue (process_manager s)).

(** [SJFScheduler.select_next_process] *)
Definition sjf_select_next_process (s : Scheduler) : result (option ref) :=
  select_min burst_time s.

(** [PriorityScheduler.select_next_process] *)
Definition priority_select_next_process (s : Scheduler) : result (option ref) :=
  select_min priority s.

(** [RoundRobinScheduler.select_next_process]: it may requeue the current
    process and it resets [current_quantum], so it returns the scheduler as
    well. *)
Definition rr_select_next_process (s : Scheduler)
  : result (Scheduler * option ref) :=
  match ready_queue (process_manager s) with
  | [] => Ok (s, None)
  | _ =>
      run ← current_running s;
      s ← (match current_process s with
           | Some c =>
               if run && bool_decide (quantum s ≤ current_quantum s) then
                 p ← deref s c;
                 let s := store s c (set_state p Ready) in
                 q ← list_remove c (ready_queue (process_manager s));
                 let s := set_ready_queue s (q ++ [c]) in
                 let s := set_cpu_available s true in
                 let s := set_current_quantum s 0 in
                 Ok (set_current_process s None)
               else Ok s
           | None => Ok s
           end);
      next ← first_ready (processes (process_manager s))
                         (ready_queue (process_manager s));
      match next with
      | Some r => Ok (set_current_quantum s 0, Some r)
      | None => Ok (s, None)
      end
  end.

(** Method dispatch on the scheduler's class. *)
Definition select_next_process (s : Scheduler) : result (Scheduler * option ref) :=
  match kind s with
  | FCFS => r ← fcfs_select_next_process s; Ok (s, r)
  | SJF => r ← sjf_select_next_process s; Ok (s, r)
  | Priority => r ← priority_select_next_process s; Ok (s, r)
  | RoundRobin => rr_select_next_process s
  end.

(** *** Cycles *)

(** [Scheduler.execute_cycle] *)
Definition base_execute_cycle (s : Scheduler) : result (Scheduler * Event) :=
  let s := set_time s (time s + 1) in
  run ← current_running s;
  if negb run then
    '(s, next_process) ← select_next_process s;
    match next_process with
    | Some n =>
        if cpu_available (resources s) then
          let s := set_cpu_available s false in
          p ← deref s n;
          let s := store s n (set_state p Running) in
          let s := set_current_process s (Some n) in
          Ok (s, process_started n)
        else Ok (s, idle)
    | None => Ok (s, idle)
    end
  else
    match current_process s with
    | Some c =>
        if (run : bool) then
          p ← deref s c;
          let p := set_burst_time p (burst_time p - 1) in
          let s := store s c p in
          if bool_decide (burst_time p ≤ 0) then
            let p := set_state p Terminated in
            let s := store s c p in
            let s := set_cpu_available s true in
            m ← release_memory (mem (resources s)) (pid p) (memory p);
            let s := set_resources s
                       (mkSystemResources (cpu_available (resources s)) m) in
            let s := set_current_process s None in
            Ok (s, process_completed c)
          else Ok (s, process_running c)
        else Ok (s, idle)
    | None => Ok (s, idle)
    end.

(** [RoundRobinScheduler.execute_cycle] *)
Definition rr_execute_cycle (s : Scheduler) : result (Scheduler * Event) :=
  '(s, res) ← base_execute_cycle s;
  run ← current_running s;
  match current_process s with
  | Some c =>
      if (run : bool) then
        let s := set_current_quantum s (current_quantum s + 1) in
        p ← deref s c;
        if bool_decide (quantum s ≤ current_quantum s)
           && bool_decide (0 < burst_time p) then
          let s := store s c (set_state p Ready) in
          let s := set_cpu_available s true in
          q ← list_remove c (ready_queue (process_manager s));
          let s := set_ready_queue s (q ++ [c]) in
          let s := set_current_process s None in
          let s := set_current_quantum s 0 in
          Ok (s, process_preempted c)
        else Ok (s, res)
      else Ok (s, res)
  | None => Ok (s, res)
  end.

(** Method dispatch on the scheduler's class. *)
Definition execute_cycle (s : Scheduler) : result (Scheduler * Event) :=
  match kind s with
  | RoundRobin => rr_execute_cycle s
  | _ => base_execute_cycle s
  end.

(** [RoundRobinScheduler.set_quantum] *)
Definition set_quantum (s : Scheduler) (q : Z) : Scheduler :=
  mkScheduler (kind s) (process_manager s) (resources s) (current_process s)
              ("Round Robin (Quantum: " +:+ pretty q +:+ ")")
              (time s) q 0.

(** Python's [str.lower], on a string held as its bytes: the letters A-Z go
    to a-z and every other byte is kept.  Python also lowers some characters
    outside the 7-bit range, but none of them to a letter of the four names
    of the factory or to the underscore, so the comparisons of
    [create_scheduler] come out the same; for a name with such a character
    only the text of the ValueError differs. *)
Definition lower_ascii (c : Ascii.ascii) : Ascii.ascii :=
  let n := Ascii.N_of_ascii c in
  if ((65 <=? n) && (n <=? 90))%N then Ascii.ascii_of_N (n + 32) else c.

Fixpoint lower (s : string) : string :=
  match s with
  | EmptyString => EmptyString
  | String c s' => String (lower_ascii c) (lower s')
  end.

(** [Scheduler.__init__] followed by the subclass' [__init__] *)
Definition new_FCFSScheduler (pm : ProcessManager) (r : SystemResources) : Scheduler :=
  mkScheduler FCFS pm r None "First-Come, First-Served (FCFS)" 0 0 0.

Definition new_SJFScheduler (pm : ProcessManager) (r : SystemResources) : Scheduler :=
  mkScheduler SJF pm r None "Shortest Job First (SJF)" 0 0 0.

Definition new_PriorityScheduler (pm : ProcessManager) (r : SystemResources) : Scheduler :=
  mkScheduler Priority pm r None "Priority Scheduler" 0 0 0.

Definition new_RoundRobinScheduler (pm : ProcessManager) (r : SystemResources)
    (quantum : Z) : Scheduler :=
  mkScheduler RoundRobin pm r None
              ("Round Robin (Quantum: " +:+ pretty quantum +:+ ")") 0 quantum 0.

(** The instance the constructor of each class returns. *)
Definition scheduler_of_class (a : scheduler_class) (pm : ProcessManager)
    (r : SystemResources) (quantum : Z) : Scheduler :=
  match a with
  | FCFS => new_FCFSScheduler pm r
  | SJF => new_SJFScheduler pm r
  | Priority => new_PriorityScheduler pm r
  | RoundRobin => new_RoundRobinScheduler pm r quantum
  end.

(** [SchedulerFactory.create_scheduler] *)
Definition create_scheduler (algorithm : string) (pm : ProcessManager)
    (r : SystemResources) (quantum : Z) : result Scheduler :=
  let algorithm := lower algorithm in
  if bool_decide (algorithm = "fcfs") then Ok (new_FCFSScheduler pm r)
  else if bool_decide (algorithm = "sjf") then Ok (new_SJFScheduler pm r)
  else if bool_decide (algorithm = "priority") then Ok (new_PriorityScheduler pm r)
  else if bool_decide (algorithm = "round_robin") then
    Ok (new_RoundRobinScheduler pm r quantum)
  else Raise (ValueError ("Algoritmo desconocido: " +:+ algorithm)).

(** The names the factory documents, and the class each one stands for. *)
Definition algorithm_names : list string :=
  ["fcfs"; "sjf"; "priority"; "round_robin"].

Definition algorithm_name (a : scheduler_class) : string :=
  match a with
  | FCFS => "fcfs"
  | SJF => "sjf"
  | Priority => "priority"
  | RoundRobin => "round_robin"
  end.

(** [n] successive calls of [execute_cycle], with the events they return. *)
Fixpoint run_cycles (n : nat) (s : Scheduler) : result (Scheduler * list Event) :=
  match n with
  | O => Ok (s, [])
  | S n' =>
      '(s, ev) ← execute_cycle s;
      '(s, evs) ← run_cycles n' s;
      Ok (s, ev :: evs)
  end.

(** *** Observations *)

Definition state_of (s : Scheduler) (r : ref) : option proc_state :=
  state <$> processes (process_manager s) !! r.

Definition burst_of (s : Scheduler) (r : ref) : option Z :=
  burst_time <$> processes (process_manager s) !! r.

(** State and remaining burst of every process, in creation order. *)
Definition snapshot (s : Scheduler) : list (proc_state * Z) :=
  (λ p, (state p, burst_time p)) <$> processes (process_manager s).

(** [n] successive calls of [execute_cycle]: the event of each call with the
    snapshot taken when it returns. *)
Fixpoint run_trace (n : nat) (s : Scheduler)
  : result (list (Event * list (proc_state * Z))) :=
  match n with
  | O => Ok []
  | S n' =>
      '(s, ev) ← execute_cycle s;
      rest ← run_trace n' s;
      Ok ((ev, snapshot s) :: rest)
  end.

Definition is_preempted (ev : Event) : bool :=
  match ev with process_preempted _ => true | _ => false end.

Definition preemptions (evs : list Event) : nat :=
  length (filter (λ ev, is_preempted ev = true) evs).

(** Every reference held by the ready queue or by [current_process] points
    into the store (in Python a reference always does). *)
Definition well_formed (s : Scheduler) : Prop :=
  (∀ r, r ∈ ready_queue (process_manager s) →
        (r < length (processes (process_manager s)))%nat)
  ∧ (∀ c, current_process s = Some c →
          (c < length (processes (process_manager s)))%nat).

Definition no_running (s : Scheduler) : Prop :=
  ∀ r p, processes (process_manager s) !! r = Some p → state p ≠ Running.

Definition at_most_one_running (s : Scheduler) : Prop :=
  ∀ r1 r2 p1 p2,
    processes (process_manager s) !! r1 = Some p1 →
    processes (process_manager s) !! r2 = Some p2 →
    state p1 = Running → state p2 = Running → r1 = r2.

(** What the cycles maintain: the store, the queue and the current process
    are well formed, and a process that is Running is the current one and
    sits in the ready queue. *)
Definition cycle_inv (ps : list Process) (q : list ref) (cur : option ref) : Prop :=
  (∀ r, r ∈ q → (r < length ps)%nat)
  ∧ (∀ c, cur = Some c → (c < length ps)%nat)
  ∧ (∀ r p, ps !! r = Some p → state p = Running → cur = Some r ∧ r ∈ q).

Definition sched_inv (s : Scheduler) : Prop :=
  cycle_inv (processes (process_manager s)) (ready_queue (process_manager s))
            (current_process s).

(** A scheduler at rest: once nothing is Ready and nothing runs, every further cycle is idle and
    only the clock moves. *)
Definition at_rest (s : Scheduler) : Prop :=
  current_process s = None
  ∧ Forall (λ r, ∃ p, processes (process_manager s) !! r = Some p
                      ∧ state p ≠ Ready)
           (ready_queue (process_manager s)).

(** [e] is an exception that [release_memory] raises. *)
Definition release_raises (e : exn) : Prop :=
  ∃ m pid amount, release_memory m pid amount = Raise e.

(** Modelled from the spec: [SystemResources.__init__] is missing from the
    sources; the CPU is a "single-unit exclusive resource", free when the
    simulation starts. *)
Definition new_SystemResources (m : Memory) : SystemResources :=
  mkSystemResources true m.

(** Round Robin with quantum 2 over a single process of burst 3. *)
Definition rr_single (priority memory : Z) (m : Memory) : Scheduler :=
  new_RoundRobinScheduler
    (fst (create_process new_ProcessManager priority memory 3))
    (new_SystemResources m) 2.

(** FCFS over P1 (burst 3) and P2 (burst 2), created in that order. *)
Definition fcfs_pair (priority1 memory1 priority2 memory2 : Z) (m : Memory)
  : Scheduler :=
  new_FCFSScheduler
    (fst (create_process
            (fst (create_process new_ProcessManager priority1 memory1 3))
            priority2 memory2 2))
    (new_SystemResources m).

End Schedulers.

(** ** comunicacion.py *)

Section Mailboxes.
(** What [time.time()] returns; the messages carry it and nothing reads it. *)
Context {Timestamp : Type}.

Record Message := mkMessage {
  sender : Z;
  content : string;
  timestamp : Timestamp
}.

(** [process_queues]: a dict from pid to a [queue.Queue()], an unbounded
    FIFO whose [put] adds at the tail and whose [get] takes the head. *)
Record MessageQueue := mkMessageQueue {
  process_queues : gmap Z (list Message)
}.

(** [MessageQueue.__init__] *)
Definition new_MessageQueue : MessageQueue := mkMessageQueue ∅.

(** [MessageQueue.create_queue] *)
Definition create_queue (mq : MessageQueue) (pid : Z) : MessageQueue :=
  match process_queues mq !! pid with
  | None => mkMessageQueue (<[pid := []]> (process_queues mq))
  | Some _ => mq
  end.

(** [MessageQueue.send_message]; [now] is the reading of the clock. *)
Definition send_message (mq : MessageQueue) (sender_pid receiver_pid : Z)
    (message : string) (now : Timestamp) : MessageQueue * bool :=
  match process_queues mq !! receiver_pid with
  | None => (mq, false)
  | Some q =>
      let formatted_message := mkMessage sender_pid message now in
      (mkMessageQueue (<[receiver_pid := q ++ [formatted_message]]> (process_queues mq)),
       true)
  end.

(** [MessageQueue.receive_message] *)
Definition receive_message (mq : MessageQueue) (pid : Z)
  : MessageQueue * option Message :=
  match process_queues mq !! pid with
  | None => (mq, None)
  | Some [] => (mq, None)
  | Some (m :: q) => (mkMessageQueue (<[pid := q]> (process_queues mq)), Some m)
  end.

(** [MessageQueue.get_queue_size] *)
Definition get_queue_size (mq : MessageQueue) (pid : Z) : Z :=
  match process_queues mq !! pid with
  | None => 0
  | Some q => Z.of_nat (length q)
  end.

(** [n] successive calls of [receive_message pid], with what they return. *)
Fixpoint receive_many (n : nat) (mq : MessageQueue) (pid : Z)
  : MessageQueue * list (option Message) :=
  match n with
  | O => (mq, [])
  | S n' =>
      let '(mq, m) := receive_message mq pid in
      let '(mq, ms) := receive_many n' mq pid in
      (mq, m :: ms)
  end.

End Mailboxes.

Arguments Message : clear implicits.
Arguments MessageQueue : clear implicits.

(** The counter of a [Semaphore]; [ProducerConsumer] reads and writes the
    counter directly and never calls [acquire] or [release]. *)
Record Semaphore := mkSemaphore { value : Z }.

Record ProducerConsumer := mkProducerConsumer {
  buffer_size : Z;
  buffer : list string;
  mutex : Semaphore;
  empty : Semaphore;
  full : Semaphore;
  producer_active : bool;
  consumer_active : bool;
  logs : list string
}.

(** [ProducerConsumer.__init__] *)
Definition new_ProducerConsumer (buffer_size : Z) : ProducerConsumer :=
  mkProducerConsumer buffer_size [] (mkSemaphore 1) (mkSemaphore buffer_size)
                     (mkSemaphore 0) false false [].

(** [len(self.buffer)] *)
Definition len (l : list string) : Z := Z.of_nat (length l).

(** [ProducerConsumer.produce] *)
Definition produce (pc : ProducerConsumer) (item : string) : ProducerConsumer * bool :=
  if bool_decide (buffer_size pc ≤ len (buffer pc)) then (pc, false)
  else if bool_decide (value (empty pc) ≤ 0) then
    (mkProducerConsumer (buffer_size pc) (buffer pc) (mutex pc) (empty pc) (full pc)
       (producer_active pc) (consumer_active pc)
       (logs pc ++ ["Productor bloqueado: buffer lleno"]),
     false)
  else
    let empty' := mkSemaphore (value (empty pc) - 1) in
    let mutex' := mkSemaphore (value (mutex pc) - 1) in
    let buffer' := buffer pc ++ [item] in
    let logs' := logs pc ++
      ["Productor: item '" +:+ item +:+ "' producido → buffer: "
         +:+ pretty (len buffer') +:+ "/" +:+ pretty (buffer_size pc)] in
    let mutex' := mkSemaphore (value mutex' + 1) in
    let full' := mkSemaphore (value (full pc) + 1) in
    (mkProducerConsumer (buffer_size pc) buffer' mutex' empty' full'
       (producer_active pc) (consumer_active pc) logs',
     true).

(** [ProducerConsumer.consume] *)
Definition consume (pc : ProducerConsumer) : ProducerConsumer * option string :=
  if bool_decide (len (buffer pc) ≤ 0) then (pc, None)
  else if bool_decide (value (full pc) ≤ 0) then
    (mkProducerConsumer (buffer_size pc) (buffer pc) (mutex pc) (empty pc) (full pc)
       (producer_active pc) (consumer_active pc)
       (logs pc ++ ["Consumidor bloqueado: buffer vacío"]),
     None)
  else
    match buffer pc with
    | [] => (pc, None)   (* not reached: the buffer is not empty here *)
    | item :: buffer' =>
        let full' := mkSemaphore (value (full pc) - 1) in
        let mutex' := mkSemaphore (value (mutex pc) - 1) in
        let logs' := logs pc ++
          ["Consumidor: item '" +:+ item +:+ "' consumido → buffer: "
             +:+ pretty (len buffer') +:+ "/" +:+ pretty (buffer_size pc)] in
        let mutex' := mkSemaphore (value mutex' + 1) in
        let empty' := mkSemaphore (value (empty pc) + 1) in
        (mkProducerConsumer (buffer_size pc) buffer' mutex' empty' full'
           (producer_active pc) (consumer_active pc) logs',
         Some item)
    end.

(** [ProducerConsumer.get_buffer_status] *)
Record BufferStatus := mkBufferStatus {
  status_buffer_size : Z;
  items_in_buffer : Z;
  buffer_content : list string;
  empty_slots : Z;
  full_slots : Z
}.

Definition get_buffer_status (pc : ProducerConsumer) : BufferStatus :=
  mkBufferStatus (buffer_size pc) (len (buffer pc)) (buffer pc)
                 (value (empty pc)) (value (full pc)).

(** [ProducerConsumer.get_logs] *)
Definition get_logs (pc : ProducerConsumer) : list string := logs pc.

(** A call of [produce] or [consume], and a sequence of completed calls. *)
Inductive call :=
  | Produce (item : string)
  | Consume.

Definition do_call (pc : ProducerConsumer) (c : call) : ProducerConsumer :=
  match c with
  | Produce item => fst (produce pc item)
  | Consume => fst (consume pc)
  end.

Definition do_calls (pc : ProducerConsumer) (cs : list call) : ProducerConsumer :=
  fold_left do_call cs pc.

(** Was the call a would-block failure? *)
Definition call_failed (pc : ProducerConsumer) (c : call) : bool :=
  match c with
  | Produce item => negb (snd (produce pc item))
  | Consume => bool_decide (snd (consume pc) = None)
  end.

(** What holds between two calls, for a buffer made with capacity [N]. *)
Definition buffer_inv (N : Z) (pc : ProducerConsumer) : Prop :=
  buffer_size pc = N
  ∧ value (empty pc) + value (full pc) = N
  ∧ value (full pc) = len (buffer pc).

(** ** procesos.py: a table of processes *)

(** [create_process] called once for each (priority, memory, burst_time). *)
Definition create_processes (pm : ProcessManager) (specs : list (Z * Z * Z))
  : ProcessManager :=
  foldl (λ pm '(priority, memory, burst_time),
           fst (create_process pm priority memory burst_time)) pm specs.

(** ** planificador.py: what a cycle is about, and what it maintains *)

Section CycleObservations.
Context `{MM : MemoryModel}.

(** The process an event is about. *)
Definition event_process (ev : Event) : option nat :=
  match ev with
  | idle => None
  | process_started p | process_completed p
  | process_running p | process_preempted p => Some p
  end.

(** References point into the store, and the current process, when there
    is one, is an entry of the ready queue (it was selected from it). *)
Definition refs_ok (s : Scheduler) : Prop :=
  well_formed s
  ∧ ∀ c, current_process s = Some c → c ∈ ready_queue (process_manager s).

(** The CPU flag is free only when no process is Running. *)
Definition cpu_guard (s : Scheduler) : Prop :=
  cpu_available (resources s) = true → no_running s.

(** What the CPU flag maintains, also for a scheduler that does not know
    the process that runs. *)
Definition mutex_inv (s : Scheduler) : Prop :=
  refs_ok s ∧ at_most_one_running s ∧ cpu_guard s.

End CycleObservations.

(** ** comunicacion.py: the items of a sequence of calls *)

(** The items the successful [produce] calls of a sequence put into the
    buffer, and the items its successful [consume] calls returned, both in
    call order. *)
Fixpoint accepted (pc : ProducerConsumer) (cs : list call) : list string :=
  match cs with
  | [] => []
  | Produce item :: cs' =>
      (if snd (produce pc item) then [item] else [])
      ++ accepted (fst (produce pc item)) cs'
  | Consume :: cs' => accepted (fst (consume pc)) cs'
  end.

Fixpoint delivered (pc : ProducerConsumer) (cs : list call) : list string :=
  match cs with
  | [] => []
  | Produce item :: cs' => delivered (fst (produce pc item)) cs'
  | Consume :: cs' =>
      match snd (consume pc) with
      | Some item => [item]
      | None => []
      end ++ delivered (fst (consume pc)) cs'
  end.

(** ** cli.py: the driver

    The operations of the menu that change the simulation.  What the
    prompts return is an argument; what goes to [console.print] is kept in
    [console].  The CLI shares its process manager and its resources with
    the scheduler it holds (the same objects), so they are read and written
    through the scheduler. *)

(** The text of a [state] attribute. *)
Definition state_name (st : proc_state) : string :=
  match st with
  | Ready => "ready"
  | Running => "running"
  | Waiting => "waiting"
  | Terminated => "terminated"
  end.

(** [next((p for p in processes if p.pid == n), None)] *)
Definition find_process (ps : list Process) (n : Z) : option (nat * Process) :=
  list_find (λ p, pid p = n) ps.

(** What [console.print] receives: a text, or a table with its title,
    column headers and rows. *)
Inductive printed :=
  | Text (s : string)
  | Table (title : string) (columns : list string) (rows : list (list string))
  | Panel (text : string) (title : string).

(** The line break of the f-strings. *)
Definition nl : string := String (Ascii.ascii_of_nat 10) "".

Module Cli.
Section Driver.
Context `{MM : MemoryModel}.

Record t := mk {
  scheduler : Scheduler;
  scheduler_algorithm : string;
  quantum : Z;
  logs : list string;
  console : list printed
}.

Definition set_scheduler (c : t) (s : Scheduler) : t :=
  mk s (scheduler_algorithm c) (quantum c) (logs c) (console c).

(** [console.print(x)] *)
Definition print (c : t) (x : printed) : t :=
  mk (scheduler c) (scheduler_algorithm c) (quantum c) (logs c) (console c ++ [x]).

(** [self.logs.append(l)] *)
Definition log (c : t) (l : string) : t :=
  mk (scheduler c) (scheduler_algorithm c) (quantum c) (logs c ++ [l]) (console c).

(** [CLI._setup_scheduler] *)
Definition _setup_scheduler (c : t) : result t :=
  s ← create_scheduler (scheduler_algorithm c)
        (process_manager (scheduler c)) (resources (scheduler c)) (quantum c);
  Ok (set_scheduler c s).

(** [CLI.__init__]; [m] is the memory accounting of the new
    [SystemResources()]. *)
Definition init (m : Memory) : result t :=
  s ← create_scheduler "fcfs" new_ProcessManager (new_SystemResources m) 2;
  Ok (mk s "fcfs" 2 [] []).

(** [CLI.change_algorithm]; [option] and [quantum_input] are what the two
    prompts return (the second one is asked for option "4" only). *)
Definition change_algorithm (c : t) (option : string) (quantum_input : Z)
  : result t :=
  let c := print c (Text "[bold]Algoritmos disponibles:[/bold]") in
  let c := print c (Text "1. FCFS (First-Come, First-Served)") in
  let c := print c (Text "2. SJF (Shortest Job First)") in
  let c := print c (Text "3. Prioridad") in
  let c := print c (Text "4. Round Robin") in
  let c :=
    if bool_decide (option = "1") then
      mk (scheduler c) "fcfs" (quantum c) (logs c) (console c)
    else if bool_decide (option = "2") then
      mk (scheduler c) "sjf" (quantum c) (logs c) (console c)
    else if bool_decide (option = "3") then
      mk (scheduler c) "priority" (quantum c) (logs c) (console c)
    else if bool_decide (option = "4") then
      mk (scheduler c) "round_robin" quantum_input (logs c) (console c)
    else c in
  c ← _setup_scheduler c;
  let c := print c (Text ("[green]✓ Algoritmo cambiado a: "
                          +:+ name (scheduler c) +:+ "[/green]")) in
  Ok (log c ("Algoritmo cambiado a " +:+ name (scheduler c))).

(** [CLI._handle_simulation_event] *)
Definition _handle_simulation_event (c : t) (ev : Event) : result t :=
  let cycle := "Ciclo " +:+ pretty (time (scheduler c)) in
  match ev with
  | process_started r =>
      p ← deref (scheduler c) r;
      Ok (log c (cycle +:+ ": Proceso " +:+ pretty (pid p) +:+ " inició ejecución"))
  | process_completed r =>
      p ← deref (scheduler c) r;
      Ok (log c (cycle +:+ ": Proceso " +:+ pretty (pid p) +:+ " completado"))
  | process_preempted r =>
      p ← deref (scheduler c) r;
      Ok (log c (cycle +:+ ": Proceso " +:+ pretty (pid p)
                 +:+ " interrumpido por quantum"))
  | idle => Ok (log c (cycle +:+ ": CPU inactiva"))
  | process_running _ => Ok c
  end.

(** The loop of [CLI.run_simulation] (cli.py, lines 181 to 184):
    [for i in range(cycles)], a cycle of the scheduler and the handling of
    its event.  What [run_simulation] does around the loop is display: the
    progress bar and, after the loop, a line, [list_processes_table()] and
    [show_resources()].  That display is not part of the model
    ([show_resources] reads the missing [recursos.py] and divides by
    [total_memory]): a [simulation_loop] that returns gives the state in
    which the loop ends, and says nothing about the display that follows. *)
Fixpoint simulation_loop (n : nat) (c : t) : result t :=
  match n with
  | O => Ok c
  | S n' =>
      '(s, ev) ← execute_cycle (scheduler c);
      c ← _handle_simulation_event (set_scheduler c s) ev;
      simulation_loop n' c
  end.

Definition not_found (n : Z) : printed :=
  Text ("[red]✗ No se encontró proceso con PID " +:+ pretty n +:+ "[/red]").

(** [CLI.suspend_process]; [n] is the pid the prompt returns. *)
Definition suspend_process (c : t) (n : Z) : t :=
  match find_process (processes (process_manager (scheduler c))) n with
  | None => print c (not_found n)
  | Some (r, p) =>
      if negb (bool_decide (state p = Running) || bool_decide (state p = Ready))
      then
        print c (Text ("[red]✗ El proceso " +:+ pretty n
                       +:+ " no está en ejecución o listo (estado actual: "
                       +:+ state_name (state p) +:+ ")[/red]"))
      else
        let s := scheduler c in
        let s := if bool_decide (state p = Running)
                 then set_cpu_available s true else s in
        let s := store s r (set_state p Waiting) in
        let c := set_scheduler c s in
        let c := print c (Text ("[yellow]⏸ Proceso " +:+ pretty n
                                +:+ " suspendido[/yellow]")) in
        log c ("Proceso " +:+ pretty n +:+ " suspendido")
  end.

(** [CLI.resume_process] *)
Definition resume_process (c : t) (n : Z) : t :=
  match find_process (processes (process_manager (scheduler c))) n with
  | None => print c (not_found n)
  | Some (r, p) =>
      if negb (bool_decide (state p = Waiting)) then
        print c (Text ("[red]✗ El proceso " +:+ pretty n
                       +:+ " no está suspendido (estado actual: "
                       +:+ state_name (state p) +:+ ")[/red]"))
      else
        let s := store (scheduler c) r (set_state p Ready) in
        let c := set_scheduler c s in
        let c := print c (Text ("[green]▶ Proceso " +:+ pretty n
                                +:+ " reanudado[/green]")) in
        log c ("Proceso " +:+ pretty n +:+ " reanudado")
  end.

(** [CLI.terminate_process]; the exception of a release that fails is not
    caught. *)
Definition terminate_process (c : t) (n : Z) : result t :=
  match find_process (processes (process_manager (scheduler c))) n with
  | None => Ok (print c (not_found n))
  | Some (r, p) =>
      if bool_decide (state p = Terminated) then
        Ok (print c (Text ("[red]✗ El proceso " +:+ pretty n
                           +:+ " ya está terminado[/red]")))
      else
        let s := scheduler c in
        let s := if bool_decide (state p = Running)
                 then set_cpu_available s true else s in
        m ← release_memory (mem (resources s)) (pid p) (memory p);
        let s := set_resources s
                   (mkSystemResources (cpu_available (resources s)) m) in
        let s := store s r (set_state p Terminated) in
        let c := set_scheduler c s in
        let c := print c (Text ("[red]⏹ Proceso " +:+ pretty n
                                +:+ " terminado forzadamente[/red]")) in
        Ok (log c ("Proceso " +:+ pretty n +:+ " terminado forzadamente"))
  end.

(** [self.logs[-10:]] *)
Definition last_ten (l : list string) : list string :=
  drop (length l - 10) l.

(** [enumerate(l)] *)
Definition enumerate (l : list string) : list (nat * string) :=
  imap (λ i x, (i, x)) l.

(** [CLI.show_logs] *)
Definition show_logs (c : t) : t :=
  match logs c with
  | [] => print c (Text "[yellow]No hay eventos registrados[/yellow]")
  | _ =>
      let c := print c (Text "[bold]Últimos eventos:[/bold]") in
      foldl (λ c '(i, l),
               print c (Text (pretty (len (logs c) - 10 + Z.of_nat i + 1)
                              +:+ ". " +:+ l)))
            c (enumerate (last_ten (logs c)))
  end.

(** A step of the driver: the cycle loop of [run_simulation] with the
    number of cycles, or an entry of the menu with what its prompts
    return. *)
Inductive op :=
  | SimulationLoop (cycles : Z)
  | SuspendProcess (n : Z)
  | ResumeProcess (n : Z)
  | TerminateProcess (n : Z)
  | ChangeAlgorithm (option : string) (quantum_input : Z).

Definition do_op (c : t) (o : op) : result t :=
  match o with
  | SimulationLoop cycles => simulation_loop (Z.to_nat cycles) c
  | SuspendProcess n => Ok (suspend_process c n)
  | ResumeProcess n => Ok (resume_process c n)
  | TerminateProcess n => terminate_process c n
  | ChangeAlgorithm option quantum_input => change_algorithm c option quantum_input
  end.

Fixpoint do_ops (c : t) (os : list op) : result t :=
  match os with
  | [] => Ok c
  | o :: os' => c ← do_op c o; do_ops c os'
  end.

End Driver.

Section Messages.
Context `{MM : MemoryModel} {Timestamp : Type}.

(** [CLI.view_messages]; [ms] is the global [message_system]. *)
Definition view_messages (c : t) (ms : MessageQueue Timestamp) (n : Z)
  : t * MessageQueue Timestamp :=
  match find_process (processes (process_manager (scheduler c))) n with
  | None => (print c (not_found n), ms)
  | Some _ =>
      let queue_size := get_queue_size ms n in
      if bool_decide (queue_size = 0) then
        (print c (Text ("[yellow]El proceso " +:+ pretty n
                        +:+ " no tiene mensajes[/yellow]")), ms)
      else
        let c := print c (Text ("[bold]Mensajes del proceso " +:+ pretty n
                                +:+ ":[/bold]")) in
        let '(ms, received) := receive_many (Z.to_nat queue_size) ms n in
        let rows :=
          omap (λ message : option (Message Timestamp),
                  (λ m, [pretty (sender m); content m]) <$> message)
               received in
        (print c (Table ("Cola de mensajes: Proceso " +:+ pretty n)
                        ["De"; "Mensaje"] rows),
         ms)
  end.

End Messages.

Section ProducerConsumerMenu.
Context `{MM : MemoryModel}.

(** The picture of the buffer that option "3" builds: one cell for each of
    the [buffer_size] slots. *)
Definition buffer_visual (status : BufferStatus) : string :=
  foldl (λ visual i,
           match buffer_content status !! i with
           | Some x => visual +:+ " [green]" +:+ x +:+ "[/green] "
           | None => visual +:+ " □ "
           end)
        "[" (seq 0 (Z.to_nat (status_buffer_size status)))
  +:+ "]".

(** [CLI.run_producer_consumer]; [pc] is the global [producer_consumer],
    [option] what the menu prompt returns and [item_input] what the item
    prompt returns (asked for option "1" only). *)
Definition run_producer_consumer (c : t) (pc : ProducerConsumer)
    (option item_input : string) : t * ProducerConsumer :=
  let c := print c (Text "[bold]Simulación del problema Productor-Consumidor[/bold]") in
  let c := print c (Text "1. Producir un item") in
  let c := print c (Text "2. Consumir un item") in
  let c := print c (Text "3. Ver estado del buffer") in
  let c := print c (Text "4. Ver logs de la simulación") in
  let c := print c (Text "5. Volver al menú principal") in
  if bool_decide (option = "1") then
    let '(pc, result) := produce pc item_input in
    if result then
      (print c (Text ("[green]✓ Item '" +:+ item_input
                      +:+ "' producido correctamente[/green]")), pc)
    else
      (print c (Text "[yellow]No se pudo producir el item (buffer lleno o productor bloqueado)[/yellow]"),
       pc)
  else if bool_decide (option = "2") then
    let '(pc, item) := consume pc in
    match item with
    | Some (String a rest) =>
        (print c (Text ("[green]✓ Item '" +:+ String a rest
                        +:+ "' consumido correctamente[/green]")), pc)
    | Some EmptyString | None =>
        (print c (Text "[yellow]No se pudo consumir ningún item (buffer vacío o consumidor bloqueado)[/yellow]"),
         pc)
    end
  else if bool_decide (option = "3") then
    let status := get_buffer_status pc in
    (print c (Panel ("Tamaño del buffer: " +:+ pretty (status_buffer_size status) +:+ nl
                     +:+ "Items en buffer: " +:+ pretty (items_in_buffer status) +:+ nl
                     +:+ "Espacios vacíos: " +:+ pretty (empty_slots status) +:+ nl
                     +:+ "Espacios llenos: " +:+ pretty (full_slots status) +:+ nl +:+ nl
                     +:+ "Buffer: " +:+ buffer_visual status)
                    "Estado del Buffer"),
     pc)
  else if bool_decide (option = "4") then
    match get_logs pc with
    | [] => (print c (Text "[yellow]No hay eventos registrados en la simulación[/yellow]"), pc)
    | _ =>
        let c := print c (Text "[bold]Eventos de la simulación Productor-Consumidor:[/bold]") in
        (foldl (λ c '(i, l),
                  print c (Text (pretty (Z.of_nat i + 1) +:+ ". " +:+ l)))
               c (enumerate (last_ten (get_logs pc))),
         pc)
    end
  else (c, pc).

End ProducerConsumerMenu.
End Cli.

(** ** Counting the calls of release_memory *)

(** A recorder for the calls of [release_memory]: the accounting is the list
    of the calls made so far, oldest first, each with its pid and its
    amount.  It stands for no implementation; it is the instance at which the
    callers of [release_memory] are observed. *)
Definition recording_memory : MemoryModel := {|
  Memory := list (Z * Z);
  release_memory := λ calls pid amount, Ok (calls ++ [(pid, amount)])
|}.

(** The calls recorded in a scheduler over the recorder. *)
Definition released (s : @Scheduler recording_memory) : list (Z * Z) :=
  mem (resources s).

(** Pids are unique, no pid was released twice, and the releases are those
    of the Terminated processes, each with its memory. *)
Definition release_inv (s : @Scheduler recording_memory) : Prop :=
  NoDup (pid <$> processes (process_manager s))
  ∧ NoDup (released s).*1
  ∧ ∀ n a, (n, a) ∈ released s
           ↔ ∃ r p, processes (process_manager s) !! r = Some p
                    ∧ pid p = n ∧ memory p = a ∧ state p = Terminated.

(** ** Sample states *)

(** The scheduler after [n] cycles (itself if a cycle raises). *)
Definition after_cycles `{MM : MemoryModel} (n : nat) (s : Scheduler) : Scheduler :=
  match run_cycles n s with
  | Ok (s', _) => s'
  | Raise _ => s
  end.

(** Four processes: priorities 2, 3, 1, 1 and bursts 5, 2, 2, 7. *)
Definition sample_table : ProcessManager :=
  create_processes new_ProcessManager
    [(2, 256, 5); (3, 128, 2); (1, 64, 2); (1, 32, 7)].

(** The pool once their memory is assigned. *)
Definition sample_resources : SystemResources (MM := pool_memory) :=
  new_SystemResources
    (mkMemoryPool 4096 3616 {[1 := 256; 2 := 128; 3 := 64; 4 := 32]}).

Definition sample_fcfs : Scheduler := new_FCFSScheduler sample_table sample_resources.
Definition sample_sjf : Scheduler := new_SJFScheduler sample_table sample_resources.
Definition sample_priority : Scheduler :=
  new_PriorityScheduler sample_table sample_resources.
Definition sample_rr (quantum : Z) : Scheduler :=
  new_RoundRobinScheduler sample_table sample_resources quantum.

(** A scheduler made by the factory while the first process, started by a
    Round Robin scheduler, still runs. *)
Definition sample_orphan : Scheduler :=
  new_SJFScheduler (process_manager (after_cycles 1 (sample_rr 2)))
                   (resources (after_cycles 1 (sample_rr 2))).

Definition sample_cli : Cli.t := Cli.mk sample_fcfs "fcfs" 2 [] [].

(** Case analysis on a lookup in the store of a sample state. *)
Ltac lookup_cases H :=
  lazymatch type of H with
  | (_ :: _) !! ?i = Some _ =>
      destruct i as [|i]; simpl in H; [injection H as <- | lookup_cases H]
  | _ => discriminate H
  end.

Ltac store_cases H :=
  lazymatch type of H with
  | ?ps !! ?r = Some ?p =>
      let l := eval vm_compute in ps in
      change (l !! r = Some p) in H;
      lookup_cases H
  end.

Ltac queue_cases H :=
  match type of H with
  | ?r ∈ ?q =>
      let l := eval vm_compute in q in
      change (r ∈ l) in H;
      repeat (apply elem_of_cons in H as [->|H]);
      try (by apply elem_of_nil in H)
  end.

(** A driver over the sample table, and one with three log entries. *)
Definition sample_logged_cli : Cli.t :=
  Cli.mk sample_fcfs "fcfs" 2 ["uno"; "dos"; "tres"] [].

(** Two messages in the mailbox of pid 2, an empty mailbox for pid 3. *)
Definition sample_mailboxes : MessageQueue Z :=
  fst (send_message
         (fst (send_message (create_queue (create_queue new_MessageQueue 2) 3)
                            1 2 "hola" 10))
         3 2 "adios" 11).

(** Evaluation of a run up to a call of [release_memory], whose result is
    given by a hypothesis. *)
Ltac run_to_release Hrel :=
  cbv -[release_memory]; rewrite ?Hrel; cbv -[release_memory].

(** Tactics for facts about the sample states. *)
Ltac sample_refs_ok :=
  split; [split |];
  [ let Hr := fresh in intros ? Hr; queue_cases Hr; vm_compute; lia
  | let Hc := fresh in
    intros ? Hc; vm_compute in Hc; first [discriminate Hc | injection Hc as <-; vm_compute; lia]
  | let Hc := fresh in
    intros ? Hc; vm_compute in Hc;
    first [discriminate Hc
          | injection Hc as <-; vm_compute; rewrite !elem_of_cons; auto 10] ].

Ltac sample_at_most_one :=
  let H1 := fresh in let H2 := fresh in
  let Hs1 := fresh in let Hs2 := fresh in
  intros ? ? ? ? H1 H2 Hs1 Hs2;
  store_cases H1; store_cases H2;
  try discriminate Hs1; try discriminate Hs2; reflexivity.

Ltac sample_no_running :=
  let H := fresh in
  intros ? ? H; store_cases H; discriminate.

(** A driver over the recorder and the sample table. *)
Definition sample_recording_cli : @Cli.t recording_memory :=
  Cli.mk (new_FCFSScheduler (MM := recording_memory) sample_table
            (new_SystemResources (MM := recording_memory) []))
         "fcfs" 2 [] [].

(** * Properties *)

(** Inversion of a bind that succeeded. *)
Lemma bind_Ok_inv {A B} (m : result A) (f : A → result B) (b : B) :
  m ≫= f = Ok b → ∃ a, m = Ok a ∧ f a = Ok b.
Proof. destruct m as [a|e]; simpl; [eauto | done]. Qed.

(** ** The producer-consumer buffer *)

Lemma new_buffer_inv N : buffer_inv N (new_ProducerConsumer N).
Proof. unfold buffer_inv, len; simpl. lia. Qed.

Lemma produce_buffer_inv N pc item :
  buffer_inv N pc → buffer_inv N (fst (produce pc item)).
Proof.
  intros (Hsize & Hsum & Hfull). unfold produce.
  repeat case_bool_decide; simpl; [done | done |].
  unfold buffer_inv, len in *; simpl.
  rewrite length_app; simpl. lia.
Qed.

Lemma consume_buffer_inv N pc :
  buffer_inv N pc → buffer_inv N (fst (consume pc)).
Proof.
  intros (Hsize & Hsum & Hfull). unfold consume.
  repeat case_bool_decide; simpl; [done | done |].
  destruct (buffer pc) as [|item rest] eqn:Hbuf; simpl; [by rewrite <- Hbuf in * |].
  unfold buffer_inv, len in *; simpl in *. lia.
Qed.

Lemma do_calls_buffer_inv N cs pc :
  buffer_inv N pc → buffer_inv N (do_calls pc cs).
Proof.
  revert pc. induction cs as [|c cs IH]; intros pc Hinv; [done |].
  apply IH. destruct c; [by apply produce_buffer_inv | by apply consume_buffer_inv].
Qed.

(** [produce] never lets the buffer grow past its capacity. *)
Lemma do_calls_buffer_bound N cs :
  0 ≤ N → len (buffer (do_calls (new_ProducerConsumer N) cs)) ≤ N.
Proof.
  intros HN.
  assert (∀ pc, buffer_size pc = N → len (buffer pc) ≤ N →
                len (buffer (do_calls pc cs)) ≤ N) as Hgen.
  { induction cs as [|c cs IH]; intros pc Hsize Hle; [done |].
    destruct c as [item|]; simpl; apply IH.
    - unfold produce. by repeat case_bool_decide.
    - unfold produce. repeat case_bool_decide; simpl; try done.
      unfold len in *. rewrite length_app; simpl. lia.
    - unfold consume. repeat case_bool_decide; try done.
      by destruct (buffer pc).
    - unfold consume. repeat case_bool_decide; simpl; try done.
      destruct (buffer pc); simpl; [done |].
      unfold len in *; simpl in *. lia. }
  apply Hgen; [done | unfold len; simpl; lia].
Qed.

(** C3: for a bounded buffer of capacity [N], after any sequence of completed
    [produce] and [consume] calls the status reports
    [empty_slots + full_slots = N], at most [N] items in the buffer, and
    [full_slots] equal to the number of items in the buffer. *)
Theorem bounded_buffer_slots_invariant (N : Z) (cs : list call) :
  0 ≤ N →
  empty_slots (get_buffer_status (do_calls (new_ProducerConsumer N) cs))
    + full_slots (get_buffer_status (do_calls (new_ProducerConsumer N) cs)) = N
  ∧ items_in_buffer (get_buffer_status (do_calls (new_ProducerConsumer N) cs)) ≤ N
  ∧ full_slots (get_buffer_status (do_calls (new_ProducerConsumer N) cs))
    = items_in_buffer (get_buffer_status (do_calls (new_ProducerConsumer N) cs)).
Proof.
  intros HN.
  destruct (do_calls_buffer_inv N cs _ (new_buffer_inv N)) as (_ & Hsum & Hfull).
  pose proof (do_calls_buffer_bound N cs HN) as Hle.
  simpl. auto.
Qed.

(** The invariant on a buffer of capacity 2 after three produces (the third
    one blocked) and a consume. *)
Lemma bounded_buffer_slots_invariant_witness :
  empty_slots (get_buffer_status (do_calls (new_ProducerConsumer 2)
                 [Produce "a"; Produce "b"; Produce "c"; Consume]))
    + full_slots (get_buffer_status (do_calls (new_ProducerConsumer 2)
                 [Produce "a"; Produce "b"; Produce "c"; Consume])) = 2
  ∧ items_in_buffer (get_buffer_status (do_calls (new_ProducerConsumer 2)
                 [Produce "a"; Produce "b"; Produce "c"; Consume])) ≤ 2
  ∧ full_slots (get_buffer_status (do_calls (new_ProducerConsumer 2)
                 [Produce "a"; Produce "b"; Produce "c"; Consume]))
    = items_in_buffer (get_buffer_status (do_calls (new_ProducerConsumer 2)
                 [Produce "a"; Produce "b"; Produce "c"; Consume])).
Proof.
  apply (bounded_buffer_slots_invariant 2
           [Produce "a"; Produce "b"; Produce "c"; Consume]).
  lia.
Defined.

(** Between calls the branch that logs a blocked attempt is never taken: a
    call that fails leaves the whole object, log included, as it was. *)
Lemma failed_call_leaves_log N cs c :
  call_failed (do_calls (new_ProducerConsumer N) cs) c = true →
  do_call (do_calls (new_ProducerConsumer N) cs) c
  = do_calls (new_ProducerConsumer N) cs.
Proof.
  pose proof (do_calls_buffer_inv N cs _ (new_buffer_inv N)) as (Hsize & Hsum & Hfull).
  revert Hsize Hsum Hfull.
  generalize (do_calls (new_ProducerConsumer N) cs) as pc.
  intros pc Hsize Hsum Hfull.
  destruct c as [item|]; unfold call_failed, do_call, produce, consume.
  - repeat case_bool_decide; simpl; try done. lia.
  - repeat case_bool_decide; simpl; try done; [lia |].
    destruct (buffer pc); simpl in *; [done | discriminate].
Qed.

(** C5: on a full buffer of capacity 2 a [produce] fails and the log
    returned by [get_logs] is the one from before the call: the failed
    attempt is not recorded.  The same holds for [consume] on a new, empty
    buffer. *)
Theorem failed_attempts_are_not_logged :
  snd (produce (do_calls (new_ProducerConsumer 2) [Produce "a"; Produce "b"]) "c")
  = false
  ∧ get_logs (fst (produce (do_calls (new_ProducerConsumer 2)
                              [Produce "a"; Produce "b"]) "c"))
    = get_logs (do_calls (new_ProducerConsumer 2) [Produce "a"; Produce "b"])
  ∧ length (get_logs (fst (produce (do_calls (new_ProducerConsumer 2)
                                      [Produce "a"; Produce "b"]) "c"))) = 2%nat
  ∧ snd (consume (new_ProducerConsumer 2)) = None
  ∧ get_logs (fst (consume (new_ProducerConsumer 2))) = [].
Proof. repeat split; vm_compute; reflexivity. Qed.

(** C7: capacity 2, empty at the start: [produce "a"] and [produce "b"]
    succeed, a third [produce "c"] returns [False] and adds nothing,
    [consume] returns "a", and [produce "c"] then succeeds. *)
Theorem bounded_buffer_capacity_two_scenario :
  ∃ pc1 pc2 pc3 pc4,
    produce (new_ProducerConsumer 2) "a" = (pc1, true)
    ∧ produce pc1 "b" = (pc2, true)
    ∧ produce pc2 "c" = (pc2, false)
    ∧ buffer pc2 = ["a"; "b"]
    ∧ consume pc2 = (pc3, Some "a")
    ∧ buffer pc3 = ["b"]
    ∧ produce pc3 "c" = (pc4, true)
    ∧ buffer pc4 = ["b"; "c"].
Proof.
  do 4 eexists.
  split; [vm_compute; reflexivity |].
  split; [vm_compute; reflexivity |].
  split; [vm_compute; reflexivity |].
  split; [reflexivity |].
  split; [vm_compute; reflexivity |].
  split; [reflexivity |].
  split; [vm_compute; reflexivity | reflexivity].
Qed.

(** ** The message queues *)

Section MailboxProperties.
Context {Timestamp : Type}.
Implicit Types (mq : MessageQueue Timestamp) (q : list (Message Timestamp)).

Lemma send_enqueues mq q from pid msg now :
  process_queues mq !! pid = Some q →
  send_message mq from pid msg now
  = (mkMessageQueue (<[pid := q ++ [mkMessage from msg now]]> (process_queues mq)),
     true).
Proof. intros Hq. unfold send_message. by rewrite Hq. Qed.

Lemma receive_head mq m q pid :
  process_queues mq !! pid = Some (m :: q) →
  receive_message mq pid
  = (mkMessageQueue (<[pid := q]> (process_queues mq)), Some m).
Proof. intros Hq. unfold receive_message. by rewrite Hq. Qed.

Lemma receive_nothing mq pid :
  get_queue_size mq pid = 0 → receive_message mq pid = (mq, None).
Proof.
  unfold get_queue_size, receive_message.
  destruct (process_queues mq !! pid) as [[|m q]|]; simpl; [done | lia | done].
Qed.

Lemma receive_size mq mq' m pid :
  receive_message mq pid = (mq', Some m) →
  get_queue_size mq' pid = get_queue_size mq pid - 1.
Proof.
  unfold receive_message, get_queue_size.
  destruct (process_queues mq !! pid) as [[|m' q]|] eqn:Hq; try congruence.
  intros [= <- <-]; simpl. rewrite lookup_insert_eq; simpl. lia.
Qed.

(** Draining a mailbox returns its messages from the head on. *)
Lemma receive_many_queue q : ∀ mq pid,
  process_queues mq !! pid = Some q →
  receive_many (length q) mq pid
  = (mkMessageQueue (<[pid := []]> (process_queues mq)), Some <$> q).
Proof.
  induction q as [|m q IH]; intros mq pid Hq; simpl.
  - destruct mq as [pq]; simpl in *. by rewrite insert_id.
  - erewrite receive_head by exact Hq.
    rewrite IH by (simpl; apply lookup_insert_eq).
    simpl. by rewrite insert_insert_eq.
Qed.

(** C8: messages leave a mailbox in the order they were sent.  When [pid]
    has a mailbox holding [q], the sends of "x" and then "y" succeed and the
    next receives return the messages of [q], then "x", then "y"; a receive
    that returns a message shortens the mailbox by one; a receive on a
    mailbox without messages returns [None] at once and changes nothing. *)
Theorem mailbox_is_fifo mq q (pid s1 s2 : Z) (x y : string) (t1 t2 : Timestamp) :
  process_queues mq !! pid = Some q →
  snd (send_message mq s1 pid x t1) = true
  ∧ snd (send_message (fst (send_message mq s1 pid x t1)) s2 pid y t2) = true
  ∧ snd (receive_many (length q + 2)
           (fst (send_message (fst (send_message mq s1 pid x t1)) s2 pid y t2)) pid)
    = (Some <$> q) ++ [Some (mkMessage s1 x t1); Some (mkMessage s2 y t2)]
  ∧ (∀ mq1 mq2 m, receive_message mq1 pid = (mq2, Some m) →
       get_queue_size mq2 pid = get_queue_size mq1 pid - 1)
  ∧ (∀ mq1, get_queue_size mq1 pid = 0 → receive_message mq1 pid = (mq1, None)).
Proof.
  intros Hq.
  erewrite send_enqueues by exact Hq; simpl.
  erewrite send_enqueues by (simpl; apply lookup_insert_eq); simpl.
  split; [done |]. split; [done |]. split; [| split].
  - replace (length q + 2)%nat
      with (length ((q ++ [mkMessage s1 x t1]) ++ [mkMessage s2 y t2]))
      by (rewrite !length_app; simpl; lia).
    rewrite receive_many_queue by (simpl; apply lookup_insert_eq).
    simpl. rewrite !fmap_app, <- app_assoc. done.
  - intros mq1 mq2 m. apply receive_size.
  - intros mq1. apply receive_nothing.
Qed.

(** C9: a send to a pid without a mailbox returns [False] and leaves the
    message system as it was; the receiver still has no mailbox. *)
Theorem send_without_mailbox mq (sender_pid receiver_pid : Z) (message : string)
    (now : Timestamp) :
  process_queues mq !! receiver_pid = None →
  send_message mq sender_pid receiver_pid message now = (mq, false)
  ∧ process_queues (fst (send_message mq sender_pid receiver_pid message now))
      !! receiver_pid = None.
Proof. intros Hnone. unfold send_message. by rewrite Hnone. Qed.

End MailboxProperties.

(** The scenario of the claim: a new mailbox for pid 2, "x" then "y" sent by
    pid 1. *)
Lemma mailbox_is_fifo_witness :
  snd (send_message (create_queue new_MessageQueue 2) 1 2 "x" 10) = true
  ∧ snd (send_message (fst (send_message (create_queue new_MessageQueue 2) 1 2 "x" 10))
           1 2 "y" 11) = true
  ∧ snd (receive_many (length (@nil (Message Z)) + 2)
           (fst (send_message
              (fst (send_message (create_queue new_MessageQueue 2) 1 2 "x" 10))
              1 2 "y" 11)) 2)
    = (Some <$> []) ++ [Some (mkMessage 1 "x" 10); Some (mkMessage 1 "y" 11)]
  ∧ (∀ (mq1 mq2 : MessageQueue Z) m, receive_message mq1 2 = (mq2, Some m) →
       get_queue_size mq2 2 = get_queue_size mq1 2 - 1)
  ∧ (∀ mq1 : MessageQueue Z,
       get_queue_size mq1 2 = 0 → receive_message mq1 2 = (mq1, None)).
Proof.
  apply (mailbox_is_fifo (create_queue new_MessageQueue 2) [] 2 1 1 "x" "y" 10 11).
  reflexivity.
Defined.

(** Only pid 1 has a mailbox; pid 1 sends to pid 2. *)
Lemma send_without_mailbox_witness :
  send_message (create_queue (@new_MessageQueue Z) 1) 1 2 "x" 10
  = (create_queue new_MessageQueue 1, false)
  ∧ process_queues (fst (send_message (create_queue (@new_MessageQueue Z) 1) 1 2 "x" 10))
      !! 2 = None.
Proof.
  apply (send_without_mailbox (create_queue new_MessageQueue 1) 1 2 "x" 10).
  reflexivity.
Defined.

(** ** The scheduler factory *)

Section FactoryProperties.
Context `{MM : MemoryModel}.

Lemma lower_algorithm_name a : lower (algorithm_name a) = algorithm_name a.
Proof. by destruct a. Qed.

Lemma elem_of_algorithm_names n :
  n ∈ algorithm_names ↔ ∃ a, n = algorithm_name a.
Proof.
  unfold algorithm_names. rewrite !elem_of_cons, elem_of_nil. split.
  - intros [->|[->|[->|[->|[]]]]];
      [by exists FCFS | by exists SJF | by exists Priority | by exists RoundRobin].
  - intros [[] ->]; simpl; auto.
Qed.

Lemma create_scheduler_known a algorithm pm r q :
  lower algorithm = algorithm_name a →
  create_scheduler algorithm pm r q = Ok (scheduler_of_class a pm r q).
Proof.
  intros Hlow. unfold create_scheduler. rewrite Hlow. by destruct a.
Qed.

(** C4, as the code has it: the name is lowered first.  A name whose lowered
    form is none of fcfs, sjf, priority, round_robin raises [ValueError] and
    no scheduler is made; a name whose lowered form is one of the four gives
    the scheduler of that class, over the given process manager and
    resources, with no current process, at time 0, and with the given
    quantum for Round Robin; the four names themselves are their own lowered
    form. *)
Theorem create_scheduler_by_lowered_name (algorithm : string)
    (pm : ProcessManager) (r : SystemResources) (q : Z) :
  (lower algorithm ∉ algorithm_names →
     create_scheduler algorithm pm r q
     = Raise (ValueError ("Algoritmo desconocido: " +:+ lower algorithm)))
  ∧ (lower algorithm ∈ algorithm_names →
     ∃ s, create_scheduler algorithm pm r q = Ok s
          ∧ algorithm_name (kind s) = lower algorithm
          ∧ s = scheduler_of_class (kind s) pm r q
          ∧ process_manager s = pm ∧ resources s = r
          ∧ current_process s = None ∧ time s = 0
          ∧ (kind s = RoundRobin → quantum s = q ∧ current_quantum s = 0))
  ∧ (algorithm ∈ algorithm_names → lower algorithm = algorithm).
Proof.
  split; [| split].
  - intros Hnot. unfold create_scheduler.
    repeat case_bool_decide; try done;
      exfalso; apply Hnot; apply elem_of_algorithm_names;
      [by exists FCFS | by exists SJF | by exists Priority | by exists RoundRobin].
  - intros [a Ha]%elem_of_algorithm_names.
    rewrite (create_scheduler_known a) by done.
    eexists; split; [done |]. by destruct a.
  - intros [a ->]%elem_of_algorithm_names. apply lower_algorithm_name.
Qed.

End FactoryProperties.

(** C4, as stated, fails: "FCFS" is not one of the four names, yet the
    factory returns a scheduler for it. *)
Lemma uppercase_name_makes_a_scheduler :
  ("FCFS" ∉ algorithm_names)
  ∧ create_scheduler "FCFS" new_ProcessManager
      (mkSystemResources true (mkMemoryPool 4096 4096 ∅)) 2
    = Ok (new_FCFSScheduler new_ProcessManager
            (mkSystemResources true (mkMemoryPool 4096 4096 ∅))).
Proof.
  split; [| reflexivity].
  unfold algorithm_names. rewrite !elem_of_cons, elem_of_nil.
  intros [H|[H|[H|[H|[]]]]]; discriminate H.
Qed.

(** ** The cycles of the schedulers *)
Section CycleProperties.
Context `{MM : MemoryModel}.
Implicit Types (s : Scheduler) (ps : list Process) (q : list nat) (r c n : nat).

(** *** Selection returns Ready processes of the queue *)

Lemma first_ready_some ps q r :
  first_ready ps q = Ok (Some r) →
  r ∈ q ∧ ∃ p, ps !! r = Some p ∧ state p = Ready.
Proof.
  induction q as [|r' q IH]; simpl; [done |].
  destruct (ps !! r') as [p|] eqn:Hp; [| done].
  case_bool_decide as Hst.
  - intros [= ->]. split; [left | eauto].
  - intros [Hin Hr]%IH. split; [by right | done].
Qed.

Lemma first_ready_total ps q :
  (∀ r, r ∈ q → (r < length ps)%nat) → ∃ o, first_ready ps q = Ok o.
Proof.
  induction q as [|r q IH]; intros Hq; simpl; [eauto |].
  destruct (lookup_lt_is_Some_2 ps r) as [p ->]; [apply Hq; left |].
  case_bool_decide; [eauto |]. apply IH. intros r' Hr'. apply Hq. by right.
Qed.

Lemma ready_processes_elem ps q : ∀ rp,
  ready_processes ps q = Ok rp →
  ∀ r p, (r, p) ∈ rp → r ∈ q ∧ ps !! r = Some p ∧ state p = Ready.
Proof.
  induction q as [|r' q IH]; simpl; intros rp.
  - intros [= <-] r p Hin. by apply elem_of_nil in Hin.
  - destruct (ps !! r') as [p'|] eqn:Hp'; [| done].
    intros (rest & Hrest & Hrp)%bind_Ok_inv r p Hin.
    injection Hrp as <-.
    case_bool_decide as Hst.
    + apply elem_of_cons in Hin as [[= -> ->]|Hin].
      * split; [left | done].
      * destruct (IH _ Hrest _ _ Hin) as (? & ? & ?). split; [by right | done].
    + destruct (IH _ Hrest _ _ Hin) as (? & ? & ?). split; [by right | done].
Qed.

Lemma ready_processes_total ps q :
  (∀ r, r ∈ q → (r < length ps)%nat) → ∃ rp, ready_processes ps q = Ok rp.
Proof.
  induction q as [|r q IH]; intros Hq; simpl; [eauto |].
  destruct (lookup_lt_is_Some_2 ps r) as [p ->]; [apply Hq; left |].
  destruct IH as [rest ->]; [intros r' Hr'; apply Hq; by right |].
  simpl. eauto.
Qed.

Lemma py_min_elem {A} (key : A → Z) (x : A) (rest : list A) :
  py_min key x rest ∈ x :: rest.
Proof.
  unfold py_min. revert x. induction rest as [|y rest IH]; intros x; simpl.
  - left.
  - destruct (key y <? key x).
    + right. apply IH.
    + specialize (IH x). apply elem_of_cons in IH as [->|Hin].
      * left.
      * right. by right.
Qed.

Lemma select_min_some key s r :
  select_min key s = Ok (Some r) →
  r ∈ ready_queue (process_manager s)
  ∧ ∃ p, processes (process_manager s) !! r = Some p ∧ state p = Ready.
Proof.
  unfold select_min.
  destruct (ready_queue (process_manager s)) as [|r0 q0] eqn:Hq; [done |].
  rewrite <- Hq.
  intros (rp & Hrp & Hmin)%bind_Ok_inv.
  destruct rp as [|x rest]; [done |]. injection Hmin as <-.
  pose proof (py_min_elem (λ e, key e.2) x rest) as Hin.
  destruct (py_min (λ e, key e.2) x rest) as [r p]; simpl.
  destruct (ready_processes_elem _ _ _ Hrp _ _ Hin) as (? & ? & ?). eauto.
Qed.

Lemma select_min_total key s :
  (∀ r, r ∈ ready_queue (process_manager s) →
        (r < length (processes (process_manager s)))%nat) →
  ∃ o, select_min key s = Ok o.
Proof.
  intros Hq. unfold select_min.
  destruct (ready_processes_total _ _ Hq) as [rp ->]; simpl.
  destruct (ready_queue (process_manager s)); [eauto |].
  destruct rp; eauto.
Qed.

(** *** [list.remove] moves nothing else *)

Lemma list_remove_perm c q : ∀ q',
  list_remove c q = Ok q' → q' ++ [c] ≡ₚ q.
Proof.
  induction q as [|r q IH]; simpl; intros q'; [done |].
  case_bool_decide as Heq.
  - intros [= <-]. subst r. by rewrite Permutation_app_comm.
  - intros (q'' & Hq'' & [= <-])%bind_Ok_inv. simpl. f_equiv. by apply IH.
Qed.

Lemma list_remove_total c q : c ∈ q → ∃ q', list_remove c q = Ok q'.
Proof.
  induction q as [|r q IH]; simpl; [by intros ?%elem_of_nil |].
  intros Hin. case_bool_decide as Heq; [eauto |].
  apply elem_of_cons in Hin as [->|Hin]; [done |].
  destruct (IH Hin) as [q' ->]. simpl. eauto.
Qed.


(** *** What [select_next_process] returns *)

Lemma rr_select_next_process_some s s' r :
  rr_select_next_process s = Ok (s', Some r) →
  r ∈ ready_queue (process_manager s')
  ∧ state_of s' r = Some Ready
  ∧ (state_of s r = Some Ready ∨ state_of s r = Some Running).
Proof.
  unfold rr_select_next_process.
  destruct (ready_queue (process_manager s)) as [|r0 q0]; [done |].
  intros (run & Hrun & Hrest)%bind_Ok_inv.
  apply bind_Ok_inv in Hrest as (s1 & Hs1 & Hrest).
  apply bind_Ok_inv in Hrest as (next & Hnext & Hret).
  destruct next as [r'|]; [| done]. injection Hret as <- ->.
  apply first_ready_some in Hnext as (Hin & p & Hp & Hst).
  split; [done |]. unfold state_of. split; [simpl; by rewrite Hp, <- Hst |].
  destruct (current_process s) as [c|] eqn:Hcur; [| injection Hs1 as <-; left; by rewrite Hp, <- Hst].
  destruct (run && bool_decide (quantum s ≤ current_quantum s)) eqn:Hpre;
    [| injection Hs1 as <-; left; by rewrite Hp, <- Hst].
  apply andb_prop in Hpre as [-> _].
  unfold current_running in Hrun. rewrite Hcur in Hrun.
  apply bind_Ok_inv in Hrun as (pc & Hpc & [= Hrunning%bool_decide_eq_true]).
  apply bind_Ok_inv in Hs1 as (pc' & Hpc' & Hs1).
  rewrite Hpc in Hpc'. injection Hpc' as <-.
  apply bind_Ok_inv in Hs1 as (q' & _ & [= <-]).
  simpl in Hp. unfold deref in Hpc.
  destruct (processes (process_manager s) !! c) as [pc0|] eqn:Hc; [| done].
  injection Hpc as ->.
  destruct (decide (r = c)) as [->|Hne].
  - right. rewrite Hc; simpl. by rewrite Hrunning.
  - left. rewrite list_lookup_insert_ne in Hp by done. by rewrite Hp, <- Hst.
Qed.

Lemma select_next_process_some s s' r :
  select_next_process s = Ok (s', Some r) →
  r ∈ ready_queue (process_manager s')
  ∧ state_of s' r = Some Ready
  ∧ (state_of s r = Some Ready ∨ state_of s r = Some Running).
Proof.
  unfold select_next_process, fcfs_select_next_process,
    sjf_select_next_process, priority_select_next_process.
  destruct (kind s).
  - intros (o & Ho & [= <- ->])%bind_Ok_inv.
    apply first_ready_some in Ho as (? & p & Hp & Hst).
    unfold state_of. rewrite Hp; simpl. rewrite Hst. auto.
  - intros (o & Ho & [= <- ->])%bind_Ok_inv.
    apply select_min_some in Ho as (? & p & Hp & Hst).
    unfold state_of. rewrite Hp; simpl. rewrite Hst. auto.
  - intros (o & Ho & [= <- ->])%bind_Ok_inv.
    apply select_min_some in Ho as (? & p & Hp & Hst).
    unfold state_of. rewrite Hp; simpl. rewrite Hst. auto.
  - apply rr_select_next_process_some.
Qed.

Lemma rr_select_next_process_queue s s' o :
  rr_select_next_process s = Ok (s', o) →
  ready_queue (process_manager s') ≡ₚ ready_queue (process_manager s).
Proof.
  unfold rr_select_next_process.
  destruct (ready_queue (process_manager s)) as [|r0 q0] eqn:Hq;
    [intros [= <- <-]; by rewrite Hq |].
  rewrite <- Hq. clear Hq r0 q0.
  intros (run & Hrun & Hrest)%bind_Ok_inv.
  apply bind_Ok_inv in Hrest as (s1 & Hs1 & Hrest).
  apply bind_Ok_inv in Hrest as (next & Hnext & Hret).
  assert (ready_queue (process_manager s1) ≡ₚ ready_queue (process_manager s)) as Hperm.
  { destruct (current_process s) as [c|]; [| by injection Hs1 as <-].
    destruct (run && bool_decide (quantum s ≤ current_quantum s));
      [| by injection Hs1 as <-].
    apply bind_Ok_inv in Hs1 as (pc & _ & Hs1).
    apply bind_Ok_inv in Hs1 as (q' & Hq' & [= <-]).
    simpl in *. by apply list_remove_perm. }
  destruct next; injection Hret as <- <-; done.
Qed.

Lemma select_next_process_queue s s' o :
  select_next_process s = Ok (s', o) →
  ready_queue (process_manager s') ≡ₚ ready_queue (process_manager s).
Proof.
  unfold select_next_process.
  destruct (kind s); try (by intros (? & _ & [= <- _])%bind_Ok_inv).
  apply rr_select_next_process_queue.
Qed.


(** *** What a cycle leaves in place *)

Lemma base_execute_cycle_keeps s s' ev :
  base_execute_cycle s = Ok (s', ev) →
  ready_queue (process_manager s') ≡ₚ ready_queue (process_manager s)
  ∧ (∀ r, ev = process_completed r → state_of s' r = Some Terminated).
Proof.
  unfold base_execute_cycle.
  intros (run & Hrun & Hrest)%bind_Ok_inv.
  destruct run; simpl in Hrest.
  - destruct (current_process s) as [c|]; [| by injection Hrest as <- <-].
    apply bind_Ok_inv in Hrest as (p & Hp & Hrest).
    unfold deref in Hp; simpl in Hp.
    destruct (processes (process_manager s) !! c) as [p0|] eqn:Hc; [| done].
    injection Hp as ->. apply lookup_lt_Some in Hc.
    case_bool_decide;
      [apply bind_Ok_inv in Hrest as (m' & _ & Hrest) |];
      injection Hrest as <- <-; (split; [done |]).
    + intros r [= <-]. unfold state_of; simpl.
      by rewrite list_lookup_insert_eq by (by rewrite length_insert).
    + by intros r.
  - apply bind_Ok_inv in Hrest as ([s1 next] & Hsel & Hrest).
    apply select_next_process_queue in Hsel. simpl in Hsel.
    destruct next as [n|]; [| by injection Hrest as <- <-].
    destruct (cpu_available (resources s1)); [| by injection Hrest as <- <-].
    apply bind_Ok_inv in Hrest as (p & _ & [= <- <-]). by split.
Qed.

Lemma rr_execute_cycle_keeps s s' ev :
  rr_execute_cycle s = Ok (s', ev) →
  ready_queue (process_manager s') ≡ₚ ready_queue (process_manager s)
  ∧ (∀ r, ev = process_completed r → state_of s' r = Some Terminated).
Proof.
  unfold rr_execute_cycle.
  intros ([s1 res] & Hbase & Hrest)%bind_Ok_inv.
  apply base_execute_cycle_keeps in Hbase as [Hperm Hdone].
  apply bind_Ok_inv in Hrest as (run & _ & Hrest).
  destruct (current_process s1) as [c|]; [| by injection Hrest as <- <-].
  destruct run; [| by injection Hrest as <- <-].
  apply bind_Ok_inv in Hrest as (p & _ & Hrest).
  destruct (_ && _); [| by injection Hrest as <- <-].
  apply bind_Ok_inv in Hrest as (q' & Hq' & [= <- <-]).
  apply list_remove_perm in Hq'. simpl in *. split; [| done].
  by rewrite Hq'.
Qed.

Lemma execute_cycle_keeps s s' ev :
  execute_cycle s = Ok (s', ev) →
  ready_queue (process_manager s') ≡ₚ ready_queue (process_manager s)
  ∧ (∀ r, ev = process_completed r → state_of s' r = Some Terminated).
Proof.
  unfold execute_cycle.
  destruct (kind s);
    [apply base_execute_cycle_keeps .. | apply rr_execute_cycle_keeps].
Qed.

(** C10: a cycle removes nothing from the ready queue, and the process it
    reports as completed is Terminated; whatever the algorithm,
    [select_next_process] returns only a process of the queue that is Ready
    when it is returned, and never one that was Terminated or Waiting when
    the selection was made. *)
Theorem terminated_stays_queued_and_unselected s s' ev :
  execute_cycle s = Ok (s', ev) →
  (∀ r, r ∈ ready_queue (process_manager s) →
        r ∈ ready_queue (process_manager s'))
  ∧ (∀ r, ev = process_completed r → state_of s' r = Some Terminated)
  ∧ (∀ t t' r,
       select_next_process t = Ok (t', Some r) →
       r ∈ ready_queue (process_manager t')
       ∧ state_of t' r = Some Ready
       ∧ state_of t r ≠ Some Terminated
       ∧ state_of t r ≠ Some Waiting).
Proof.
  intros [Hperm Hdone]%execute_cycle_keeps.
  split; [| split; [done |]].
  - intros r Hr. by rewrite Hperm.
  - intros t t' r (Hin & Hready & Hbefore)%select_next_process_some.
    repeat split; [done | done | ..]; intros Heq; rewrite Heq in Hbefore;
      by destruct Hbefore.
Qed.


(** *** The invariant of the cycles *)

Lemma cycle_inv_none_running ps q cur :
  cycle_inv ps q cur →
  (∀ c p, cur = Some c → ps !! c = Some p → state p ≠ Running) →
  ∀ r p, ps !! r = Some p → state p ≠ Running.
Proof.
  intros (_ & _ & Hrun) Hcur r p Hp Hst.
  destruct (Hrun r p Hp Hst) as [-> _]. by eapply Hcur.
Qed.

Lemma cycle_inv_start ps q cur n p :
  cycle_inv ps q cur →
  (∀ r p', ps !! r = Some p' → state p' ≠ Running) →
  n ∈ q →
  cycle_inv (<[n := p]> ps) q (Some n).
Proof.
  intros (Hq & _ & _) Hnone Hn. unfold cycle_inv. rewrite length_insert.
  split; [done |]. split; [by intros c [= <-]; apply Hq |].
  intros r p' Hp' Hst. destruct (decide (r = n)) as [->|Hne]; [done |].
  rewrite list_lookup_insert_ne in Hp' by done. by destruct (Hnone r p').
Qed.

Lemma cycle_inv_update ps q c p p' :
  cycle_inv ps q (Some c) → ps !! c = Some p → state p = Running →
  cycle_inv (<[c := p']> ps) q (Some c).
Proof.
  intros (Hq & Hc & Hrun) Hp Hst. unfold cycle_inv. rewrite length_insert.
  split; [done |]. split; [done |].
  intros r p'' Hp'' Hst''. destruct (decide (r = c)) as [->|Hne].
  - by apply (Hrun c p).
  - rewrite list_lookup_insert_ne in Hp'' by done. by apply (Hrun r p'').
Qed.

Lemma cycle_inv_release ps q q' c p' :
  cycle_inv ps q (Some c) → state p' ≠ Running → q' ≡ₚ q →
  cycle_inv (<[c := p']> ps) q' None.
Proof.
  intros (Hq & Hc & Hrun) Hst Hperm. unfold cycle_inv. rewrite length_insert.
  split; [intros r Hr; apply Hq; by rewrite <- Hperm |]. split; [done |].
  intros r p'' Hp'' Hst''. destruct (decide (r = c)) as [->|Hne].
  - rewrite list_lookup_insert_eq in Hp'' by (by apply Hc).
    by injection Hp'' as <-.
  - rewrite list_lookup_insert_ne in Hp'' by done.
    destruct (Hrun r p'' Hp'' Hst'') as [[= ->] _]. done.
Qed.

(** Either the current process is Running, or nothing is. *)
Lemma current_running_cases s :
  sched_inv s →
  (current_running s = Ok true
   ∧ ∃ c p, current_process s = Some c
            ∧ processes (process_manager s) !! c = Some p
            ∧ state p = Running)
  ∨ (current_running s = Ok false ∧ no_running s).
Proof.
  intros Hinv. pose proof Hinv as (Hq & Hc & Hrun).
  unfold current_running, deref.
  destruct (current_process s) as [c|] eqn:Hcur.
  - destruct (lookup_lt_is_Some_2 (processes (process_manager s)) c) as [p Hp];
      [by apply Hc |].
    rewrite Hp; simpl. case_bool_decide as Hst.
    + left. split; [done |]. eauto.
    + right. split; [done |]. intros r p' Hp'.
      eapply cycle_inv_none_running; [exact Hinv | | exact Hp'].
      rewrite Hcur. intros c' p'' [= <-]. congruence.
  - right. split; [done |]. intros r p' Hp'.
    eapply cycle_inv_none_running; [exact Hinv | | exact Hp'].
    by rewrite Hcur.
Qed.

(** With no process Running, selection succeeds, touches at most the
    quantum counter, and returns a Ready process of the queue. *)
Lemma select_next_process_free s :
  sched_inv s → current_running s = Ok false →
  ∃ cq o,
    select_next_process s = Ok (set_current_quantum s cq, o)
    ∧ ∀ n, o = Some n → n ∈ ready_queue (process_manager s).
Proof.
  intros (Hq & _ & _) Hfree.
  assert (∀ m : result (option nat),
            (∃ o, m = Ok o) →
            (∀ n, m = Ok (Some n) → n ∈ ready_queue (process_manager s)) →
            ∃ cq o, (r ← m; Ok (s, r)) = Ok (set_current_quantum s cq, o)
                    ∧ ∀ n, o = Some n → n ∈ ready_queue (process_manager s))
    as Hplain.
  { intros m [o ->] Hin. exists (current_quantum s), o. split.
    - by destruct s.
    - intros n ->. by apply Hin. }
  unfold select_next_process.
  destruct (kind s).
  - apply Hplain; [by apply first_ready_total |].
    by intros n [? _]%first_ready_some.
  - apply Hplain; [by apply select_min_total |].
    by intros n [? _]%select_min_some.
  - apply Hplain; [by apply select_min_total |].
    by intros n [? _]%select_min_some.
  - unfold rr_select_next_process. rewrite Hfree; simpl.
    destruct (first_ready_total _ _ Hq) as [o Ho].
    assert ((match current_process s with
             | Some c => Ok s
             | None => Ok s
             end : result Scheduler) = Ok s) as -> by (by destruct (current_process s)).
    simpl. rewrite Ho.
    destruct (ready_queue (process_manager s)) as [|r0 q0] eqn:Hqueue.
    { exists (current_quantum s), None. split; [by destruct s | done]. }
    rewrite <- Hqueue in *.
    destruct o as [n|].
    + exists 0, (Some n). split; [done |].
      intros ? [= <-]. by apply first_ready_some in Ho as [? _].
    + exists (current_quantum s), None. split; [by destruct s | done].
Qed.

(** A cycle keeps the invariant; it returns unless the release of the
    memory of the process that completes raises. *)
Lemma base_execute_cycle_inv s :
  sched_inv s →
  (∃ s' ev, base_execute_cycle s = Ok (s', ev) ∧ sched_inv s')
  ∨ (∃ e, base_execute_cycle s = Raise e ∧ release_raises e).
Proof.
  intros Hinv. unfold base_execute_cycle.
  assert (sched_inv (set_time s (time s + 1))) as Hinv0 by exact Hinv.
  destruct (current_running_cases _ Hinv0)
    as [(Hrun & c & p & Hcur & Hp & Hst) | (Hfree & Hnone)].
  - rewrite Hrun. simpl in *. rewrite Hcur. unfold deref; simpl. rewrite Hp; simpl.
    unfold sched_inv in Hinv. rewrite Hcur in Hinv.
    case_bool_decide.
    + destruct (release_memory _ _ _) as [m'|e] eqn:Hrel; simpl.
      * left. do 2 eexists. split; [reflexivity |]. unfold sched_inv; simpl.
        eapply cycle_inv_release; [| done | done].
        by eapply cycle_inv_update.
      * right. exists e. split; [done |]. by eexists _, _, _.
    + left. do 2 eexists. split; [reflexivity |]. unfold sched_inv; simpl.
      rewrite Hcur. by eapply cycle_inv_update.
  - left. rewrite Hfree; simpl.
    destruct (select_next_process_free _ Hinv0 Hfree) as (cq & o & -> & Ho).
    simpl in *. destruct o as [n|]; [| eauto].
    destruct (cpu_available (resources s)); [| eauto].
    pose proof Hinv as (Hq & _ & _).
    destruct (lookup_lt_is_Some_2 (processes (process_manager s)) n) as [p Hp];
      [by apply Hq, Ho |].
    unfold deref; simpl. rewrite Hp; simpl.
    do 2 eexists. split; [reflexivity |]. unfold sched_inv; simpl.
    eapply cycle_inv_start; [exact Hinv | exact Hnone | by apply Ho].
Qed.

Lemma rr_execute_cycle_inv s :
  sched_inv s →
  (∃ s' ev, rr_execute_cycle s = Ok (s', ev) ∧ sched_inv s')
  ∨ (∃ e, rr_execute_cycle s = Raise e ∧ release_raises e).
Proof.
  intros Hinv. unfold rr_execute_cycle.
  destruct (base_execute_cycle_inv s Hinv)
    as [(s1 & res & -> & Hinv1) | (e & -> & He)]; simpl; [left | by right; eauto].
  destruct (current_running_cases s1 Hinv1)
    as [(-> & c & p & Hcur & Hp & Hst) | (-> & Hnone)]; simpl.
  - rewrite Hcur. unfold deref; simpl. rewrite Hp; simpl.
    destruct (_ && _); [| eauto].
    pose proof Hinv1 as (_ & _ & Hrun).
    destruct (Hrun c p Hp Hst) as [_ Hin].
    destruct (list_remove_total c _ Hin) as [q' Hq']. rewrite Hq'; simpl.
    do 2 eexists. split; [reflexivity |]. unfold sched_inv; simpl.
    unfold sched_inv in Hinv1. rewrite Hcur in Hinv1.
    eapply cycle_inv_release; [exact Hinv1 | done | by apply list_remove_perm].
  - destruct (current_process s1); eauto.
Qed.

Lemma execute_cycle_inv s :
  sched_inv s →
  (∃ s' ev, execute_cycle s = Ok (s', ev) ∧ sched_inv s')
  ∨ (∃ e, execute_cycle s = Raise e ∧ release_raises e).
Proof.
  unfold execute_cycle.
  destruct (kind s);
    [apply base_execute_cycle_inv .. | apply rr_execute_cycle_inv].
Qed.

Lemma run_cycles_inv n : ∀ s,
  sched_inv s →
  (∃ s' evs, run_cycles n s = Ok (s', evs) ∧ length evs = n ∧ sched_inv s')
  ∨ (∃ e, run_cycles n s = Raise e ∧ release_raises e).
Proof.
  induction n as [|n IH]; intros s Hinv; simpl; [by left; eauto |].
  destruct (execute_cycle_inv s Hinv)
    as [(s1 & ev & -> & Hinv1) | (e & -> & He)]; simpl; [| by right; eauto].
  destruct (IH s1 Hinv1)
    as [(s' & evs & -> & Hlen & Hinv') | (e & -> & He)]; simpl;
    [| by right; eauto].
  left. exists s', (ev :: evs). simpl. auto.
Qed.

Lemma sched_inv_at_most_one s : sched_inv s → at_most_one_running s.
Proof.
  intros (_ & _ & Hrun) r1 r2 p1 p2 Hp1 Hp2 Hst1 Hst2.
  destruct (Hrun r1 p1 Hp1 Hst1) as [Hcur1 _].
  destruct (Hrun r2 p2 Hp2 Hst2) as [Hcur2 _]. congruence.
Qed.

(** C2: whatever the algorithm, from a state in which no process is Running,
    any number [n] of successive [execute_cycle] calls either all return,
    each with one event ([n] events in all), and leave a state in which at
    most one process is Running, or one of them raises, and what it raises is
    an exception of [release_memory].  So every run that returns, of any
    length, has one event for each call and leaves at most one process
    Running, and a call fails to return only when the release of the memory
    of the process that completes fails. *)
Theorem at_most_one_running_one_event_per_cycle s (n : nat) :
  well_formed s → no_running s →
  (∃ s' evs,
     run_cycles n s = Ok (s', evs)
     ∧ length evs = n
     ∧ at_most_one_running s')
  ∨ (∃ e, run_cycles n s = Raise e ∧ release_raises e).
Proof.
  intros [Hq Hc] Hnone.
  assert (sched_inv s) as Hinv.
  { split; [done |]. split; [done |]. intros r p Hp Hst. by destruct (Hnone r p). }
  destruct (run_cycles_inv n s Hinv)
    as [(s' & evs & Hrun & Hlen & Hinv') | Hraise]; [left | by right].
  exists s', evs. split; [done |]. split; [done |].
  by apply sched_inv_at_most_one.
Qed.

End CycleProperties.

(** ** Scheduling scenarios *)

Section ScenarioProperties.
Context `{MM : MemoryModel}.

Lemma run_cycles_add (a b : nat) (s s1 s2 : Scheduler) (e1 e2 : list Event) :
  run_cycles a s = Ok (s1, e1) →
  run_cycles b s1 = Ok (s2, e2) →
  run_cycles (a + b) s = Ok (s2, e1 ++ e2).
Proof.
  revert s e1. induction a as [|a IH]; intros s e1; simpl.
  - by intros [= <- <-].
  - intros ([s' ev] & Hstep & Hrest)%bind_Ok_inv.
    apply bind_Ok_inv in Hrest as ([s'' evs] & Hrun & [= <- <-]).
    intros Hb. rewrite Hstep; simpl.
    by rewrite (IH _ _ Hrun Hb).
Qed.

Lemma first_ready_none ps q :
  Forall (λ r, ∃ p, ps !! r = Some p ∧ state p ≠ Ready) q →
  first_ready ps q = Ok None.
Proof.
  induction 1 as [|r q (p & Hp & Hst) _ IH]; simpl; [done |].
  rewrite Hp. by rewrite bool_decide_eq_false_2.
Qed.

Lemma ready_processes_none ps q :
  Forall (λ r, ∃ p, ps !! r = Some p ∧ state p ≠ Ready) q →
  ready_processes ps q = Ok [].
Proof.
  induction 1 as [|r q (p & Hp & Hst) _ IH]; simpl; [done |].
  rewrite Hp, IH; simpl. by rewrite bool_decide_eq_false_2.
Qed.

Lemma execute_cycle_at_rest s :
  at_rest s → execute_cycle s = Ok (set_time s (time s + 1), idle).
Proof.
  intros [Hcur Hq].
  assert (select_next_process (set_time s (time s + 1))
          = Ok (set_time s (time s + 1), None)) as Hsel.
  { pose proof (first_ready_none _ _ Hq) as Hfirst.
    pose proof (ready_processes_none _ _ Hq) as Hnone.
    unfold select_next_process, fcfs_select_next_process,
      sjf_select_next_process, priority_select_next_process, select_min,
      rr_select_next_process, current_running; simpl.
    destruct (kind s); simpl; rewrite ?Hcur; simpl;
      rewrite ?Hfirst, ?Hnone; simpl;
      by destruct (ready_queue (process_manager s)). }
  assert (base_execute_cycle s = Ok (set_time s (time s + 1), idle)) as Hbase.
  { unfold base_execute_cycle, current_running; simpl.
    rewrite Hcur; simpl. by rewrite Hsel. }
  unfold execute_cycle, rr_execute_cycle. rewrite Hbase; simpl.
  unfold current_running; simpl. rewrite Hcur. by destruct (kind s).
Qed.

Lemma run_cycles_at_rest n : ∀ s,
  at_rest s →
  run_cycles n s = Ok (set_time s (time s + Z.of_nat n), replicate n idle).
Proof.
  induction n as [|n IH]; intros s Hrest.
  - simpl. destruct s; unfold set_time; simpl. by rewrite Z.add_0_r.
  - cbn [run_cycles]. rewrite (execute_cycle_at_rest s Hrest); simpl.
    rewrite IH by (destruct Hrest; by split). simpl.
    unfold set_time; simpl. do 3 f_equal. lia.
Qed.

Lemma preemptions_app evs1 evs2 :
  preemptions (evs1 ++ evs2) = (preemptions evs1 + preemptions evs2)%nat.
Proof. unfold preemptions. by rewrite filter_app, length_app. Qed.

Lemma preemptions_idle n : preemptions (replicate n idle) = 0%nat.
Proof. induction n; [done |]. by simpl. Qed.


(** The six cycles of Round Robin (quantum 2) over one process of burst 3,
    after which the scheduler is at rest. *)
Lemma rr_single_six_cycles priority memory m m' :
  release_memory m 1 memory = Ok m' →
  ∃ s6,
    run_cycles 6 (rr_single priority memory m)
    = Ok (s6, [process_started 0%nat; process_preempted 0%nat;
               process_started 0%nat; process_preempted 0%nat;
               process_started 0%nat; process_completed 0%nat])
    ∧ at_rest s6
    ∧ state_of s6 0 = Some Terminated
    ∧ resources s6 = mkSystemResources true m'.
Proof.
  intros Hrel. eexists. split; [run_to_release Hrel; reflexivity |].
  split; [| split; reflexivity].
  split; [reflexivity |].
  repeat constructor. eexists. split; [reflexivity | discriminate].
Qed.

Lemma rr_single_run priority memory m m' n :
  release_memory m 1 memory = Ok m' →
  ∃ s evs,
    run_cycles (6 + n) (rr_single priority memory m) = Ok (s, evs)
    ∧ evs = [process_started 0%nat; process_preempted 0%nat;
             process_started 0%nat; process_preempted 0%nat;
             process_started 0%nat; process_completed 0%nat]
            ++ replicate n idle
    ∧ state_of s 0 = Some Terminated
    ∧ preemptions evs = 2%nat.
Proof.
  intros Hrel.
  destruct (rr_single_six_cycles priority memory m m' Hrel)
    as (s6 & Hrun & Hrest & Hterm & _).
  do 2 eexists. split; [| split; [reflexivity | split]].
  - eapply run_cycles_add; [exact Hrun |]. by apply run_cycles_at_rest.
  - exact Hterm.
  - by rewrite preemptions_app, preemptions_idle.
Qed.

(** C1, as the code has it.  Round Robin, quantum 2, one process P1 of
    burst 3, Ready at the start, whose memory the accounting releases
    ([release_memory] returns for pid 1 and the memory of P1).  The cycle
    that starts a process does not consume burst but counts in the quantum:
    cycle 1 returns process_started and the burst stays 3; cycle 2 returns
    process_preempted with burst 2 and P1 is back in the queue, Ready, the
    CPU free; cycle 3 process_started; cycle 4 process_preempted with
    burst 1; cycle 5 process_started; cycle 6 process_completed with
    burst 0.  Every later cycle is idle, and the run has exactly two
    process_preempted events. *)
Theorem rr_quantum_two_burst_three_trace (priority memory : Z) (m m' : Memory) :
  release_memory m 1 memory = Ok m' →
  run_trace 6 (rr_single priority memory m)
  = Ok [ (process_started 0%nat, [(Running, 3)]);
         (process_preempted 0%nat, [(Ready, 2)]);
         (process_started 0%nat, [(Running, 2)]);
         (process_preempted 0%nat, [(Ready, 1)]);
         (process_started 0%nat, [(Running, 1)]);
         (process_completed 0%nat, [(Terminated, 0)]) ]
  ∧ (∃ s2 evs,
       run_cycles 2 (rr_single priority memory m) = Ok (s2, evs)
       ∧ ready_queue (process_manager s2) = [0%nat]
       ∧ current_process s2 = None
       ∧ cpu_available (resources s2) = true)
  ∧ (∀ n, ∃ s evs,
       run_cycles (6 + n) (rr_single priority memory m) = Ok (s, evs)
       ∧ evs = [process_started 0%nat; process_preempted 0%nat;
                process_started 0%nat; process_preempted 0%nat;
                process_started 0%nat; process_completed 0%nat]
               ++ replicate n idle
       ∧ state_of s 0 = Some Terminated
       ∧ preemptions evs = 2%nat).
Proof.
  intros Hrel.
  split; [run_to_release Hrel; reflexivity |]. split.
  - do 2 eexists. split; [vm_compute; reflexivity |]. by repeat split.
  - intros n. by eapply rr_single_run.
Qed.

Lemma fcfs_pair_seven_cycles priority1 memory1 priority2 memory2 m m1 m2 :
  release_memory m 1 memory1 = Ok m1 →
  release_memory m1 2 memory2 = Ok m2 →
  ∃ s7 evs,
    run_cycles 7 (fcfs_pair priority1 memory1 priority2 memory2 m) = Ok (s7, evs)
    ∧ at_rest s7
    ∧ state_of s7 0 = Some Terminated.
Proof.
  intros Hrel1 Hrel2.
  do 2 eexists. split; [run_to_release Hrel1; run_to_release Hrel2; reflexivity |].
  split; [| reflexivity].
  split; [reflexivity |].
  repeat constructor; eexists; (split; [reflexivity | discriminate]).
Qed.

(** C6: FCFS over P1 (burst 3) then P2 (burst 2), both Ready at the start,
    whose memory the accounting releases ([release_memory] returns for P1,
    and then for P2).  P1 is started, runs and completes in cycles 1 to 4
    while P2 stays Ready with its burst untouched; P2 is started only in
    cycle 5.  After any number of cycles, if P2 is Running then P1 is
    Terminated, and as long as P1 is not Terminated P2 is still Ready with
    burst 2. *)
Theorem fcfs_first_process_completes_first
    (priority1 memory1 priority2 memory2 : Z) (m m1 m2 : Memory) :
  release_memory m 1 memory1 = Ok m1 →
  release_memory m1 2 memory2 = Ok m2 →
  run_trace 7 (fcfs_pair priority1 memory1 priority2 memory2 m)
  = Ok [ (process_started 0%nat, [(Running, 3); (Ready, 2)]);
         (process_running 0%nat, [(Running, 2); (Ready, 2)]);
         (process_running 0%nat, [(Running, 1); (Ready, 2)]);
         (process_completed 0%nat, [(Terminated, 0); (Ready, 2)]);
         (process_started 1%nat, [(Terminated, 0); (Running, 2)]);
         (process_running 1%nat, [(Terminated, 0); (Running, 1)]);
         (process_completed 1%nat, [(Terminated, 0); (Terminated, 0)]) ]
  ∧ (∀ n, ∃ s evs,
       run_cycles n (fcfs_pair priority1 memory1 priority2 memory2 m) = Ok (s, evs)
       ∧ (state_of s 1 = Some Running → state_of s 0 = Some Terminated)
       ∧ (state_of s 0 ≠ Some Terminated →
          state_of s 1 = Some Ready ∧ burst_of s 1 = Some 2)).
Proof.
  intros Hrel1 Hrel2.
  split; [run_to_release Hrel1; run_to_release Hrel2; reflexivity |].
  intros n. destruct (decide (n < 7)%nat) as [Hlt|Hge].
  - do 7 (destruct n as [|n];
          [do 2 eexists;
           split; [run_to_release Hrel1; run_to_release Hrel2; reflexivity |];
           split; vm_compute; intros Hs; try split;
           solve [congruence | exfalso; apply Hs; reflexivity] |]).
    lia.
  - destruct (fcfs_pair_seven_cycles priority1 memory1 priority2 memory2 m m1 m2
                Hrel1 Hrel2)
      as (s7 & evs & Hrun & Hrest & Hterm).
    replace n with (7 + (n - 7))%nat by lia.
    do 2 eexists. split.
    { eapply run_cycles_add; [exact Hrun |]. by apply run_cycles_at_rest. }
    split; [by intros _ |]. intros Hnot. by destruct Hnot.
Qed.

End ScenarioProperties.

(** C1, as stated, fails on the scenario it describes: the first cycle
    leaves the burst at 3, not 2, and no run that brings P1 to Terminated
    has exactly one process_preempted event.  (The pool holds the 256 MB
    assigned to P1.) *)
Lemma rr_claimed_trace_fails :
  (∀ s1 ev,
     execute_cycle (rr_single 3 256 (mkMemoryPool 4096 3840 {[1 := 256]}))
     = Ok (s1, ev) →
     burst_of s1 0 ≠ Some 2)
  ∧ (∀ n s evs,
       run_cycles n (rr_single 3 256 (mkMemoryPool 4096 3840 {[1 := 256]}))
       = Ok (s, evs) →
       state_of s 0 = Some Terminated → preemptions evs ≠ 1%nat).
Proof.
  split.
  - intros s1 ev Hstep. vm_compute in Hstep. injection Hstep as <- <-.
    vm_compute. discriminate.
  - intros n s evs Hrun Hterm. destruct (decide (n < 6)%nat) as [Hlt|Hge].
    + do 6 (destruct n as [|n];
            [vm_compute in Hrun; injection Hrun as <- <-;
             vm_compute in Hterm; discriminate |]).
      lia.
    + destruct (rr_single_run (MM:=pool_memory) 3 256
                  (mkMemoryPool 4096 3840 {[1 := 256]})
                  (mkMemoryPool 4096 4096 ∅) (n - 6))
        as (s' & evs' & Hrun' & _ & _ & Hcount); [vm_compute; reflexivity |].
      replace (6 + (n - 6))%nat with n in Hrun' by lia.
      rewrite Hrun in Hrun'. injection Hrun' as _ Hevs. rewrite Hevs, Hcount. lia.
Qed.

(** The trace over a pool that holds the 256 MB assigned to P1. *)
Lemma rr_quantum_two_burst_three_trace_witness :
  release_memory (mkMemoryPool 4096 3840 {[1 := 256]}) 1 256
  = Ok (mkMemoryPool 4096 4096 ∅)
  ∧ run_trace 6 (rr_single (MM := pool_memory) 3 256
                   (mkMemoryPool 4096 3840 {[1 := 256]}))
    = Ok [ (process_started 0%nat, [(Running, 3)]);
           (process_preempted 0%nat, [(Ready, 2)]);
           (process_started 0%nat, [(Running, 2)]);
           (process_preempted 0%nat, [(Ready, 1)]);
           (process_started 0%nat, [(Running, 1)]);
           (process_completed 0%nat, [(Terminated, 0)]) ].
Proof.
  split; [vm_compute; reflexivity |].
  apply (rr_quantum_two_burst_three_trace (MM := pool_memory) 3 256
           (mkMemoryPool 4096 3840 {[1 := 256]}) (mkMemoryPool 4096 4096 ∅)).
  vm_compute; reflexivity.
Defined.

(** Five FCFS cycles over two new processes whose memory is assigned: the
    first process completes in the fourth. *)
Lemma at_most_one_running_one_event_per_cycle_witness :
  ∃ s' evs,
    run_cycles 5 (fcfs_pair (MM := pool_memory) 3 256 3 256
                    (mkMemoryPool 4096 3584 {[1 := 256; 2 := 256]}))
    = Ok (s', evs)
    ∧ length evs = 5%nat
    ∧ at_most_one_running s'.
Proof.
  destruct (at_most_one_running_one_event_per_cycle (MM := pool_memory)
              (fcfs_pair (MM := pool_memory) 3 256 3 256
                 (mkMemoryPool 4096 3584 {[1 := 256; 2 := 256]})) 5)
    as [Hreturns | (e & Hraises & _)].
  - split.
    + intros r Hr. change (r ∈ [0; 1]%nat) in Hr.
      apply elem_of_cons in Hr as [->|Hr]; [simpl; lia |].
      apply list_elem_of_singleton in Hr as ->. simpl; lia.
    + intros c Hc. discriminate Hc.
  - intros r p Hp. change ([new_Process 1 3 256 3; new_Process 2 3 256 2] !! r = Some p) in Hp.
    destruct r as [|[|r]]; simpl in Hp; [| | discriminate Hp];
      injection Hp as <-; discriminate.
  - exact Hreturns.
  - vm_compute in Hraises. discriminate Hraises.
Defined.

(** The seven cycles over a pool that holds the memory assigned to P1 and
    to P2. *)
Lemma fcfs_first_process_completes_first_witness :
  release_memory (mkMemoryPool 4096 3584 {[1 := 256; 2 := 256]}) 1 256
  = Ok (mkMemoryPool 4096 3840 {[2 := 256]})
  ∧ release_memory (mkMemoryPool 4096 3840 {[2 := 256]}) 2 256
    = Ok (mkMemoryPool 4096 4096 ∅)
  ∧ run_trace 7 (fcfs_pair (MM := pool_memory) 3 256 3 256
                   (mkMemoryPool 4096 3584 {[1 := 256; 2 := 256]}))
    = Ok [ (process_started 0%nat, [(Running, 3); (Ready, 2)]);
           (process_running 0%nat, [(Running, 2); (Ready, 2)]);
           (process_running 0%nat, [(Running, 1); (Ready, 2)]);
           (process_completed 0%nat, [(Terminated, 0); (Ready, 2)]);
           (process_started 1%nat, [(Terminated, 0); (Running, 2)]);
           (process_running 1%nat, [(Terminated, 0); (Running, 1)]);
           (process_completed 1%nat, [(Terminated, 0); (Terminated, 0)]) ].
Proof.
  split; [vm_compute; reflexivity |]. split; [vm_compute; reflexivity |].
  apply (fcfs_first_process_completes_first (MM := pool_memory) 3 256 3 256
           (mkMemoryPool 4096 3584 {[1 := 256; 2 := 256]})
           (mkMemoryPool 4096 3840 {[2 := 256]}) (mkMemoryPool 4096 4096 ∅));
    vm_compute; reflexivity.
Defined.

(** The fourth FCFS cycle over two new processes: P1 completes and stays in
    the queue. *)
Lemma terminated_stays_queued_and_unselected_witness :
  ∃ s3 evs s4 ev,
    run_cycles 3 (fcfs_pair (MM := pool_memory) 3 256 3 256
                    (mkMemoryPool 4096 3584 {[1 := 256; 2 := 256]}))
    = Ok (s3, evs)
    ∧ execute_cycle s3 = Ok (s4, ev)
    ∧ ev = process_completed 0%nat
    ∧ (∀ r, r ∈ ready_queue (process_manager s3) →
            r ∈ ready_queue (process_manager s4))
    ∧ (∀ r, ev = process_completed r → state_of s4 r = Some Terminated)
    ∧ (∀ t t' r,
         select_next_process t = Ok (t', Some r) →
         r ∈ ready_queue (process_manager t')
         ∧ state_of t' r = Some Ready
         ∧ state_of t r ≠ Some Terminated
         ∧ state_of t r ≠ Some Waiting).
Proof.
  do 4 eexists.
  split; [vm_compute; reflexivity |].
  split; [vm_compute; reflexivity |].
  split; [reflexivity |].
  eapply (terminated_stays_queued_and_unselected (MM := pool_memory)).
  vm_compute; reflexivity.
Defined.

(** * Further properties of the code *)

(** ** The memory pool *)

Lemma assigned_total_nonneg (a : gmap Z Z) :
  map_Forall (λ _ amount, 0 ≤ amount) a →
  0 ≤ map_fold (λ _ amount total, amount + total) 0 a.
Proof.
  induction a as [|pid amount a Hnone IH] using map_ind; intros Hall.
  - by rewrite map_fold_empty.
  - rewrite map_fold_insert_L; [| intros; lia | done].
    apply map_Forall_insert in Hall as [? ?]; [| done].
    specialize (IH ltac:(done)). lia.
Qed.

(** A release of the pool that returns credits the amount, forgets the
    assignment and keeps the pool coherent: "available_memory never exceeds
    total_memory nor drops below 0". *)
Lemma pool_release_ok (m m' : MemoryPool) (pid amount : Z) :
  pool_ok m →
  release_memory (MemoryModel := pool_memory) m pid amount = Ok m' →
  pool_ok m'
  ∧ 0 ≤ available_memory m' ≤ total_memory m'
  ∧ total_memory m' = total_memory m
  ∧ available_memory m' = available_memory m + amount
  ∧ assigned m' !! pid = None.
Proof.
  intros (Hsum & Havail & Hall). simpl. case_bool_decide as Has; [| done].
  intros [= <-]. simpl.
  assert (assigned_total m
          = amount + map_fold (λ _ amount total, amount + total) 0
                       (delete pid (assigned m))) as Hsplit.
  { unfold assigned_total.
    rewrite <- (insert_delete_id (assigned m) pid amount Has) at 1.
    rewrite map_fold_insert_L; [done | intros; lia | apply lookup_delete_eq]. }
  assert (0 ≤ amount) as Hamount by (by eapply (Hall pid)).
  assert (map_Forall (λ _ amount, 0 ≤ amount) (delete pid (assigned m))) as Hall'.
  { intros pid' a Ha. apply lookup_delete_Some in Ha as [_ Ha]. by eapply Hall. }
  pose proof (assigned_total_nonneg _ Hall') as Hrest.
  unfold pool_ok, assigned_total in *; simpl.
  rewrite lookup_delete_eq. repeat split; try done; lia.
Qed.

(** ** The process table *)

Section ProcessTableProperties.

Lemma create_processes_snoc pm specs priority memory burst :
  create_processes pm (specs ++ [(priority, memory, burst)])
  = fst (create_process (create_processes pm specs) priority memory burst).
Proof. unfold create_processes. by rewrite foldl_app. Qed.

Lemma create_processes_table specs :
  processes (create_processes new_ProcessManager specs)
  = imap (λ i '(priority, memory, burst),
            new_Process (Z.of_nat i + 1) priority memory burst) specs
  ∧ ready_queue (create_processes new_ProcessManager specs)
    = seq 0 (length specs).
Proof.
  induction specs as [|[[priority memory] burst] specs [IHp IHq]] using rev_ind;
    [done |].
  rewrite create_processes_snoc. simpl. rewrite IHp, IHq.
  rewrite length_imap, imap_app, length_app, seq_app. simpl.
  by rewrite Nat.add_0_r.
Qed.

(** X1: [create_process] numbers the processes 1, 2, 3, ... in creation
    order, so pids are unique; every new process is Ready with the
    priority, memory and burst it was made with, and the ready queue lists
    the processes in creation order. *)
Theorem created_pids_ascend (specs : list (Z * Z * Z)) :
  pid <$> processes (create_processes new_ProcessManager specs)
  = (λ i : nat, Z.of_nat i + 1) <$> seq 0 (length specs)
  ∧ NoDup (pid <$> processes (create_processes new_ProcessManager specs))
  ∧ Forall (λ p, state p = Ready)
           (processes (create_processes new_ProcessManager specs))
  ∧ ((λ p, (priority p, memory p, burst_time p))
       <$> processes (create_processes new_ProcessManager specs)) = specs
  ∧ ready_queue (create_processes new_ProcessManager specs)
    = seq 0 (length specs).
Proof.
  destruct (create_processes_table specs) as [Hp Hq].
  assert (pid <$> processes (create_processes new_ProcessManager specs)
          = (λ i : nat, Z.of_nat i + 1) <$> seq 0 (length specs)) as Hpids.
  { rewrite Hp. apply list_eq. intros i.
    rewrite !list_lookup_fmap, list_lookup_imap.
    destruct (specs !! i) as [[[? ?] ?]|] eqn:Hi; simpl.
    - rewrite lookup_seq_lt by (by eapply lookup_lt_Some). done.
    - rewrite lookup_seq_ge by (by apply lookup_ge_None). done. }
  split; [done |]. split; [| split; [| split; [| done]]].
  - rewrite Hpids. apply NoDup_fmap_2; [| apply NoDup_seq].
    intros i j Hij. lia.
  - rewrite Hp. apply Forall_lookup. intros i p.
    rewrite list_lookup_imap.
    destruct (specs !! i) as [[[? ?] ?]|]; simpl; [| done]. by intros [= <-].
  - rewrite Hp. apply list_eq. intros i.
    rewrite list_lookup_fmap, list_lookup_imap.
    by destruct (specs !! i) as [[[? ?] ?]|].
Qed.

End ProcessTableProperties.

(** ** Selection *)

Section SelectionProperties.
Context `{MM : MemoryModel}.
Implicit Types (s : Scheduler) (ps : list Process) (q : list nat) (r c n : nat).

(** [py_min] returns the first of the elements with the least key. *)
Lemma py_min_split_from {A} (key : A → Z) (rest : list A) :
  ∀ (l1 l2 : list A) (best : A),
    Forall (λ y, key best < key y) l1 →
    Forall (λ y, key best ≤ key y) l2 →
    ∃ l1' l2',
      (l1 ++ best :: l2) ++ rest = l1' ++ py_min key best rest :: l2'
      ∧ Forall (λ y, key (py_min key best rest) < key y) l1'
      ∧ Forall (λ y, key (py_min key best rest) ≤ key y) l2'.
Proof.
  unfold py_min.
  induction rest as [|y rest IH]; intros l1 l2 best Hl1 Hl2; simpl.
  - exists l1, l2. by rewrite app_nil_r.
  - destruct (key y <? key best) eqn:Hlt.
    + apply Z.ltb_lt in Hlt.
      destruct (IH (l1 ++ best :: l2) [] y) as (l1' & l2' & Heq & H1 & H2).
      * apply Forall_app. split; [| apply Forall_cons; split; [done |]].
        -- eapply Forall_impl; [exact Hl1 |]. simpl. intros; lia.
        -- eapply Forall_impl; [exact Hl2 |]. simpl. intros; lia.
      * constructor.
      * exists l1', l2'. split; [| done]. rewrite <- Heq.
        by list_simplifier.
    + apply Z.ltb_ge in Hlt.
      destruct (IH l1 (l2 ++ [y]) best) as (l1' & l2' & Heq & H1 & H2).
      * done.
      * apply Forall_app. split; [done |]. by apply Forall_singleton.
      * exists l1', l2'. split; [| done]. rewrite <- Heq.
        by list_simplifier.
Qed.

Lemma py_min_split {A} (key : A → Z) (x : A) (rest : list A) :
  ∃ l1 l2,
    x :: rest = l1 ++ py_min key x rest :: l2
    ∧ Forall (λ y, key (py_min key x rest) < key y) l1
    ∧ Forall (λ y, key (py_min key x rest) ≤ key y) l2.
Proof.
  destruct (py_min_split_from key rest [] [] x) as (l1 & l2 & Heq & H1 & H2);
    [constructor | constructor |].
  exists l1, l2. by rewrite <- Heq.
Qed.

(** The list comprehension keeps the Ready entries, in queue order. *)
Lemma ready_processes_split ps q : ∀ l1 l2 r p,
  ready_processes ps q = Ok (l1 ++ (r, p) :: l2) →
  ∃ q1 q2,
    q = q1 ++ r :: q2
    ∧ ready_processes ps q1 = Ok l1
    ∧ ready_processes ps q2 = Ok l2
    ∧ ps !! r = Some p ∧ state p = Ready.
Proof.
  induction q as [|r' q IH]; intros l1 l2 r p; simpl.
  - intros [= Hnil]. by destruct l1.
  - destruct (ps !! r') as [p'|] eqn:Hp'; [| done].
    intros (rest & Hrest & Hret)%bind_Ok_inv. injection Hret as Hret.
    case_bool_decide as Hst.
    + destruct l1 as [|e l1]; simpl in Hret.
      * injection Hret as -> -> ->. exists [], q. by rewrite Hrest.
      * injection Hret as <- ->.
        destruct (IH _ _ _ _ Hrest) as (q1 & q2 & -> & Hq1 & Hq2 & Hr).
        exists (r' :: q1), q2. simpl. rewrite Hp', Hq1; simpl.
        by rewrite bool_decide_eq_true_2.
    + subst rest.
      destruct (IH _ _ _ _ Hrest) as (q1 & q2 & -> & Hq1 & Hq2 & Hr).
      exists (r' :: q1), q2. simpl. rewrite Hp', Hq1; simpl.
      by rewrite bool_decide_eq_false_2.
Qed.

Lemma ready_processes_complete ps q : ∀ rp r p,
  ready_processes ps q = Ok rp →
  r ∈ q → ps !! r = Some p → state p = Ready → (r, p) ∈ rp.
Proof.
  induction q as [|r' q IH]; intros rp r p; simpl.
  - by intros _ ?%elem_of_nil.
  - destruct (ps !! r') as [p'|] eqn:Hp'; [| done].
    intros (rest & Hrest & [= <-])%bind_Ok_inv Hin Hp Hst.
    apply elem_of_cons in Hin as [->|Hin].
    + rewrite Hp in Hp'. injection Hp' as <-.
      rewrite bool_decide_eq_true_2 by done. left.
    + case_bool_decide; [right |]; by eapply IH.
Qed.

Lemma first_ready_split ps q r :
  first_ready ps q = Ok (Some r) →
  ∃ q1 q2,
    q = q1 ++ r :: q2
    ∧ Forall (λ r', ∃ p', ps !! r' = Some p' ∧ state p' ≠ Ready) q1.
Proof.
  induction q as [|r' q IH]; simpl; [done |].
  destruct (ps !! r') as [p'|] eqn:Hp'; [| done].
  case_bool_decide as Hst.
  - intros [= ->]. by exists [], q.
  - intros (q1 & q2 & -> & Hq1)%IH. exists (r' :: q1), q2.
    split; [done |]. apply Forall_cons. eauto.
Qed.

Lemma first_ready_none_inv ps q :
  first_ready ps q = Ok None →
  Forall (λ r', ∃ p', ps !! r' = Some p' ∧ state p' ≠ Ready) q.
Proof.
  induction q as [|r' q IH]; simpl; [by constructor |].
  destruct (ps !! r') as [p'|] eqn:Hp'; [| done].
  case_bool_decide as Hst; [done |].
  intros Hnone. apply Forall_cons. eauto.
Qed.

(** The process [select_min] returns, in terms of the queue. *)
Lemma select_min_first_minimum key s r :
  select_min key s = Ok (Some r) →
  ∃ p q1 q2,
    ready_queue (process_manager s) = q1 ++ r :: q2
    ∧ processes (process_manager s) !! r = Some p
    ∧ state p = Ready
    ∧ (∀ r' p', r' ∈ q1 → processes (process_manager s) !! r' = Some p' →
         state p' = Ready → key p < key p')
    ∧ (∀ r' p', r' ∈ q2 → processes (process_manager s) !! r' = Some p' →
         state p' = Ready → key p ≤ key p').
Proof.
  unfold select_min.
  destruct (ready_queue (process_manager s)) as [|r0 q0] eqn:Hq; [done |].
  rewrite <- Hq. clear Hq r0 q0.
  intros (rp & Hrp & Hmin)%bind_Ok_inv.
  destruct rp as [|x rest]; [done |]. injection Hmin as <-.
  destruct (py_min_split (λ e, key e.2) x rest) as (l1 & l2 & Heq & Hl1 & Hl2).
  destruct (py_min (λ e, key e.2) x rest) as [r p]; simpl in *.
  rewrite Heq in Hrp.
  apply ready_processes_split in Hrp as (q1 & q2 & -> & Hq1 & Hq2 & Hp & Hst).
  exists p, q1, q2. split; [done |]. split; [done |]. split; [done |]. split.
  - intros r' p' Hin Hp' Hst'.
    pose proof (ready_processes_complete _ _ _ _ _ Hq1 Hin Hp' Hst') as Hel.
    by apply (proj1 (Forall_forall _ _) Hl1) in Hel.
  - intros r' p' Hin Hp' Hst'.
    pose proof (ready_processes_complete _ _ _ _ _ Hq2 Hin Hp' Hst') as Hel.
    by apply (proj1 (Forall_forall _ _) Hl2) in Hel.
Qed.

(** X2: FCFS returns the first entry of the ready queue that is Ready:
    everything before it in the queue is not Ready. *)
Theorem fcfs_selects_first_ready_in_queue s r :
  fcfs_select_next_process s = Ok (Some r) →
  ∃ q1 q2,
    ready_queue (process_manager s) = q1 ++ r :: q2
    ∧ state_of s r = Some Ready
    ∧ ∀ r', r' ∈ q1 → ∃ st, state_of s r' = Some st ∧ st ≠ Ready.
Proof.
  unfold fcfs_select_next_process. intros Hsel.
  destruct (first_ready_some _ _ _ Hsel) as (_ & p & Hp & Hst).
  destruct (first_ready_split _ _ _ Hsel) as (q1 & q2 & Hq & Hq1).
  exists q1, q2. split; [done |]. unfold state_of.
  split; [by rewrite Hp; simpl; rewrite Hst |].
  intros r' Hin.
  destruct (proj1 (Forall_forall _ _) Hq1 r' Hin) as (p' & Hp' & Hst').
  exists (state p'). by rewrite Hp'.
Qed.

(** X3: SJF returns a Ready process whose burst_time is least among the
    Ready processes of the queue, and, among those with the least
    burst_time, the one that comes first in the queue. *)
Theorem sjf_selects_shortest_ready_first_on_ties s r :
  sjf_select_next_process s = Ok (Some r) →
  ∃ p q1 q2,
    ready_queue (process_manager s) = q1 ++ r :: q2
    ∧ processes (process_manager s) !! r = Some p
    ∧ state p = Ready
    ∧ (∀ r' p', r' ∈ q1 → processes (process_manager s) !! r' = Some p' →
         state p' = Ready → burst_time p < burst_time p')
    ∧ (∀ r' p', r' ∈ q2 → processes (process_manager s) !! r' = Some p' →
         state p' = Ready → burst_time p ≤ burst_time p').
Proof. apply select_min_first_minimum. Qed.

(** X4: Priority returns a Ready process whose priority number is least
    among the Ready processes of the queue, the first in the queue on ties. *)
Theorem priority_selects_least_number_first_on_ties s r :
  priority_select_next_process s = Ok (Some r) →
  ∃ p q1 q2,
    ready_queue (process_manager s) = q1 ++ r :: q2
    ∧ processes (process_manager s) !! r = Some p
    ∧ state p = Ready
    ∧ (∀ r' p', r' ∈ q1 → processes (process_manager s) !! r' = Some p' →
         state p' = Ready → priority p < priority p')
    ∧ (∀ r' p', r' ∈ q2 → processes (process_manager s) !! r' = Some p' →
         state p' = Ready → priority p ≤ priority p').
Proof. apply select_min_first_minimum. Qed.

Lemma select_min_none_inv key s :
  select_min key s = Ok None →
  ∀ r p, r ∈ ready_queue (process_manager s) →
         processes (process_manager s) !! r = Some p → state p ≠ Ready.
Proof.
  unfold select_min. intros Hsel r p Hin Hp Hst.
  destruct (ready_queue (process_manager s)) as [|r0 q0] eqn:Hq;
    [by apply elem_of_nil in Hin |].
  rewrite <- Hq in *. clear Hq r0 q0.
  apply bind_Ok_inv in Hsel as (rp & Hrp & Hret).
  destruct rp as [|x rest]; [| done].
  pose proof (ready_processes_complete _ _ _ _ _ Hrp Hin Hp Hst) as Hel.
  by apply elem_of_nil in Hel.
Qed.

(** X5: whatever the algorithm, a selection that returns comes back empty
    exactly when no process of the ready queue is Ready. *)
Theorem selection_is_empty_iff_nothing_ready s s' (o : option nat) :
  select_next_process s = Ok (s', o) →
  (o = None ↔
   ∀ r p, r ∈ ready_queue (process_manager s') →
          processes (process_manager s') !! r = Some p → state p ≠ Ready).
Proof.
  intros Hsel. split.
  - intros ->. revert Hsel.
    unfold select_next_process, fcfs_select_next_process,
      sjf_select_next_process, priority_select_next_process.
    destruct (kind s).
    + intros (o & Ho & [= <- ->])%bind_Ok_inv r p Hin Hp.
      apply first_ready_none_inv in Ho.
      destruct (proj1 (Forall_forall _ _) Ho r Hin) as (p' & Hp' & Hst').
      congruence.
    + intros (o & Ho & [= <- ->])%bind_Ok_inv. exact (select_min_none_inv _ _ Ho).
    + intros (o & Ho & [= <- ->])%bind_Ok_inv. exact (select_min_none_inv _ _ Ho).
    + unfold rr_select_next_process.
      destruct (ready_queue (process_manager s)) as [|r0 q0] eqn:Hq.
      { intros [= <-] r p Hin. rewrite Hq in Hin. by apply elem_of_nil in Hin. }
      intros (run & _ & Hrest)%bind_Ok_inv.
      apply bind_Ok_inv in Hrest as (s1 & _ & Hrest).
      apply bind_Ok_inv in Hrest as (next & Hnext & Hret).
      destruct next; [done |]. injection Hret as <-.
      intros r p Hin Hp. apply first_ready_none_inv in Hnext.
      destruct (proj1 (Forall_forall _ _) Hnext r Hin) as (p' & Hp' & Hst').
      congruence.
  - intros Hnone. destruct o as [r|]; [| done].
    apply select_next_process_some in Hsel as (Hin & Hst & _).
    unfold state_of in Hst.
    destruct (processes (process_manager s') !! r) as [p|] eqn:Hp; [| done].
    injection Hst as Hst. by destruct (Hnone r p).
Qed.

End SelectionProperties.

(** ** What a cycle does, event by event *)

Section CycleSteps.
Context `{MM : MemoryModel}.
Implicit Types (s : Scheduler) (ps : list Process) (q : list nat) (r c n : nat).

Lemma list_remove_split c q q' :
  list_remove c q = Ok q' →
  ∃ q1 q2, q = q1 ++ c :: q2 ∧ (c ∉ q1) ∧ q' = q1 ++ q2.
Proof.
  revert q'. induction q as [|r q IH]; simpl; intros q'; [done |].
  case_bool_decide as Heq.
  - intros [= <-]. subst r. exists [], q. split; [done |].
    split; [apply not_elem_of_nil | done].
  - intros (q'' & Hq'' & [= <-])%bind_Ok_inv.
    destruct (IH _ Hq'') as (q1 & q2 & -> & Hnot & ->).
    exists (r :: q1), q2. split; [done |]. split; [| done].
    rewrite not_elem_of_cons. split; [congruence | done].
Qed.

(** With no current process Running, a selection changes at most the
    quantum counter. *)
Lemma select_next_process_idle_inv s s' (o : option nat) :
  current_running s = Ok false →
  select_next_process s = Ok (s', o) →
  ∃ cq, s' = set_current_quantum s cq
        ∧ (kind s = RoundRobin → is_Some o → cq = 0).
Proof.
  intros Hfree. unfold select_next_process.
  destruct (kind s);
    try (intros (? & _ & [= <- _])%bind_Ok_inv;
         exists (current_quantum s); split; [by destruct s | done]).
  unfold rr_select_next_process. rewrite Hfree; simpl.
  destruct (ready_queue (process_manager s)).
  { intros [= <- <-]. exists (current_quantum s).
    split; [by destruct s | by intros _ [? ?]]. }
  intros (s1 & Hs1 & Hrest)%bind_Ok_inv.
  assert (s1 = s) as -> by (destruct (current_process s); by injection Hs1).
  apply bind_Ok_inv in Hrest as (next & _ & Hret).
  destruct next; injection Hret as <- <-.
  - by exists 0.
  - exists (current_quantum s). split; [by destruct s | by intros _ [? ?]].
Qed.

(** The outcomes of [Scheduler.execute_cycle]. *)
Lemma base_execute_cycle_cases s s' ev :
  base_execute_cycle s = Ok (s', ev) →
  (∃ c p,
      current_process s = Some c
      ∧ processes (process_manager s) !! c = Some p
      ∧ state p = Running
      ∧ ((burst_time p - 1 ≤ 0
          ∧ ev = process_completed c
          ∧ ∃ m,
              release_memory (mem (resources s)) (pid p) (memory p) = Ok m
              ∧ s' = set_current_process
                       (set_resources
                          (store (set_time s (time s + 1)) c
                             (set_state (set_burst_time p (burst_time p - 1))
                                Terminated))
                          (mkSystemResources true m))
                       None)
         ∨ (0 < burst_time p - 1
            ∧ ev = process_running c
            ∧ s' = store (set_time s (time s + 1)) c
                     (set_burst_time p (burst_time p - 1)))))
  ∨ (current_running s = Ok false
     ∧ ∃ cq,
         (ev = idle ∧ s' = set_current_quantum (set_time s (time s + 1)) cq)
         ∨ (∃ n p,
              n ∈ ready_queue (process_manager s)
              ∧ processes (process_manager s) !! n = Some p
              ∧ state p = Ready
              ∧ cpu_available (resources s) = true
              ∧ (kind s = RoundRobin → cq = 0)
              ∧ ev = process_started n
              ∧ s' = set_current_process
                       (store
                          (set_cpu_available
                             (set_current_quantum (set_time s (time s + 1)) cq)
                             false)
                          n (set_state p Running))
                       (Some n))).
Proof.
  unfold base_execute_cycle.
  intros (run & Hrun & Hrest)%bind_Ok_inv.
  destruct run; simpl in Hrest.
  - left. unfold current_running in Hrun; simpl in Hrun.
    destruct (current_process s) as [c|]; [| done].
    apply bind_Ok_inv in Hrun as (p & Hp & [= Hst%bool_decide_eq_true]).
    apply bind_Ok_inv in Hrest as (p' & Hp' & Hrest).
    rewrite Hp in Hp'. injection Hp' as <-.
    unfold deref in Hp; simpl in Hp.
    destruct (processes (process_manager s) !! c) as [p0|] eqn:Hc; [| done].
    injection Hp as ->.
    exists c, p. split; [done |]. split; [done |]. split; [done |].
    simpl in Hrest.
    case_bool_decide;
      [apply bind_Ok_inv in Hrest as (m & Hrel & Hrest) |];
      injection Hrest as <- <-.
    + left. split; [done |]. split; [done |].
      exists m. split; [exact Hrel |].
      unfold set_current_process, set_resources, set_cpu_available, store,
        set_process_manager, set_time; simpl.
      by rewrite list_insert_insert_eq.
    + right. split; [lia | done].
  - right. split; [exact Hrun |].
    apply bind_Ok_inv in Hrest as ([s1 next] & Hsel & Hrest).
    pose proof Hsel as Hsome.
    apply (select_next_process_idle_inv _ _ _ Hrun) in Hsel as (cq & -> & Hcq).
    exists cq. simpl in Hrest.
    destruct next as [n|]; [| left; by injection Hrest as <- <-].
    destruct (cpu_available (resources s)) eqn:Hcpu;
      [| left; by injection Hrest as <- <-].
    apply bind_Ok_inv in Hrest as (p & Hp & [= <- <-]).
    right. apply select_next_process_some in Hsome as (Hin & Hst & _).
    unfold deref in Hp; simpl in Hp. unfold state_of in Hst; simpl in *.
    destruct (processes (process_manager s) !! n) as [p0|] eqn:Hn; [| done].
    injection Hp as ->. injection Hst as Hst.
    exists n, p. repeat (split; [done |]). split; [| done].
    intros Hkind. by apply Hcq.
Qed.

(** The outcomes of [RoundRobinScheduler.execute_cycle], after the cycle of
    the base class. *)
Lemma rr_execute_cycle_cases s s' ev :
  rr_execute_cycle s = Ok (s', ev) →
  ∃ s1 res,
    base_execute_cycle s = Ok (s1, res)
    ∧ ((current_running s1 = Ok false ∧ s' = s1 ∧ ev = res)
       ∨ (∃ c p,
            current_process s1 = Some c
            ∧ processes (process_manager s1) !! c = Some p
            ∧ state p = Running
            ∧ ((¬ (quantum s1 ≤ current_quantum s1 + 1 ∧ 0 < burst_time p)
                ∧ s' = set_current_quantum s1 (current_quantum s1 + 1)
                ∧ ev = res)
               ∨ (quantum s1 ≤ current_quantum s1 + 1
                  ∧ 0 < burst_time p
                  ∧ ev = process_preempted c
                  ∧ ∃ q1 q2,
                      ready_queue (process_manager s1) = q1 ++ c :: q2
                      ∧ (c ∉ q1)
                      ∧ s' = set_current_quantum
                               (set_current_process
                                  (set_ready_queue
                                     (set_cpu_available
                                        (store
                                           (set_current_quantum s1
                                              (current_quantum s1 + 1))
                                           c (set_state p Ready))
                                        true)
                                     ((q1 ++ q2) ++ [c]))
                                  None)
                               0)))).
Proof.
  unfold rr_execute_cycle.
  intros ([s1 res] & Hbase & Hrest)%bind_Ok_inv.
  exists s1, res. split; [done |].
  apply bind_Ok_inv in Hrest as (run & Hrun & Hrest).
  destruct run.
  - right. unfold current_running in Hrun.
    destruct (current_process s1) as [c|]; [| done].
    apply bind_Ok_inv in Hrun as (p & Hp & [= Hst%bool_decide_eq_true]).
    apply bind_Ok_inv in Hrest as (p' & Hp' & Hrest).
    unfold deref in Hp, Hp'; simpl in Hp'.
    destruct (processes (process_manager s1) !! c) as [p0|] eqn:Hc; [| done].
    injection Hp as ->. injection Hp' as <-.
    exists c, p. split; [done |]. split; [done |]. split; [done |].
    simpl in Hrest.
    destruct (bool_decide (quantum s1 ≤ current_quantum s1 + 1)) eqn:Hq;
      [destruct (bool_decide (0 < burst_time p)) eqn:Hb |]; simpl in Hrest.
    + apply bool_decide_eq_true in Hq, Hb.
      apply bind_Ok_inv in Hrest as (q' & Hq' & [= <- <-]).
      apply list_remove_split in Hq' as (q1 & q2 & Hsplit & Hnot & ->).
      right. split; [done |]. split; [done |]. split; [done |].
      by exists q1, q2.
    + apply bool_decide_eq_false in Hb. injection Hrest as <- <-.
      left. split; [| done]. by intros [_ ?].
    + apply bool_decide_eq_false in Hq. injection Hrest as <- <-.
      left. split; [| done]. by intros [? _].
  - left. split; [done |].
    destruct (current_process s1); by injection Hrest as <- <-.
Qed.


(** What a cycle did, read off the event it returns. *)
Lemma execute_cycle_outcome s s' ev :
  execute_cycle s = Ok (s', ev) →
  time s' = time s + 1 ∧ kind s' = kind s ∧ quantum s' = quantum s
  ∧ name s' = name s
  ∧ match ev with
    | idle =>
        process_manager s' = process_manager s
        ∧ resources s' = resources s
        ∧ current_process s' = current_process s
    | process_started r =>
        ∃ p,
          processes (process_manager s) !! r = Some p
          ∧ state p = Ready
          ∧ r ∈ ready_queue (process_manager s)
          ∧ current_running s = Ok false
          ∧ cpu_available (resources s) = true
          ∧ processes (process_manager s')
            = <[r := set_state p Running]> (processes (process_manager s))
          ∧ ready_queue (process_manager s') = ready_queue (process_manager s)
          ∧ resources s' = mkSystemResources false (mem (resources s))
          ∧ current_process s' = Some r
          ∧ (kind s = RoundRobin → ¬ (quantum s ≤ 1 ∧ 0 < burst_time p))
    | process_running r =>
        ∃ p,
          current_process s = Some r
          ∧ processes (process_manager s) !! r = Some p
          ∧ state p = Running
          ∧ 0 < burst_time p - 1
          ∧ processes (process_manager s')
            = <[r := set_burst_time p (burst_time p - 1)]>
                (processes (process_manager s))
          ∧ ready_queue (process_manager s') = ready_queue (process_manager s)
          ∧ resources s' = resources s
          ∧ current_process s' = Some r
          ∧ (kind s = RoundRobin → current_quantum s + 1 < quantum s)
    | process_completed r =>
        ∃ p m,
          current_process s = Some r
          ∧ processes (process_manager s) !! r = Some p
          ∧ state p = Running
          ∧ burst_time p - 1 ≤ 0
          ∧ processes (process_manager s')
            = <[r := set_state (set_burst_time p (burst_time p - 1)) Terminated]>
                (processes (process_manager s))
          ∧ ready_queue (process_manager s') = ready_queue (process_manager s)
          ∧ release_memory (mem (resources s)) (pid p) (memory p) = Ok m
          ∧ resources s' = mkSystemResources true m
          ∧ current_process s' = None
    | process_preempted r =>
        kind s = RoundRobin
        ∧ ∃ p q1 q2,
            processes (process_manager s) !! r = Some p
            ∧ ready_queue (process_manager s) = q1 ++ r :: q2
            ∧ (r ∉ q1)
            ∧ ready_queue (process_manager s') = (q1 ++ q2) ++ [r]
            ∧ resources s' = mkSystemResources true (mem (resources s))
            ∧ current_process s' = None
            ∧ current_quantum s' = 0
            ∧ ((state p = Ready
                ∧ current_running s = Ok false
                ∧ cpu_available (resources s) = true
                ∧ 0 < burst_time p
                ∧ quantum s ≤ 1
                ∧ processes (process_manager s')
                  = <[r := set_state p Ready]> (processes (process_manager s)))
               ∨ (current_process s = Some r
                  ∧ state p = Running
                  ∧ 0 < burst_time p - 1
                  ∧ quantum s ≤ current_quantum s + 1
                  ∧ processes (process_manager s')
                    = <[r := set_state (set_burst_time p (burst_time p - 1)) Ready]>
                        (processes (process_manager s))))
    end.
Proof.
  assert (∀ s1 res,
            base_execute_cycle s = Ok (s1, res) →
            time s1 = time s + 1 ∧ kind s1 = kind s ∧ quantum s1 = quantum s
            ∧ name s1 = name s
            ∧ match res with
              | idle =>
                  process_manager s1 = process_manager s
                  ∧ resources s1 = resources s
                  ∧ current_process s1 = current_process s
                  ∧ current_running s = Ok false
              | process_started r =>
                  ∃ p cq,
                    processes (process_manager s) !! r = Some p
                    ∧ state p = Ready
                    ∧ r ∈ ready_queue (process_manager s)
                    ∧ current_running s = Ok false
                    ∧ cpu_available (resources s) = true
                    ∧ s1 = set_current_process
                             (store
                                (set_cpu_available
                                   (set_current_quantum (set_time s (time s + 1)) cq)
                                   false)
                                r (set_state p Running))
                             (Some r)
                    ∧ (kind s = RoundRobin → cq = 0)
              | process_running r =>
                  ∃ p,
                    current_process s = Some r
                    ∧ processes (process_manager s) !! r = Some p
                    ∧ state p = Running
                    ∧ 0 < burst_time p - 1
                    ∧ s1 = store (set_time s (time s + 1)) r
                             (set_burst_time p (burst_time p - 1))
              | process_completed r =>
                  ∃ p m,
                    current_process s = Some r
                    ∧ processes (process_manager s) !! r = Some p
                    ∧ state p = Running
                    ∧ burst_time p - 1 ≤ 0
                    ∧ release_memory (mem (resources s)) (pid p) (memory p) = Ok m
                    ∧ s1 = set_current_process
                             (set_resources
                                (store (set_time s (time s + 1)) r
                                   (set_state (set_burst_time p (burst_time p - 1))
                                      Terminated))
                                (mkSystemResources true m))
                             None
              | process_preempted _ => False
              end) as Hbase.
  { intros s1 res Hrun.
    apply base_execute_cycle_cases in Hrun
      as [(c & p & Hcur & Hp & Hst
           & [(Hb & -> & m & Hrel & ->) | (Hb & -> & ->)])
         | (Hfree & cq & [(-> & ->) | (n & p & Hin & Hp & Hst & Hcpu & Hcq & -> & ->)])];
      simpl; repeat (split; [done |]).
    - exists p, m. done.
    - exists p. done.
    - done.
    - exists p, cq. done. }
  unfold execute_cycle. destruct (kind s) eqn:Hkind.
  1-3: intros Hrun; destruct (Hbase _ _ Hrun) as (Ht & Hk & Hq & Hn & Hev);
       repeat (split; [done |]);
       destruct ev as [|r|r|r|r]; [
         by destruct Hev as (? & ? & ? & _)
       | destruct Hev as (p & cq & ? & ? & ? & ? & ? & -> & _); by exists p
       | destruct Hev as (p & m & ? & ? & ? & ? & ? & ->); by exists p, m
       | destruct Hev as (p & ? & ? & ? & ? & ->); by exists p
       | done ].
  intros (s1 & res & Hrun & Hpost)%rr_execute_cycle_cases.
  destruct (Hbase _ _ Hrun) as (Ht & Hk & Hq & Hn & Hev).
  destruct Hpost as [(Hfree1 & -> & ->)
                    | (c & p1 & Hcur1 & Hp1 & Hst1 & [(Hno & -> & ->) | Hpre])].
  - repeat (split; [done |]).
    destruct res as [|r|r|r|r].
    + by destruct Hev as (? & ? & ? & _).
    + destruct Hev as (p & cq & Hp & ? & ? & ? & ? & -> & _).
      unfold current_running, deref in Hfree1; simpl in Hfree1.
      rewrite list_lookup_insert_eq in Hfree1 by (by eapply lookup_lt_Some).
      done.
    + destruct Hev as (p & m & ? & ? & ? & ? & ? & ->). by exists p, m.
    + destruct Hev as (p & Hcur & Hp & Hst & ? & ->).
      unfold current_running, deref in Hfree1; simpl in Hfree1.
      rewrite Hcur, list_lookup_insert_eq in Hfree1 by (by eapply lookup_lt_Some).
      simpl in Hfree1. by rewrite bool_decide_eq_true_2 in Hfree1.
    + done.
  - simpl. repeat (split; [done |]).
    destruct res as [|r|r|r|r].
    + destruct Hev as (Hpm & ? & Hcur & Hfree).
      unfold current_running, deref in Hfree.
      rewrite <- Hcur, Hcur1, <- Hpm, Hp1 in Hfree. simpl in Hfree.
      by rewrite bool_decide_eq_true_2 in Hfree.
    + destruct Hev as (p & cq & Hp & ? & ? & ? & ? & -> & Hcq).
      simpl in *. injection Hcur1 as <-.
      rewrite list_lookup_insert_eq in Hp1 by (by eapply lookup_lt_Some).
      injection Hp1 as <-. simpl in *.
      exists p. repeat (split; [done |]).
      intros _. by rewrite (Hcq eq_refl) in Hno.
    + destruct Hev as (p & m & ? & ? & ? & ? & ? & ->). simpl in *. done.
    + destruct Hev as (p & Hcur & Hp & ? & Hb & ->).
      simpl in *. rewrite Hcur in Hcur1. injection Hcur1 as <-.
      rewrite list_lookup_insert_eq in Hp1 by (by eapply lookup_lt_Some).
      injection Hp1 as <-. simpl in *.
      exists p. repeat (split; [done |]).
      intros _. lia.
    + done.
  - destruct Hpre as (Hquantum & Hburst & -> & q1 & q2 & Hqueue & Hnot & ->).
    simpl. repeat (split; [done |]).
    destruct res as [|r|r|r|r].
    + destruct Hev as (Hpm & ? & Hcur & Hfree).
      unfold current_running, deref in Hfree.
      rewrite <- Hcur, Hcur1, <- Hpm, Hp1 in Hfree. simpl in Hfree.
      by rewrite bool_decide_eq_true_2 in Hfree.
    + destruct Hev as (p & cq & Hp & Hst & Hin & Hfree & Hcpu & -> & Hcq).
      simpl in *. injection Hcur1 as <-.
      rewrite list_lookup_insert_eq in Hp1 by (by eapply lookup_lt_Some).
      injection Hp1 as <-. simpl in *.
      exists p, q1, q2. repeat (split; [done |]).
      left. repeat (split; [done |]).
      split; [rewrite (Hcq eq_refl) in Hquantum; lia |].
      by rewrite list_insert_insert_eq.
    + destruct Hev as (p & m & ? & ? & ? & ? & ? & ->). simpl in *. done.
    + destruct Hev as (p & Hcur & Hp & Hst & Hb & ->).
      simpl in *. rewrite Hcur in Hcur1. injection Hcur1 as <-.
      rewrite list_lookup_insert_eq in Hp1 by (by eapply lookup_lt_Some).
      injection Hp1 as <-. simpl in *.
      exists p, q1, q2. repeat (split; [done |]).
      right. repeat (split; [done |]).
      by rewrite list_insert_insert_eq.
    + done.
Qed.

End CycleSteps.

Section CycleEffects.
Context `{MM : MemoryModel}.
Implicit Types (s : Scheduler) (ps : list Process) (q : list nat) (r c n : nat).

(** The store after a cycle, whatever the event: one entry replaced, or
    none. *)
Lemma execute_cycle_store s s' ev :
  execute_cycle s = Ok (s', ev) →
  match event_process ev with
  | None => processes (process_manager s') = processes (process_manager s)
  | Some r =>
      ∃ p p',
        processes (process_manager s) !! r = Some p
        ∧ processes (process_manager s')
          = <[r := p']> (processes (process_manager s))
        ∧ pid p' = pid p ∧ priority p' = priority p ∧ memory p' = memory p
        ∧ proc_resources p' = proc_resources p
        ∧ arrival_time p' = arrival_time p
        ∧ (state p = Ready ∨ state p = Running)
        ∧ match ev with
          | idle => False
          | process_started _ =>
              state p = Ready ∧ state p' = Running
              ∧ burst_time p' = burst_time p
          | process_running _ =>
              state p = Running ∧ state p' = Running
              ∧ burst_time p' = burst_time p - 1 ∧ 0 < burst_time p'
          | process_completed _ =>
              state p = Running ∧ state p' = Terminated
              ∧ burst_time p' = burst_time p - 1 ∧ burst_time p' ≤ 0
          | process_preempted _ =>
              state p' = Ready ∧ 0 < burst_time p'
              ∧ ((state p = Ready ∧ burst_time p' = burst_time p)
                 ∨ (state p = Running ∧ burst_time p' = burst_time p - 1))
          end
  end.
Proof.
  intros (_ & _ & _ & _ & Hev)%execute_cycle_outcome.
  destruct ev as [|r|r|r|r]; simpl.
  - destruct Hev as (Hpm & _). by rewrite Hpm.
  - destruct Hev as (p & Hp & Hst & _ & _ & _ & Hps & _).
    exists p, (set_state p Running). simpl. auto 15.
  - destruct Hev as (p & m & _ & Hp & Hst & Hb & Hps & _).
    exists p, (set_state (set_burst_time p (burst_time p - 1)) Terminated).
    simpl. auto 15.
  - destruct Hev as (p & _ & Hp & Hst & Hb & Hps & _).
    exists p, (set_burst_time p (burst_time p - 1)). simpl. auto 15.
  - destruct Hev as (_ & p & q1 & q2 & Hp & _ & _ & _ & _ & _ & _ & Hcase).
    destruct Hcase as [(Hst & _ & _ & Hb & _ & Hps) | (_ & Hst & Hb & _ & Hps)].
    + exists p, (set_state p Ready). simpl. auto 15.
    + exists p, (set_state (set_burst_time p (burst_time p - 1)) Ready).
      simpl. repeat (split; [auto; done |]). auto 15.
Qed.

(** X6: a cycle that returns advances the clock by one and keeps the class,
    the quantum and the number of processes; it changes no process but the
    one its event names (none when idle), and of that one only the state and
    the burst: pid, priority and memory of every process stay. *)
Theorem cycle_changes_only_the_process_of_its_event s s' ev :
  execute_cycle s = Ok (s', ev) →
  time s' = time s + 1 ∧ kind s' = kind s ∧ quantum s' = quantum s
  ∧ length (processes (process_manager s'))
    = length (processes (process_manager s))
  ∧ (∀ r, event_process ev ≠ Some r →
          processes (process_manager s') !! r
          = processes (process_manager s) !! r)
  ∧ (∀ r p p',
       processes (process_manager s) !! r = Some p →
       processes (process_manager s') !! r = Some p' →
       pid p' = pid p ∧ priority p' = priority p ∧ memory p' = memory p).
Proof.
  intros Hrun. pose proof (execute_cycle_store _ _ _ Hrun) as Hstore.
  apply execute_cycle_outcome in Hrun as (Ht & Hk & Hq & _ & _).
  repeat (split; [done |]).
  destruct (event_process ev) as [r0|].
  - destruct Hstore as (p0 & p0' & Hp0 & -> & Hpid & Hpri & Hmem & _).
    split; [by rewrite length_insert |]. split.
    + intros r Hne. rewrite list_lookup_insert_ne; [done | congruence].
    + intros r p p' Hp Hp'. destruct (decide (r = r0)) as [->|Hne].
      * rewrite list_lookup_insert_eq in Hp' by (by eapply lookup_lt_Some).
        injection Hp' as <-. rewrite Hp0 in Hp. by injection Hp as <-.
      * rewrite list_lookup_insert_ne in Hp' by done.
        rewrite Hp in Hp'. by injection Hp' as <-.
  - rewrite Hstore. split; [done |]. split; [done |].
    intros r p p' Hp Hp'. rewrite Hp in Hp'. by injection Hp' as <-.
Qed.

(** X7: what each event says about its process.  process_started: it was
    Ready, is now Running, and no burst was consumed.  process_running: it
    was and stays Running, one unit of burst was consumed and some is left.
    process_completed: it was Running, is now Terminated, one unit of burst
    was consumed and none is left.  process_preempted: it is now Ready with
    burst left, having been either Running (one unit consumed) or started in
    this very cycle (nothing consumed). *)
Theorem cycle_event_tells_the_transition s s' ev r :
  execute_cycle s = Ok (s', ev) →
  event_process ev = Some r →
  ∃ p p',
    processes (process_manager s) !! r = Some p
    ∧ processes (process_manager s') !! r = Some p'
    ∧ match ev with
      | idle => False
      | process_started _ =>
          state p = Ready ∧ state p' = Running ∧ burst_time p' = burst_time p
      | process_running _ =>
          state p = Running ∧ state p' = Running
          ∧ burst_time p' = burst_time p - 1 ∧ 0 < burst_time p'
      | process_completed _ =>
          state p = Running ∧ state p' = Terminated
          ∧ burst_time p' = burst_time p - 1 ∧ burst_time p' ≤ 0
      | process_preempted _ =>
          state p' = Ready ∧ 0 < burst_time p'
          ∧ ((state p = Ready ∧ burst_time p' = burst_time p)
             ∨ (state p = Running ∧ burst_time p' = burst_time p - 1))
      end.
Proof.
  intros Hstore%execute_cycle_store Hev. rewrite Hev in Hstore.
  destruct Hstore as (p & p' & Hp & Hps & _ & _ & _ & _ & _ & _ & Htrans).
  exists p, p'. split; [done |]. split; [| done].
  rewrite Hps. apply list_lookup_insert_eq. by eapply lookup_lt_Some.
Qed.

(** X8: a cycle never touches a process that is Waiting or Terminated: its
    record is the same afterwards and the event is about another process. *)
Theorem cycle_leaves_waiting_and_terminated_alone s s' ev r p :
  execute_cycle s = Ok (s', ev) →
  processes (process_manager s) !! r = Some p →
  state p = Waiting ∨ state p = Terminated →
  processes (process_manager s') !! r = Some p
  ∧ event_process ev ≠ Some r.
Proof.
  intros Hstore%execute_cycle_store Hp Hst.
  destruct (event_process ev) as [r0|]; [| by rewrite Hstore].
  destruct Hstore as (p0 & p0' & Hp0 & -> & _ & _ & _ & _ & _ & Hbefore & _).
  assert (r0 ≠ r) as Hne.
  { intros ->. rewrite Hp in Hp0. injection Hp0 as <-.
    destruct Hst as [Hst|Hst], Hbefore as [Hb|Hb]; congruence. }
  split; [by rewrite list_lookup_insert_ne | congruence].
Qed.

(** X9: the order of the ready queue changes only by a preemption, which
    moves the preempted process from its first position in the queue to the
    tail and keeps the order of the others; every other event leaves the
    queue as it is. *)
Theorem queue_changes_only_by_rotation s s' ev :
  execute_cycle s = Ok (s', ev) →
  match ev with
  | process_preempted c =>
      ∃ q1 q2,
        ready_queue (process_manager s) = q1 ++ c :: q2
        ∧ (c ∉ q1)
        ∧ ready_queue (process_manager s') = q1 ++ q2 ++ [c]
  | _ => ready_queue (process_manager s') = ready_queue (process_manager s)
  end.
Proof.
  intros (_ & _ & _ & _ & Hev)%execute_cycle_outcome.
  destruct ev as [|r|r|r|r].
  - destruct Hev as (Hpm & _). by rewrite Hpm.
  - by destruct Hev as (p & _ & _ & _ & _ & _ & _ & Hq & _).
  - by destruct Hev as (p & m & _ & _ & _ & _ & _ & Hq & _).
  - by destruct Hev as (p & _ & _ & _ & _ & _ & Hq & _).
  - destruct Hev as (_ & p & q1 & q2 & _ & Hq & Hnot & Hq' & _).
    exists q1, q2. by rewrite Hq', <- app_assoc.
Qed.

(** X10: the CPU flag and the memory accounting follow the event: a start
    needs the CPU free and takes it; a completion frees it and calls
    release_memory once, with the pid and the memory of the completed
    process, and leaves the accounting that this call returns; a preemption
    frees it; running and idle cycles leave the resources as they are. *)
Theorem resources_follow_the_event s s' ev :
  execute_cycle s = Ok (s', ev) →
  match ev with
  | idle | process_running _ => resources s' = resources s
  | process_started _ =>
      cpu_available (resources s) = true
      ∧ resources s' = mkSystemResources false (mem (resources s))
  | process_preempted _ =>
      resources s' = mkSystemResources true (mem (resources s))
  | process_completed r =>
      ∃ p m, processes (process_manager s) !! r = Some p
             ∧ release_memory (mem (resources s)) (pid p) (memory p) = Ok m
             ∧ resources s' = mkSystemResources true m
  end
  ∧ current_process s'
    = match ev with
      | idle => current_process s
      | process_started r | process_running r => Some r
      | process_completed _ | process_preempted _ => None
      end.
Proof.
  intros (_ & _ & _ & _ & Hev)%execute_cycle_outcome.
  destruct ev as [|r|r|r|r].
  - by destruct Hev as (_ & Hres & Hcur).
  - by destruct Hev as (p & _ & _ & _ & _ & Hcpu & _ & _ & Hres & Hcur & _).
  - destruct Hev as (p & m & _ & Hp & _ & _ & _ & _ & Hrel & Hres & Hcur).
    eauto 10.
  - by destruct Hev as (p & _ & _ & _ & _ & _ & _ & Hres & Hcur & _).
  - by destruct Hev as (_ & p & q1 & q2 & _ & _ & _ & _ & Hres & Hcur & _).
Qed.

End CycleEffects.

(** ** Cycles return *)

Section CycleTotality.
Context `{MM : MemoryModel}.
Implicit Types (s : Scheduler) (ps : list Process) (q : list nat) (r c n : nat).

Lemma current_running_total s :
  well_formed s → ∃ run, current_running s = Ok run.
Proof.
  intros [_ Hc]. unfold current_running, deref.
  destruct (current_process s) as [c|]; [| eauto].
  destruct (lookup_lt_is_Some_2 (processes (process_manager s)) c) as [p ->];
    [by apply Hc |].
  simpl. eauto.
Qed.

Lemma current_running_true s c p :
  current_process s = Some c →
  processes (process_manager s) !! c = Some p →
  state p = Running →
  current_running s = Ok true.
Proof.
  intros Hcur Hp Hst. unfold current_running, deref. rewrite Hcur, Hp; simpl.
  by rewrite bool_decide_eq_true_2.
Qed.

Lemma select_next_process_total s :
  well_formed s → current_running s = Ok false →
  ∃ s' o, select_next_process s = Ok (s', o).
Proof.
  intros [Hq _] Hfree. unfold select_next_process.
  destruct (kind s).
  - destruct (first_ready_total _ _ Hq) as [o Ho].
    unfold fcfs_select_next_process. rewrite Ho. simpl. eauto.
  - destruct (select_min_total burst_time s Hq) as [o Ho].
    unfold sjf_select_next_process. rewrite Ho. simpl. eauto.
  - destruct (select_min_total priority s Hq) as [o Ho].
    unfold priority_select_next_process. rewrite Ho. simpl. eauto.
  - unfold rr_select_next_process. rewrite Hfree; simpl.
    destruct (first_ready_total _ _ Hq) as [o Ho].
    assert ((match current_process s with
             | Some c => Ok s
             | None => Ok s
             end : result Scheduler) = Ok s) as -> by (by destruct (current_process s)).
    simpl. rewrite Ho.
    destruct (ready_queue (process_manager s)); [eauto |].
    destruct o; eauto.
Qed.

(** A cycle returns, unless the current process is Running and the release
    of its memory raises. *)
Lemma base_execute_cycle_total s :
  well_formed s →
  (∃ s' ev, base_execute_cycle s = Ok (s', ev))
  ∨ (∃ e, base_execute_cycle s = Raise e
          ∧ release_raises e ∧ current_running s = Ok true).
Proof.
  intros Hwf. unfold base_execute_cycle.
  assert (well_formed (set_time s (time s + 1))) as Hwf0 by exact Hwf.
  destruct (current_running_total _ Hwf0) as [run Hrun]. rewrite Hrun; simpl.
  destruct run; simpl.
  - pose proof Hrun as Hrunning.
    unfold current_running in Hrun; simpl in Hrun.
    destruct (current_process s) as [c|]; [| done].
    apply bind_Ok_inv in Hrun as (p & -> & _). simpl.
    case_bool_decide; [| by left; eauto].
    destruct (release_memory _ _ _) as [m|e] eqn:Hrel; simpl; [by left; eauto |].
    right. exists e. split; [done |]. split; [by eexists _, _, _ | done].
  - left.
    destruct (select_next_process_total _ Hwf0 Hrun) as (s1 & o & Hsel).
    rewrite Hsel; simpl. destruct o as [n|]; [| eauto].
    destruct (cpu_available (resources s1)); [| eauto].
    pose proof Hsel as Hsome.
    apply (select_next_process_idle_inv _ _ _ Hrun) in Hsel as (cq & -> & _).
    apply select_next_process_some in Hsome as (Hin & _). simpl in Hin.
    destruct Hwf as [Hq _].
    destruct (lookup_lt_is_Some_2 (processes (process_manager s)) n) as [p Hp];
      [by apply Hq |].
    unfold deref; simpl. rewrite Hp; simpl. eauto.
Qed.

Lemma execute_cycle_total s :
  refs_ok s →
  (∃ s' ev, execute_cycle s = Ok (s', ev))
  ∨ (∃ e, execute_cycle s = Raise e
          ∧ release_raises e ∧ current_running s = Ok true).
Proof.
  intros [Hwf Hcur]. unfold execute_cycle.
  destruct (kind s); try by apply base_execute_cycle_total.
  unfold rr_execute_cycle.
  destruct (base_execute_cycle_total s Hwf)
    as [(s1 & res & Hbase) | (e & Hbase & He)];
    [left | right; exists e; by rewrite Hbase].
  rewrite Hbase; simpl.
  apply base_execute_cycle_cases in Hbase
    as [(c & p & Hc & Hp & Hst & [(Hb & -> & m & _ & ->) | (Hb & -> & ->)])
       | (Hfree & cq & [(-> & ->) | (n & p & Hin & Hp & Hst & Hcpu & _ & -> & ->)])].
  - unfold current_running; simpl. eauto.
  - apply lookup_lt_Some in Hp as Hlt.
    unfold current_running, deref; simpl. rewrite Hc; simpl.
    rewrite list_lookup_insert_eq by done. simpl.
    rewrite bool_decide_eq_true_2 by done.
    destruct (_ && _); [| eauto].
    destruct (list_remove_total c _ (Hcur c Hc)) as [q' ->]. simpl. eauto.
  - change (current_running (set_current_quantum (set_time s (time s + 1)) cq))
      with (current_running s).
    rewrite Hfree; simpl. destruct (current_process s); eauto.
  - apply lookup_lt_Some in Hp as Hlt.
    unfold current_running, deref; simpl.
    rewrite list_lookup_insert_eq by done. simpl.
    destruct (_ && _); [| eauto].
    destruct (list_remove_total n _ Hin) as [q' ->]. simpl. eauto.
Qed.

(** With no current process Running nothing is released, and the cycle
    returns. *)
Lemma execute_cycle_total_free s :
  refs_ok s → current_running s = Ok false →
  ∃ s' ev, execute_cycle s = Ok (s', ev).
Proof.
  intros Hrefs Hfree.
  destruct (execute_cycle_total s Hrefs) as [Hok | (e & _ & _ & Hrun)];
    [done | congruence].
Qed.

Lemma execute_cycle_refs_ok s s' ev :
  refs_ok s → execute_cycle s = Ok (s', ev) → refs_ok s'.
Proof.
  intros [[Hq Hc] Hcur] (_ & _ & _ & _ & Hev)%execute_cycle_outcome.
  unfold refs_ok, well_formed.
  destruct ev as [|r|r|r|r].
  - destruct Hev as (-> & _ & ->). done.
  - destruct Hev as (p & Hp & _ & Hin & _ & _ & -> & -> & _ & -> & _).
    rewrite length_insert. split; [split; [done |] |].
    + intros c [= <-]. by apply Hq.
    + by intros c [= <-].
  - destruct Hev as (p & m & _ & _ & _ & _ & -> & -> & _ & _ & ->).
    rewrite length_insert. done.
  - destruct Hev as (p & Hr & _ & _ & _ & -> & -> & _ & -> & _).
    rewrite length_insert. split; [split; [done |] |].
    + intros c [= <-]. by apply Hq, Hcur.
    + intros c [= <-]. by apply Hcur.
  - destruct Hev as (_ & p & q1 & q2 & _ & Hqueue & _ & -> & _ & -> & _ & Hps).
    assert (length (processes (process_manager s'))
            = length (processes (process_manager s))) as ->.
    { destruct Hps as [(_ & _ & _ & _ & _ & ->) | (_ & _ & _ & _ & ->)];
        by rewrite length_insert. }
    split; [split; [| done] | done].
    intros c Hin. apply Hq. rewrite Hqueue.
    rewrite elem_of_app, elem_of_cons.
    apply elem_of_app in Hin as [[?|?]%elem_of_app | ->%list_elem_of_singleton];
      auto.
Qed.

End CycleTotality.

(** ** Invariants of the cycle *)

Section CycleInvariants.
Context `{MM : MemoryModel}.
Implicit Types (s : Scheduler) (ps : list Process) (q : list nat) (r c n : nat).

Lemma set_state_same p : set_state p (state p) = p.
Proof. by destruct p. Qed.

(** Replacing the only Running process by one that is not Running leaves
    nothing Running. *)
Lemma none_running_after_release ps r p p' :
  (∀ r1 r2 p1 p2, ps !! r1 = Some p1 → ps !! r2 = Some p2 →
                  state p1 = Running → state p2 = Running → r1 = r2) →
  ps !! r = Some p → state p = Running → state p' ≠ Running →
  ∀ r0 p0, <[r := p']> ps !! r0 = Some p0 → state p0 ≠ Running.
Proof.
  intros Hone Hp Hst Hst' r0 p0 Hp0 Hst0.
  destruct (decide (r0 = r)) as [->|Hne].
  - rewrite list_lookup_insert_eq in Hp0 by (by eapply lookup_lt_Some).
    by injection Hp0 as <-.
  - rewrite list_lookup_insert_ne in Hp0 by done.
    by specialize (Hone _ _ _ _ Hp0 Hp Hst0 Hst).
Qed.

Lemma none_running_at_most_one ps :
  (∀ r p, ps !! r = Some p → state p ≠ Running) →
  ∀ r1 r2 p1 p2, ps !! r1 = Some p1 → ps !! r2 = Some p2 →
                 state p1 = Running → state p2 = Running → r1 = r2.
Proof. intros Hnone r1 r2 p1 p2 Hp1 _ Hst1. by destruct (Hnone _ _ Hp1). Qed.

(** A cycle that returns keeps the mutual exclusion that the CPU flag
    guards, whatever the scheduler holds as its current process. *)
Lemma execute_cycle_cpu_inv s s' ev :
  at_most_one_running s → cpu_guard s →
  execute_cycle s = Ok (s', ev) →
  at_most_one_running s' ∧ cpu_guard s'.
Proof.
  intros Hone Hguard Hrun.
  apply execute_cycle_outcome in Hrun as (_ & _ & _ & _ & Hev).
  unfold at_most_one_running, cpu_guard, no_running in *.
  destruct ev as [|r|r|r|r].
  - destruct Hev as (-> & -> & _). done.
  - destruct Hev as (p & Hp & Hst & _ & _ & Hcpu & -> & _ & -> & _).
    simpl. split; [| done].
    specialize (Hguard Hcpu).
    intros r1 r2 p1 p2 Hp1 Hp2 Hst1 Hst2.
    destruct (decide (r1 = r)) as [->|Hne1], (decide (r2 = r)) as [->|Hne2];
      [done | | |].
    + rewrite list_lookup_insert_ne in Hp2 by done. by destruct (Hguard _ _ Hp2).
    + rewrite list_lookup_insert_ne in Hp1 by done. by destruct (Hguard _ _ Hp1).
    + rewrite list_lookup_insert_ne in Hp1 by done. by destruct (Hguard _ _ Hp1).
  - destruct Hev as (p & m & _ & Hp & Hst & _ & -> & _ & _ & -> & _).
    pose proof (none_running_after_release _ r p
                  (set_state (set_burst_time p (burst_time p - 1)) Terminated)
                  Hone Hp Hst) as Hnone.
    split; [apply none_running_at_most_one |]; intros; by eapply Hnone.
  - destruct Hev as (p & _ & Hp & Hst & _ & -> & _ & -> & _).
    assert (∀ r0 p0,
              <[r := set_burst_time p (burst_time p - 1)]>
                (processes (process_manager s)) !! r0 = Some p0 →
              state p0 = Running → r0 = r) as Honly.
    { intros r0 p0 Hp0 Hst0. destruct (decide (r0 = r)) as [->|Hne]; [done |].
      rewrite list_lookup_insert_ne in Hp0 by done. by eapply Hone. }
    split.
    + intros r1 r2 p1 p2 Hp1 Hp2 Hst1 Hst2.
      rewrite (Honly _ _ Hp1 Hst1), (Honly _ _ Hp2 Hst2). done.
    + intros Hcpu. by destruct (Hguard Hcpu _ _ Hp).
  - destruct Hev as (_ & p & q1 & q2 & Hp & _ & _ & _ & -> & _ & _ & Hcase).
    destruct Hcase as [(Hst & _ & Hcpu & _ & _ & ->) | (_ & Hst & _ & _ & ->)].
    + rewrite <- Hst, set_state_same, list_insert_id by done.
      specialize (Hguard Hcpu). done.
    + pose proof (none_running_after_release _ r p
                    (set_state (set_burst_time p (burst_time p - 1)) Ready)
                    Hone Hp Hst) as Hnone.
      split; [apply none_running_at_most_one |]; intros; by eapply Hnone.
Qed.

Lemma execute_cycle_mutex_inv s s' ev :
  mutex_inv s → execute_cycle s = Ok (s', ev) → mutex_inv s'.
Proof.
  intros (Hrefs & Hone & Hguard) Hrun.
  split; [by eapply execute_cycle_refs_ok | by eapply execute_cycle_cpu_inv].
Qed.

Lemma run_cycles_mutex_inv n : ∀ s,
  mutex_inv s →
  (∃ s' evs, run_cycles n s = Ok (s', evs) ∧ length evs = n ∧ mutex_inv s')
  ∨ (∃ e, run_cycles n s = Raise e ∧ release_raises e).
Proof.
  induction n as [|n IH]; intros s Hinv; simpl; [by left; eauto |].
  destruct (execute_cycle_total s (proj1 Hinv))
    as [(s1 & ev & Hrun) | (e & -> & He & _)]; [| by right; eauto].
  pose proof (execute_cycle_mutex_inv _ _ _ Hinv Hrun) as Hinv1.
  rewrite Hrun; simpl.
  destruct (IH s1 Hinv1)
    as [(s' & evs & -> & Hlen & Hinv') | (e & -> & He)]; simpl;
    [| by right; eauto].
  left. exists s', (ev :: evs). simpl. auto.
Qed.

(** X11: the CPU flag alone enforces mutual exclusion.  Take any state in
    which every reference of the ready queue and of the scheduler points
    into the store, the current process of the scheduler, when there is
    one, is an entry of the ready queue, at most one process is Running, and
    the CPU is free only if none is (the current process need not be the one
    that runs).  Then any number of cycles either all return, one event
    each, and leave at most one process Running, with the CPU free only if
    none is, or one of them raises, and what it raises is an exception of
    [release_memory]. *)
Theorem cpu_flag_keeps_mutual_exclusion s (n : nat) :
  refs_ok s → at_most_one_running s → cpu_guard s →
  (∃ s' evs,
     run_cycles n s = Ok (s', evs)
     ∧ length evs = n
     ∧ at_most_one_running s'
     ∧ cpu_guard s')
  ∨ (∃ e, run_cycles n s = Raise e ∧ release_raises e).
Proof.
  intros Hrefs Hone Hguard.
  destruct (run_cycles_mutex_inv n s)
    as [(s' & evs & Hrun & Hlen & _ & Hone' & Hguard') | Hraise];
    [done | left | by right].
  by exists s', evs.
Qed.

(** With the CPU taken and no current process Running, a cycle is idle and
    changes neither the processes, the queue, the resources nor the current
    process. *)
Lemma execute_cycle_cpu_taken s :
  refs_ok s → cpu_available (resources s) = false →
  current_running s = Ok false →
  ∃ s', execute_cycle s = Ok (s', idle)
        ∧ process_manager s' = process_manager s
        ∧ resources s' = resources s
        ∧ current_process s' = current_process s.
Proof.
  intros Hrefs Hcpu Hfree.
  destruct (execute_cycle_total_free s Hrefs Hfree) as (s' & ev & Hrun).
  pose proof Hrun as (_ & _ & _ & _ & Hev)%execute_cycle_outcome.
  exists s'. destruct ev as [|r|r|r|r].
  - done.
  - destruct Hev as (p & _ & _ & _ & _ & Hcpu' & _). congruence.
  - destruct Hev as (p & m & Hcur & Hp & Hst & _).
    rewrite (current_running_true _ _ _ Hcur Hp Hst) in Hfree. done.
  - destruct Hev as (p & Hcur & Hp & Hst & _).
    rewrite (current_running_true _ _ _ Hcur Hp Hst) in Hfree. done.
  - destruct Hev as (_ & p & q1 & q2 & Hp & _ & _ & _ & _ & _ & _ & Hcase).
    destruct Hcase as [(_ & _ & Hcpu' & _) | (Hcur & Hst & _)]; [congruence |].
    rewrite (current_running_true _ _ _ Hcur Hp Hst) in Hfree. done.
Qed.

(** X12: a scheduler whose CPU flag is taken while its own current process is
    not Running (a new scheduler made by the factory while a process of the
    previous one still runs, for one) never schedules again: every cycle is
    idle and leaves processes, queue and resources untouched. *)
Theorem taken_cpu_without_current_process_idles_forever s (n : nat) :
  refs_ok s → cpu_available (resources s) = false →
  current_running s = Ok false →
  ∃ s',
    run_cycles n s = Ok (s', replicate n idle)
    ∧ process_manager s' = process_manager s
    ∧ resources s' = resources s
    ∧ current_process s' = current_process s.
Proof.
  revert s. induction n as [|n IH]; intros s Hrefs Hcpu Hfree; simpl.
  - by exists s.
  - destruct (execute_cycle_cpu_taken s Hrefs Hcpu Hfree)
      as (s1 & Hrun & Hpm & Hres & Hcur).
    rewrite Hrun; simpl.
    destruct (IH s1) as (s' & -> & Hpm' & Hres' & Hcur').
    + by eapply execute_cycle_refs_ok.
    + by rewrite Hres.
    + unfold current_running, deref in *. by rewrite Hcur, Hpm.
    + simpl. exists s'. by rewrite Hpm', Hres', Hcur'.
Qed.

Lemma no_running_current_free s :
  well_formed s → no_running s → current_running s = Ok false.
Proof.
  intros [_ Hc] Hnone. unfold current_running, deref.
  destruct (current_process s) as [c|]; [| done].
  destruct (lookup_lt_is_Some_2 (processes (process_manager s)) c) as [p Hp];
    [by apply Hc |].
  rewrite Hp; simpl. rewrite bool_decide_eq_false_2; [done |]. by eapply Hnone.
Qed.

(** Round Robin with a quantum of at most 1: a cycle over a state in which
    nothing runs changes no process. *)
Lemma rr_quantum_one_cycle s s' ev :
  kind s = RoundRobin → quantum s ≤ 1 → no_running s →
  (∀ r p, processes (process_manager s) !! r = Some p →
          state p = Ready → 0 < burst_time p) →
  execute_cycle s = Ok (s', ev) →
  processes (process_manager s') = processes (process_manager s)
  ∧ (ev = idle ∨ ∃ r, ev = process_preempted r).
Proof.
  intros Hkind Hquantum Hnone Hpos (_ & _ & _ & _ & Hev)%execute_cycle_outcome.
  destruct ev as [|r|r|r|r].
  - destruct Hev as (-> & _). auto.
  - destruct Hev as (p & Hp & Hst & _ & _ & _ & _ & _ & _ & _ & Hno).
    destruct (Hno Hkind). split; [done |]. by eapply Hpos.
  - destruct Hev as (p & m & _ & Hp & Hst & _). by destruct (Hnone _ _ Hp).
  - destruct Hev as (p & _ & Hp & Hst & _). by destruct (Hnone _ _ Hp).
  - destruct Hev as (_ & p & q1 & q2 & Hp & _ & _ & _ & _ & _ & _ & Hcase).
    destruct Hcase as [(Hst & _ & _ & _ & _ & ->) | (_ & Hst & _)];
      [| by destruct (Hnone _ _ Hp)].
    rewrite <- Hst, set_state_same, list_insert_id by done. eauto.
Qed.

(** X13: Round Robin with a quantum of 1 or less starves every process.  The
    cycle that starts a process already uses up the quantum, so the process
    is preempted in that same cycle: from a state in which nothing runs and
    every Ready process has burst left, any number of cycles return only
    idle and process_preempted events and no process changes; no burst is
    ever consumed. *)
Theorem rr_quantum_of_one_never_runs_a_process s (n : nat) :
  kind s = RoundRobin → quantum s ≤ 1 →
  refs_ok s → no_running s →
  (∀ r p, processes (process_manager s) !! r = Some p →
          state p = Ready → 0 < burst_time p) →
  ∃ s' evs,
    run_cycles n s = Ok (s', evs)
    ∧ processes (process_manager s') = processes (process_manager s)
    ∧ Forall (λ ev, ev = idle ∨ ∃ r, ev = process_preempted r) evs.
Proof.
  revert s. induction n as [|n IH]; intros s Hkind Hquantum Hrefs Hnone Hpos;
    simpl.
  - exists s, []. by repeat split.
  - destruct (execute_cycle_total_free s Hrefs
                (no_running_current_free s (proj1 Hrefs) Hnone))
      as (s1 & ev & Hrun).
    pose proof (rr_quantum_one_cycle _ _ _ Hkind Hquantum Hnone Hpos Hrun)
      as [Hps Hev].
    pose proof Hrun as (_ & Hk & Hq & _)%execute_cycle_outcome.
    rewrite Hrun; simpl.
    destruct (IH s1) as (s' & evs & -> & Hps' & Hevs).
    + by rewrite Hk.
    + by rewrite Hq.
    + by eapply execute_cycle_refs_ok.
    + unfold no_running. by rewrite Hps.
    + by rewrite Hps.
    + simpl. exists s', (ev :: evs). split; [done |].
      split; [by rewrite Hps', Hps | by apply Forall_cons].
Qed.

(** One cycle of a scheduler without preemption whose current process
    runs. *)
Lemma running_step s c p :
  kind s ≠ RoundRobin →
  current_process s = Some c →
  processes (process_manager s) !! c = Some p →
  state p = Running →
  execute_cycle s
  = if bool_decide (burst_time p - 1 ≤ 0)
    then m ← release_memory (mem (resources s)) (pid p) (memory p);
         Ok (set_current_process
               (set_resources
                  (store (set_time s (time s + 1)) c
                     (set_state (set_burst_time p (burst_time p - 1)) Terminated))
                  (mkSystemResources true m))
               None,
             process_completed c)
    else Ok (store (set_time s (time s + 1)) c
               (set_burst_time p (burst_time p - 1)),
             process_running c).
Proof.
  intros Hkind Hcur Hp Hst.
  assert (execute_cycle s = base_execute_cycle s) as ->
    by (unfold execute_cycle; by destruct (kind s)).
  unfold base_execute_cycle, current_running, deref; simpl.
  rewrite Hcur, Hp; simpl. rewrite (bool_decide_eq_true_2 _ Hst); simpl.
  case_bool_decide; [| done].
  destruct (release_memory _ _ _) as [m|e]; simpl; [| done].
  unfold set_current_process, set_resources, set_cpu_available, store,
    set_process_manager, set_time; simpl.
  by rewrite list_insert_insert_eq.
Qed.

Lemma running_to_completion_steps (k : nat) : ∀ s c p m,
  kind s ≠ RoundRobin →
  current_process s = Some c →
  processes (process_manager s) !! c = Some p →
  state p = Running →
  release_memory (mem (resources s)) (pid p) (memory p) = Ok m →
  Z.max 1 (burst_time p) = Z.of_nat (S k) →
  ∃ s',
    run_cycles (S k) s
    = Ok (s', replicate k (process_running c) ++ [process_completed c])
    ∧ processes (process_manager s')
      = <[c := set_state (set_burst_time p (burst_time p - Z.of_nat (S k)))
                         Terminated]>
          (processes (process_manager s))
    ∧ ready_queue (process_manager s') = ready_queue (process_manager s)
    ∧ current_process s' = None
    ∧ resources s' = mkSystemResources true m
    ∧ time s' = time s + Z.of_nat (S k).
Proof.
  induction k as [|k IH]; intros s c p m Hkind Hcur Hp Hst Hrel Hmax.
  - cbn [run_cycles]. rewrite (running_step s c p) by done.
    rewrite bool_decide_eq_true_2 by lia. rewrite Hrel. simpl.
    eexists. split; [done |]. simpl. repeat split; lia.
  - assert (run_cycles 1 s
            = Ok (store (set_time s (time s + 1)) c
                    (set_burst_time p (burst_time p - 1)),
                  [process_running c])) as Hfirst.
    { cbn [run_cycles]. rewrite (running_step s c p) by done.
      by rewrite bool_decide_eq_false_2 by lia. }
    destruct (IH (store (set_time s (time s + 1)) c
                    (set_burst_time p (burst_time p - 1)))
                 c (set_burst_time p (burst_time p - 1)) m)
      as (s' & Hrest & Hps & Hq & Hcur' & Hres & Htime).
    + done.
    + done.
    + apply list_lookup_insert_eq. by eapply lookup_lt_Some.
    + done.
    + exact Hrel.
    + simpl. lia.
    + exists s'. split; [exact (run_cycles_add 1 (S k) _ _ _ _ _ Hfirst Hrest) |].
      rewrite Hps, Hq, Hcur', Hres, Htime.
      simpl. rewrite list_insert_insert_eq.
      repeat split; [| lia].
      do 3 f_equal. lia.
Qed.

(** X14: FCFS, SJF and Priority do not preempt.  A Running current process
    with burst b, whose memory the accounting releases ([release_memory]
    returns for its pid and memory), keeps the CPU for max(1, b) cycles: all
    but the last return process_running, the last returns process_completed;
    nothing else in the store changes, the queue keeps its order, and at the
    end the CPU is free and the accounting is the one the release
    returned. *)
Theorem running_process_runs_to_completion s c p (m : Memory) :
  kind s ≠ RoundRobin →
  current_process s = Some c →
  processes (process_manager s) !! c = Some p →
  state p = Running →
  release_memory (mem (resources s)) (pid p) (memory p) = Ok m →
  ∃ s',
    run_cycles (Z.to_nat (Z.max 1 (burst_time p))) s
    = Ok (s', replicate (Z.to_nat (Z.max 1 (burst_time p)) - 1)
                (process_running c) ++ [process_completed c])
    ∧ processes (process_manager s')
      = <[c := set_state
                 (set_burst_time p (burst_time p - Z.max 1 (burst_time p)))
                 Terminated]>
          (processes (process_manager s))
    ∧ ready_queue (process_manager s') = ready_queue (process_manager s)
    ∧ current_process s' = None
    ∧ cpu_available (resources s') = true
    ∧ mem (resources s') = m
    ∧ time s' = time s + Z.max 1 (burst_time p).
Proof.
  intros Hkind Hcur Hp Hst Hrel.
  destruct (Z.to_nat (Z.max 1 (burst_time p))) as [|k] eqn:Hk; [lia |].
  destruct (running_to_completion_steps k s c p m)
    as (s' & Hrun & Hps & Hq & Hcur' & Hres & Htime);
    [done | done | done | done | done | lia |].
  exists s'. replace (S k - 1)%nat with k by lia.
  replace (Z.max 1 (burst_time p)) with (Z.of_nat (S k)) by lia.
  rewrite Hres. done.
Qed.

End CycleInvariants.

(** ** Factory, mailboxes and buffer *)

Section FactoryInputs.
Context `{MM : MemoryModel}.

Lemma lower_ascii_idemp c : lower_ascii (lower_ascii c) = lower_ascii c.
Proof.
  destruct c as [[] [] [] [] [] [] [] []]; reflexivity.
Qed.

Lemma lower_idemp a : lower (lower a) = lower a.
Proof. induction a as [|c a IH]; simpl; [done |]. by rewrite lower_ascii_idemp, IH. Qed.

(** X15: the factory does not look at the case of the name, and it looks at
    the quantum only for round_robin. *)
Theorem factory_ignores_case_and_unused_quantum (a : string)
    (pm : ProcessManager) (r : SystemResources) (q1 q2 : Z) :
  create_scheduler (lower a) pm r q1 = create_scheduler a pm r q1
  ∧ (lower a ≠ "round_robin" →
     create_scheduler a pm r q1 = create_scheduler a pm r q2).
Proof.
  split.
  - unfold create_scheduler. by rewrite lower_idemp.
  - intros Hne. unfold create_scheduler.
    repeat case_bool_decide; done.
Qed.

End FactoryInputs.

Section MailboxFrames.
Context {Timestamp : Type}.
Implicit Types (mq : MessageQueue Timestamp) (q : list (Message Timestamp)).

(** X16: create_queue gives a pid without mailbox an empty one, leaves every
    existing mailbox with its messages (also the one of the pid itself), and
    doing it twice is doing it once. *)
Theorem create_queue_is_idempotent_and_keeps_messages mq (pid : Z) :
  (∀ pid', pid' ≠ pid →
     process_queues (create_queue mq pid) !! pid' = process_queues mq !! pid')
  ∧ (∀ q, process_queues mq !! pid = Some q → create_queue mq pid = mq)
  ∧ (process_queues mq !! pid = None →
     process_queues (create_queue mq pid) !! pid = Some []
     ∧ get_queue_size (create_queue mq pid) pid = 0)
  ∧ create_queue (create_queue mq pid) pid = create_queue mq pid.
Proof.
  unfold create_queue. split; [| split; [| split]].
  - intros pid' Hne. destruct (process_queues mq !! pid); [done |].
    simpl. by rewrite lookup_insert_ne.
  - by intros q ->.
  - intros Hnone. unfold get_queue_size. rewrite Hnone. simpl.
    by rewrite lookup_insert_eq.
  - destruct (process_queues mq !! pid) as [q|] eqn:Hq; [by rewrite Hq |].
    simpl. by rewrite lookup_insert_eq.
Qed.

(** X17: a send succeeds exactly when the receiver has a mailbox, and it
    changes the size of that mailbox only, by one; every other mailbox
    keeps its messages. *)
Theorem send_changes_one_mailbox_by_one mq (sender_pid receiver_pid : Z)
    (message : string) (now : Timestamp) :
  (snd (send_message mq sender_pid receiver_pid message now) = true
   ↔ is_Some (process_queues mq !! receiver_pid))
  ∧ (∀ pid, pid ≠ receiver_pid →
       process_queues (fst (send_message mq sender_pid receiver_pid message now))
         !! pid = process_queues mq !! pid)
  ∧ get_queue_size (fst (send_message mq sender_pid receiver_pid message now))
      receiver_pid
    = get_queue_size mq receiver_pid
      + (if snd (send_message mq sender_pid receiver_pid message now)
         then 1 else 0).
Proof.
  unfold send_message, get_queue_size.
  destruct (process_queues mq !! receiver_pid) as [q|] eqn:Hq; simpl.
  - split; [split; [eauto | done] |]. split.
    + intros pid Hne. by rewrite lookup_insert_ne.
    + rewrite lookup_insert_eq, length_app. simpl. lia.
  - split; [split; [done | by intros [? ?]] |]. split; [done |].
    rewrite Hq. lia.
Qed.

(** X18: a receive returns a message exactly when the mailbox of the pid holds
    one; it then shortens that mailbox by one and leaves every other
    mailbox alone; a pid without mailbox gets None and no mailbox. *)
Theorem receive_changes_one_mailbox_by_one mq (pid : Z) :
  (snd (receive_message mq pid) = None ↔ get_queue_size mq pid = 0)
  ∧ (∀ pid', pid' ≠ pid →
       process_queues (fst (receive_message mq pid)) !! pid'
       = process_queues mq !! pid')
  ∧ get_queue_size (fst (receive_message mq pid)) pid
    = get_queue_size mq pid
      - match snd (receive_message mq pid) with Some _ => 1 | None => 0 end
  ∧ (process_queues mq !! pid = None →
     process_queues (fst (receive_message mq pid)) !! pid = None).
Proof.
  unfold receive_message, get_queue_size.
  destruct (process_queues mq !! pid) as [[|m q]|] eqn:Hq; simpl.
  - rewrite Hq. simpl. repeat split; done.
  - rewrite lookup_insert_eq. split; [split; [done | lia] |]. split.
    + intros pid' Hne. by rewrite lookup_insert_ne.
    + split; [lia | done].
  - rewrite Hq. repeat split; done.
Qed.

(** X19: neither send nor receive makes or removes a mailbox; create_queue
    adds the one of its pid and removes none. *)
Theorem only_create_queue_makes_mailboxes mq (sender_pid pid : Z)
    (message : string) (now : Timestamp) :
  dom (process_queues (fst (send_message mq sender_pid pid message now)))
  = dom (process_queues mq)
  ∧ dom (process_queues (fst (receive_message mq pid))) = dom (process_queues mq)
  ∧ dom (process_queues (create_queue mq pid)) = {[pid]} ∪ dom (process_queues mq).
Proof.
  assert (is_Some (process_queues mq !! pid) →
          {[pid]} ∪ dom (process_queues mq) = dom (process_queues mq)) as Hin.
  { intros Hsome. apply subseteq_union_1_L, singleton_subseteq_l.
    by apply elem_of_dom. }
  unfold send_message, receive_message, create_queue.
  destruct (process_queues mq !! pid) as [[|m q]|] eqn:Hq; simpl;
    rewrite ?dom_insert_L; rewrite ?Hin by eauto; done.
Qed.

End MailboxFrames.

Section BufferOrder.

(** X20: the buffer is a FIFO queue whatever the calls: at any point the items
    accepted by produce, in order, are the items handed out by consume, in
    order, followed by the items still in the buffer. *)
Theorem buffer_hands_out_items_in_arrival_order (pc : ProducerConsumer)
    (cs : list call) :
  buffer pc ++ accepted pc cs = delivered pc cs ++ buffer (do_calls pc cs).
Proof.
  unfold do_calls.
  revert pc. induction cs as [|[item|] cs IH]; intros pc;
    cbn [accepted delivered fold_left do_call app].
  - by rewrite app_nil_r.
  - rewrite <- (IH (fst (produce pc item))). unfold produce.
    repeat case_bool_decide; simpl; [done | done |].
    by rewrite <- app_assoc.
  - rewrite <- app_assoc, <- (IH (fst (consume pc))). unfold consume.
    repeat case_bool_decide; simpl; [done | done |].
    by destruct (buffer pc).
Qed.

(** X21: between calls the counters agree with the buffer, so produce
    succeeds exactly when the buffer holds fewer than [N] items, and consume
    returns exactly the head of the buffer (None when it is empty). *)
Theorem produce_needs_room_consume_returns_head (N : Z) (cs : list call)
    (item : string) :
  snd (produce (do_calls (new_ProducerConsumer N) cs) item)
  = bool_decide (len (buffer (do_calls (new_ProducerConsumer N) cs)) < N)
  ∧ snd (consume (do_calls (new_ProducerConsumer N) cs))
    = head (buffer (do_calls (new_ProducerConsumer N) cs)).
Proof.
  pose proof (do_calls_buffer_inv N cs _ (new_buffer_inv N)) as (Hsize & Hsum & Hfull).
  revert Hsize Hsum Hfull.
  generalize (do_calls (new_ProducerConsumer N) cs) as pc.
  intros pc Hsize Hsum Hfull. unfold produce, consume. split.
  - repeat case_bool_decide; simpl; try done; lia.
  - repeat case_bool_decide; simpl.
    + destruct (buffer pc); [done | unfold len in *; simpl in *; lia].
    + lia.
    + by destruct (buffer pc).
Qed.

(** X22: a call changes neither the capacity nor the activity flags, and the
    mutual-exclusion counter is back at its value when the call returns; the
    log only grows at its end (what was logged stays, in place). *)
Theorem call_restores_mutex_and_appends_to_log (pc : ProducerConsumer)
    (c : call) :
  buffer_size (do_call pc c) = buffer_size pc
  ∧ value (mutex (do_call pc c)) = value (mutex pc)
  ∧ producer_active (do_call pc c) = producer_active pc
  ∧ consumer_active (do_call pc c) = consumer_active pc
  ∧ get_logs pc `prefix_of` get_logs (do_call pc c)
  ∧ (length (get_logs (do_call pc c)) ≤ length (get_logs pc) + 1)%nat.
Proof.
  assert (∀ l (x : string), l `prefix_of` l ++ [x]) as Hpre
    by (intros; by apply prefix_app_r).
  assert (∀ l (x : string), (length (l ++ [x]) ≤ length l + 1)%nat) as Hlen
    by (intros; rewrite length_app; simpl; lia).
  destruct c as [item|]; unfold do_call, produce, consume, get_logs.
  - repeat case_bool_decide; simpl;
      repeat split; try done; try lia; auto.
  - repeat case_bool_decide; simpl; [repeat split; try done; lia | |].
    + repeat split; try done; auto.
    + destruct (buffer pc); simpl; repeat split; try done; try lia; auto.
Qed.

(** X23: from a new buffer, the log has one entry for each call that
    succeeded and none for the others. *)
Theorem log_counts_the_successful_calls (N : Z) (cs : list call) :
  length (get_logs (do_calls (new_ProducerConsumer N) cs))
  = (length (accepted (new_ProducerConsumer N) cs)
     + length (delivered (new_ProducerConsumer N) cs))%nat.
Proof.
  assert (∀ pc, buffer_inv N pc →
            length (logs (do_calls pc cs))
            = (length (logs pc) + length (accepted pc cs)
               + length (delivered pc cs))%nat) as Hgen.
  { induction cs as [|[item|] cs IH]; intros pc Hinv; simpl.
    - lia.
    - rewrite IH by (by apply produce_buffer_inv).
      destruct Hinv as (Hsize & Hsum & Hfull).
      unfold produce. repeat case_bool_decide; simpl; try lia.
      rewrite !length_app. simpl. lia.
    - rewrite IH by (by apply consume_buffer_inv).
      destruct Hinv as (Hsize & Hsum & Hfull).
      unfold consume. repeat case_bool_decide; simpl; try lia.
      destruct (buffer pc); simpl; [lia |].
      rewrite !length_app. simpl. lia. }
  unfold get_logs. rewrite (Hgen _ (new_buffer_inv N)). simpl. lia.
Qed.

End BufferOrder.

(** ** The driver *)

Section DriverProperties.
Context `{MM : MemoryModel}.
Implicit Types (s : Scheduler) (c : Cli.t) (ps : list Process) (r : nat).

Lemma find_process_Some ps n r p :
  find_process ps n = Some (r, p) → ps !! r = Some p ∧ pid p = n.
Proof.
  unfold find_process. intros (Hp & Hpid & _)%list_find_Some. done.
Qed.

(** The scheduler after each administrative operation. *)
Lemma suspend_process_scheduler c n :
  Cli.scheduler (Cli.suspend_process c n)
  = match find_process (processes (process_manager (Cli.scheduler c))) n with
    | Some (r, p) =>
        if bool_decide (state p = Running) || bool_decide (state p = Ready)
        then store (if bool_decide (state p = Running)
                    then set_cpu_available (Cli.scheduler c) true
                    else Cli.scheduler c) r (set_state p Waiting)
        else Cli.scheduler c
    | None => Cli.scheduler c
    end.
Proof.
  unfold Cli.suspend_process.
  destruct (find_process _ n) as [[r p]|]; [| done].
  by destruct (_ || _).
Qed.

Lemma resume_process_scheduler c n :
  Cli.scheduler (Cli.resume_process c n)
  = match find_process (processes (process_manager (Cli.scheduler c))) n with
    | Some (r, p) =>
        if bool_decide (state p = Waiting)
        then store (Cli.scheduler c) r (set_state p Ready)
        else Cli.scheduler c
    | None => Cli.scheduler c
    end.
Proof.
  unfold Cli.resume_process.
  destruct (find_process _ n) as [[r p]|]; [| done].
  by destruct (bool_decide _).
Qed.

Lemma terminate_process_scheduler c n c' :
  Cli.terminate_process c n = Ok c' →
  match find_process (processes (process_manager (Cli.scheduler c))) n with
  | Some (r, p) =>
      if bool_decide (state p = Terminated)
      then Cli.scheduler c' = Cli.scheduler c
      else
        ∃ m,
          release_memory (mem (resources (Cli.scheduler c))) (pid p) (memory p)
          = Ok m
          ∧ Cli.scheduler c'
            = store
                (set_resources (Cli.scheduler c)
                   (mkSystemResources
                      (cpu_available (resources (Cli.scheduler c))
                       || bool_decide (state p = Running))
                      m))
                r (set_state p Terminated)
  | None => Cli.scheduler c' = Cli.scheduler c
  end.
Proof.
  unfold Cli.terminate_process.
  destruct (find_process _ n) as [[r p]|]; [| by intros [= <-]].
  destruct (bool_decide (state p = Terminated)); [by intros [= <-] |].
  intros (m & Hrel & [= <-])%bind_Ok_inv. exists m.
  revert Hrel. case_bool_decide; simpl; intros Hrel; (split; [exact Hrel |]).
  - by rewrite orb_true_r.
  - by rewrite orb_false_r.
Qed.

(** Taking a process out of the Ready or Running state, freeing the CPU
    when it was Running, keeps the mutual exclusion that the CPU flag
    guards. *)
Lemma cpu_inv_take_out s s' r p p' :
  at_most_one_running s → cpu_guard s →
  processes (process_manager s) !! r = Some p →
  state p' ≠ Running →
  processes (process_manager s') = <[r := p']> (processes (process_manager s)) →
  cpu_available (resources s')
  = cpu_available (resources s) || bool_decide (state p = Running) →
  at_most_one_running s' ∧ cpu_guard s'.
Proof.
  intros Hone Hguard Hp Hst' Hps Hcpu.
  unfold at_most_one_running, cpu_guard, no_running in *.
  rewrite Hps, Hcpu.
  assert (∀ r0 p0, <[r := p']> (processes (process_manager s)) !! r0 = Some p0 →
                   state p0 = Running →
                   r0 ≠ r ∧ processes (process_manager s) !! r0 = Some p0) as Hold.
  { intros r0 p0 Hp0 Hst0. destruct (decide (r0 = r)) as [->|Hne].
    - rewrite list_lookup_insert_eq in Hp0 by (by eapply lookup_lt_Some).
      by injection Hp0 as <-.
    - by rewrite list_lookup_insert_ne in Hp0. }
  split.
  - intros r1 r2 p1 p2 Hp1 Hp2 Hst1 Hst2.
    destruct (Hold _ _ Hp1 Hst1) as [_ Hp1'].
    destruct (Hold _ _ Hp2 Hst2) as [_ Hp2']. by eapply Hone.
  - intros Hfree r0 p0 Hp0 Hst0.
    destruct (Hold _ _ Hp0 Hst0) as [Hne Hp0'].
    apply orb_true_iff in Hfree as [Hfree | Hrun%bool_decide_eq_true].
    + by destruct (Hguard Hfree _ _ Hp0').
    + by specialize (Hone _ _ _ _ Hp0' Hp Hst0 Hrun).
Qed.

Lemma suspend_process_cpu_inv c n :
  at_most_one_running (Cli.scheduler c) → cpu_guard (Cli.scheduler c) →
  at_most_one_running (Cli.scheduler (Cli.suspend_process c n))
  ∧ cpu_guard (Cli.scheduler (Cli.suspend_process c n)).
Proof.
  intros Hone Hguard. rewrite suspend_process_scheduler.
  destruct (find_process _ n) as [[r p]|] eqn:Hfind; [| done].
  apply find_process_Some in Hfind as [Hp _].
  destruct (_ || _) eqn:Hok; [| done].
  eapply (cpu_inv_take_out _ _ r p (set_state p Waiting)); try done;
    case_bool_decide; simpl; rewrite ?orb_true_r, ?orb_false_r; done.
Qed.

Lemma resume_process_cpu_inv c n :
  at_most_one_running (Cli.scheduler c) → cpu_guard (Cli.scheduler c) →
  at_most_one_running (Cli.scheduler (Cli.resume_process c n))
  ∧ cpu_guard (Cli.scheduler (Cli.resume_process c n)).
Proof.
  intros Hone Hguard. rewrite resume_process_scheduler.
  destruct (find_process _ n) as [[r p]|] eqn:Hfind; [| done].
  apply find_process_Some in Hfind as [Hp _].
  case_bool_decide as Hst; [| done].
  eapply (cpu_inv_take_out _ _ r p (set_state p Ready)); try done.
  simpl. rewrite bool_decide_eq_false_2 by congruence. by rewrite orb_false_r.
Qed.

Lemma terminate_process_cpu_inv c n c' :
  at_most_one_running (Cli.scheduler c) → cpu_guard (Cli.scheduler c) →
  Cli.terminate_process c n = Ok c' →
  at_most_one_running (Cli.scheduler c') ∧ cpu_guard (Cli.scheduler c').
Proof.
  intros Hone Hguard Hterm%terminate_process_scheduler.
  destruct (find_process _ n) as [[r p]|] eqn:Hfind; [| by rewrite Hterm].
  apply find_process_Some in Hfind as [Hp _].
  case_bool_decide as Hst; [by rewrite Hterm |].
  destruct Hterm as (m & _ & ->).
  by eapply (cpu_inv_take_out _ _ r p (set_state p Terminated)).
Qed.

Lemma create_scheduler_Ok_inv a pm res q s :
  create_scheduler a pm res q = Ok s →
  process_manager s = pm ∧ resources s = res ∧ current_process s = None.
Proof.
  unfold create_scheduler. repeat case_bool_decide; by intros [= <-].
Qed.

(** A change of algorithm keeps the process manager and the resources. *)
Lemma change_algorithm_keeps c c' option quantum_input :
  Cli.change_algorithm c option quantum_input = Ok c' →
  process_manager (Cli.scheduler c') = process_manager (Cli.scheduler c)
  ∧ resources (Cli.scheduler c') = resources (Cli.scheduler c).
Proof.
  unfold Cli.change_algorithm.
  intros (c1 & Hsetup & [= <-])%bind_Ok_inv.
  unfold Cli._setup_scheduler in Hsetup.
  apply bind_Ok_inv in Hsetup as (s1 & Hmake & [= <-]).
  apply create_scheduler_Ok_inv in Hmake as (Hpm & Hres & _).
  simpl. rewrite Hpm, Hres. by repeat case_bool_decide.
Qed.

Lemma handle_simulation_event_scheduler c c' ev :
  Cli._handle_simulation_event c ev = Ok c' →
  Cli.scheduler c' = Cli.scheduler c.
Proof.
  unfold Cli._handle_simulation_event.
  destruct ev as [|r|r|r|r]; cbv zeta;
    try (by intros [= <-]);
    intros (p & _ & Hret)%bind_Ok_inv; by injection Hret as <-.
Qed.

Lemma simulation_loop_cpu_inv n : ∀ c c',
  at_most_one_running (Cli.scheduler c) → cpu_guard (Cli.scheduler c) →
  Cli.simulation_loop n c = Ok c' →
  at_most_one_running (Cli.scheduler c') ∧ cpu_guard (Cli.scheduler c').
Proof.
  induction n as [|n IH]; intros c c' Hone Hguard; simpl;
    [by intros [= <-] |].
  intros ([s1 ev] & Hrun & Hrest)%bind_Ok_inv.
  apply bind_Ok_inv in Hrest as (c1 & Hc1 & Hloop).
  apply handle_simulation_event_scheduler in Hc1. simpl in Hc1.
  destruct (execute_cycle_cpu_inv _ _ _ Hone Hguard Hrun) as [Hone1 Hguard1].
  eapply IH; [| | exact Hloop]; by rewrite Hc1.
Qed.

Lemma do_ops_cpu_inv os : ∀ c c',
  at_most_one_running (Cli.scheduler c) → cpu_guard (Cli.scheduler c) →
  Cli.do_ops c os = Ok c' →
  at_most_one_running (Cli.scheduler c') ∧ cpu_guard (Cli.scheduler c').
Proof.
  induction os as [|o os IH]; intros c c' Hone Hguard; simpl;
    [by intros [= <-] |].
  intros (c1 & Hop & Hrest)%bind_Ok_inv.
  assert (at_most_one_running (Cli.scheduler c1) ∧ cpu_guard (Cli.scheduler c1))
    as [Hone1 Hguard1].
  { destruct o as [cycles | n | n | n | option quantum_input]; simpl in Hop.
    - by eapply simulation_loop_cpu_inv.
    - injection Hop as <-. by apply suspend_process_cpu_inv.
    - injection Hop as <-. by apply resume_process_cpu_inv.
    - by eapply terminate_process_cpu_inv.
    - apply change_algorithm_keeps in Hop as [Hpm Hres].
      unfold at_most_one_running, cpu_guard, no_running in *.
      by rewrite Hpm, Hres. }
  by eapply IH.
Qed.

(** X24: whatever the user does, at most one process runs.  From a driver
    state in which at most one process is Running and the CPU is free only
    if none is, every sequence of simulation loops, suspensions,
    resumptions, forced terminations and changes of algorithm that returns
    ends in such a state again.  (Nothing is said of sequences that raise,
    nor of what [run_simulation] displays after its loop.) *)
Theorem driver_keeps_at_most_one_process_running c c' (os : list Cli.op) :
  at_most_one_running (Cli.scheduler c) →
  cpu_guard (Cli.scheduler c) →
  Cli.do_ops c os = Ok c' →
  at_most_one_running (Cli.scheduler c') ∧ cpu_guard (Cli.scheduler c').
Proof. apply do_ops_cpu_inv. Qed.

End DriverProperties.

Section DriverEffects.
Context `{MM : MemoryModel}.
Implicit Types (s : Scheduler) (c : Cli.t) (ps : list Process) (r : nat).

(** A cycle leaves the processes that are Waiting or Terminated as they
    are. *)
Lemma execute_cycle_stopped s s' ev r p :
  execute_cycle s = Ok (s', ev) →
  processes (process_manager s) !! r = Some p →
  state p = Waiting ∨ state p = Terminated →
  processes (process_manager s') !! r = Some p.
Proof.
  intros Hstore%execute_cycle_store Hp Hst.
  destruct (event_process ev) as [r0|]; [| by rewrite Hstore].
  destruct Hstore as (p0 & p0' & Hp0 & -> & _ & _ & _ & _ & _ & Hbefore & _).
  rewrite list_lookup_insert_ne; [done |].
  intros ->. rewrite Hp in Hp0. injection Hp0 as <-.
  destruct Hst as [Hst|Hst], Hbefore as [Hb|Hb]; congruence.
Qed.

Lemma simulation_loop_terminated n : ∀ c c' r p,
  Cli.simulation_loop n c = Ok c' →
  processes (process_manager (Cli.scheduler c)) !! r = Some p →
  state p = Terminated →
  processes (process_manager (Cli.scheduler c')) !! r = Some p.
Proof.
  induction n as [|n IH]; intros c c' r p; simpl; [by intros [= <-] |].
  intros ([s1 ev] & Hrun & Hrest)%bind_Ok_inv Hp Hst.
  apply bind_Ok_inv in Hrest as (c1 & Hc1 & Hloop).
  apply handle_simulation_event_scheduler in Hc1. simpl in Hc1.
  eapply IH; [exact Hloop | | done].
  rewrite Hc1. eapply execute_cycle_stopped; eauto.
Qed.

(** What the three administrative operations do to a process. *)
Lemma administrative_effect c n r p :
  processes (process_manager (Cli.scheduler c)) !! r = Some p →
  (∃ p', processes (process_manager (Cli.scheduler (Cli.suspend_process c n))) !! r
         = Some p'
         ∧ (p' = p
            ∨ (pid p = n ∧ (state p = Ready ∨ state p = Running)
               ∧ p' = set_state p Waiting)))
  ∧ (∃ p', processes (process_manager (Cli.scheduler (Cli.resume_process c n))) !! r
           = Some p'
           ∧ (p' = p
              ∨ (pid p = n ∧ state p = Waiting ∧ p' = set_state p Ready)))
  ∧ (∀ c', Cli.terminate_process c n = Ok c' →
       ∃ p', processes (process_manager (Cli.scheduler c')) !! r = Some p'
             ∧ (p' = p
                ∨ (pid p = n ∧ state p ≠ Terminated
                   ∧ p' = set_state p Terminated))).
Proof.
  intros Hp.
  rewrite suspend_process_scheduler, resume_process_scheduler.
  generalize (terminate_process_scheduler c n).
  destruct (find_process _ n) as [[r0 p0]|] eqn:Hfind; intros Hterm.
  2: { split; [| split]; [by exists p; auto .. |].
       intros c' ->%Hterm. exists p; auto. }
  apply find_process_Some in Hfind as [Hp0 Hpid].
  assert (∀ st s0,
            processes (process_manager s0)
            = processes (process_manager (Cli.scheduler c)) →
            ∃ p', processes (process_manager (store s0 r0 (set_state p0 st))) !! r
                  = Some p'
                  ∧ (p' = p ∨ (r = r0 ∧ p0 = p ∧ p' = set_state p st))) as Hstore.
  { intros st s0 Hs0. simpl. rewrite Hs0.
    destruct (decide (r = r0)) as [->|Hne].
    - rewrite list_lookup_insert_eq by (by eapply lookup_lt_Some).
      rewrite Hp in Hp0. injection Hp0 as <-. eauto 10.
    - rewrite list_lookup_insert_ne by done. eauto. }
  split; [| split].
  - destruct (bool_decide (state p0 = Running) || bool_decide (state p0 = Ready))
      eqn:Hok; [| by eauto].
    destruct (Hstore Waiting
                (if bool_decide (state p0 = Running)
                 then set_cpu_available (Cli.scheduler c) true
                 else Cli.scheduler c)) as (p' & Hp' & Hcase);
      [by case_bool_decide |].
    exists p'. split; [done |].
    destruct Hcase as [->|(-> & -> & ->)]; [by left | right].
    apply orb_true_iff in Hok as [?%bool_decide_eq_true|?%bool_decide_eq_true];
      auto.
  - clear Hterm. case_bool_decide as Hst; [| by eauto].
    destruct (Hstore Ready (Cli.scheduler c)) as (p' & Hp' & Hcase); [done |].
    exists p'. split; [done |].
    destruct Hcase as [->|(-> & -> & ->)]; [by left | by right].
  - intros c' Hc'%Hterm.
    case_bool_decide as Hst; [rewrite Hc'; eauto |].
    destruct Hc' as (m & _ & ->).
    match goal with
    | |- ∃ p', processes (process_manager (store ?s0 _ _)) !! _ = _ ∧ _ =>
        destruct (Hstore Terminated s0) as (p' & Hp' & Hcase); [done |]
    end.
    exists p'. split; [done |].
    destruct Hcase as [->|(-> & -> & ->)]; [by left | by right].
Qed.

(** X25: the administrative operations move a process only along the edges
    Ready→Waiting and Running→Waiting (suspend), Waiting→Ready (resume), and
    from any state but Terminated to Terminated (terminate, when it
    returns), and only a process that carries the requested pid; every other
    process, and every field but the state, is left as it is. *)
Theorem administrative_operations_follow_the_state_machine c (n : Z) r p :
  processes (process_manager (Cli.scheduler c)) !! r = Some p →
  (∃ p', processes (process_manager (Cli.scheduler (Cli.suspend_process c n))) !! r
         = Some p'
         ∧ (p' = p
            ∨ (pid p = n ∧ (state p = Ready ∨ state p = Running)
               ∧ p' = set_state p Waiting)))
  ∧ (∃ p', processes (process_manager (Cli.scheduler (Cli.resume_process c n))) !! r
           = Some p'
           ∧ (p' = p
              ∨ (pid p = n ∧ state p = Waiting ∧ p' = set_state p Ready)))
  ∧ (∀ c', Cli.terminate_process c n = Ok c' →
       ∃ p', processes (process_manager (Cli.scheduler c')) !! r = Some p'
             ∧ (p' = p
                ∨ (pid p = n ∧ state p ≠ Terminated
                   ∧ p' = set_state p Terminated))).
Proof. apply administrative_effect. Qed.

Lemma do_op_terminated c c' (o : Cli.op) r p :
  Cli.do_op c o = Ok c' →
  processes (process_manager (Cli.scheduler c)) !! r = Some p →
  state p = Terminated →
  processes (process_manager (Cli.scheduler c')) !! r = Some p.
Proof.
  intros Hop Hp Hst.
  destruct o as [cycles|n|n|n|option quantum_input]; simpl in Hop.
  - by eapply simulation_loop_terminated.
  - injection Hop as <-.
    destruct (administrative_effect c n r p Hp) as ((p' & Hp' & Hcase) & _).
    rewrite Hp'. destruct Hcase as [->|(_ & [?|?] & _)]; [done | congruence ..].
  - injection Hop as <-.
    destruct (administrative_effect c n r p Hp) as (_ & (p' & Hp' & Hcase) & _).
    rewrite Hp'. destruct Hcase as [->|(_ & ? & _)]; [done | congruence].
  - destruct (administrative_effect c n r p Hp) as (_ & _ & Hterm).
    destruct (Hterm c' Hop) as (p' & Hp' & Hcase).
    rewrite Hp'. by destruct Hcase as [->|(_ & ? & _)].
  - unfold Cli.change_algorithm in Hop.
    apply bind_Ok_inv in Hop as (c1 & Hsetup & [= <-]).
    unfold Cli._setup_scheduler in Hsetup.
    apply bind_Ok_inv in Hsetup as (s1 & Hs1 & [= <-]).
    apply create_scheduler_Ok_inv in Hs1 as (Hpm & _). simpl. rewrite Hpm.
    by repeat case_bool_decide.
Qed.

(** X26: Terminated is final.  Whatever the driver does next (simulation runs
    under any algorithm, suspend, resume, terminate, changes of algorithm),
    the record of a Terminated process stays as it is: it is never run,
    resumed or terminated again, and its burst is never touched. *)
Theorem terminated_process_is_never_changed c c' (os : list Cli.op) r p :
  Cli.do_ops c os = Ok c' →
  processes (process_manager (Cli.scheduler c)) !! r = Some p →
  state p = Terminated →
  processes (process_manager (Cli.scheduler c')) !! r = Some p.
Proof.
  revert c. induction os as [|o os IH]; intros c; simpl; [by intros [= <-] |].
  intros (c1 & Hop & Hrest)%bind_Ok_inv Hp Hst.
  eapply IH; [exact Hrest | | done]. by eapply do_op_terminated.
Qed.

(** The prints of the loop of [show_logs]. *)
Lemma show_logs_loop (items : list (nat * string)) : ∀ c,
  Cli.console
    (foldl (λ c '(i, l),
              Cli.print c (Text (pretty (len (Cli.logs c) - 10 + Z.of_nat i + 1)
                                 +:+ ". " +:+ l)))
           c items)
  = Cli.console c
    ++ ((λ '(i, l), Text (pretty (len (Cli.logs c) - 10 + Z.of_nat i + 1)
                          +:+ ". " +:+ l)) <$> items)
  ∧ Cli.logs
      (foldl (λ c '(i, l),
                Cli.print c (Text (pretty (len (Cli.logs c) - 10 + Z.of_nat i + 1)
                                   +:+ ". " +:+ l)))
             c items)
    = Cli.logs c.
Proof.
  induction items as [|[i l] items IH]; intros c; simpl.
  - by rewrite app_nil_r.
  - destruct (IH (Cli.print c (Text (pretty (len (Cli.logs c) - 10 + Z.of_nat i + 1)
                                     +:+ ". " +:+ l)))) as [-> ->].
    simpl. by rewrite <- app_assoc.
Qed.

(** X27: show_logs prints the last ten entries of the log, oldest first (all
    of them when there are fewer).  The number it puts before an entry is
    the position of the entry in the log when the log has at least ten
    entries; with fewer than ten entries it is that position minus the
    number of entries missing to ten, so that the first line carries the
    number length - 9, which is 0 or less. *)
Theorem show_logs_numbers_are_positions_from_ten_entries_on c :
  Cli.logs c ≠ [] →
  Cli.console (Cli.show_logs c)
  = Cli.console c
    ++ Text "[bold]Últimos eventos:[/bold]"
       :: imap (λ i l,
                  Text (pretty (Z.of_nat (length (Cli.logs c) - 10 + i) + 1
                                - Z.max 0 (10 - len (Cli.logs c)))
                        +:+ ". " +:+ l))
               (Cli.last_ten (Cli.logs c))
  ∧ (∀ i l, Cli.last_ten (Cli.logs c) !! i = Some l →
            Cli.logs c !! (length (Cli.logs c) - 10 + i)%nat = Some l)
  ∧ length (Cli.last_ten (Cli.logs c)) = (length (Cli.logs c) `min` 10)%nat.
Proof.
  intros Hne. unfold Cli.show_logs.
  destruct (Cli.logs c) as [|l0 ls] eqn:Hlogs; [done |].
  rewrite <- Hlogs. clear Hne.
  split; [| split].
  - match goal with
    | |- Cli.console (foldl _ ?c0 ?items) = _ =>
        destruct (show_logs_loop items c0) as [-> _]
    end.
    simpl. rewrite <- app_assoc. simpl. do 2 f_equal.
    unfold Cli.enumerate. rewrite fmap_imap. apply imap_ext.
    intros i l _. simpl. do 3 f_equal. unfold len. lia.
  - intros i l. unfold Cli.last_ten. by rewrite lookup_drop.
  - unfold Cli.last_ten. rewrite length_drop. lia.
Qed.

End DriverEffects.

Section ViewMessages.
Context `{MM : MemoryModel} {Timestamp : Type}.

(** X28: view_messages is a destructive read.  For a known process whose
    mailbox holds messages, it prints them all in arrival order, one row
    (sender, content) each, and leaves the mailbox empty; the other
    mailboxes and the simulation are untouched. *)
Theorem view_messages_empties_the_mailbox (c : Cli.t)
    (ms : MessageQueue Timestamp) (n : Z) (m : Message Timestamp)
    (q : list (Message Timestamp)) :
  is_Some (find_process (processes (process_manager (Cli.scheduler c))) n) →
  process_queues ms !! n = Some (m :: q) →
  Cli.console (fst (Cli.view_messages c ms n))
  = Cli.console c
    ++ [Text ("[bold]Mensajes del proceso " +:+ pretty n +:+ ":[/bold]");
        Table ("Cola de mensajes: Proceso " +:+ pretty n) ["De"; "Mensaje"]
              ((λ m, [pretty (sender m); content m]) <$> (m :: q))]
  ∧ process_queues (snd (Cli.view_messages c ms n)) = <[n := []]> (process_queues ms)
  ∧ get_queue_size (snd (Cli.view_messages c ms n)) n = 0
  ∧ Cli.scheduler (fst (Cli.view_messages c ms n)) = Cli.scheduler c
  ∧ Cli.logs (fst (Cli.view_messages c ms n)) = Cli.logs c.
Proof.
  intros [found Hfound] Hq.
  assert (get_queue_size ms n = Z.of_nat (length (m :: q))) as Hsize
    by (unfold get_queue_size; by rewrite Hq).
  assert (omap (λ message : option (Message Timestamp),
                  (λ m0, [pretty (sender m0); content m0]) <$> message)
               (Some <$> m :: q)
          = (λ m0, [pretty (sender m0); content m0]) <$> (m :: q)) as Hrows.
  { generalize (m :: q). intros l. induction l as [|x l IH]; [done |].
    simpl. f_equal. exact IH. }
  assert (Cli.view_messages c ms n
          = (Cli.print
               (Cli.print c
                  (Text ("[bold]Mensajes del proceso " +:+ pretty n +:+ ":[/bold]")))
               (Table ("Cola de mensajes: Proceso " +:+ pretty n) ["De"; "Mensaje"]
                      ((λ m0, [pretty (sender m0); content m0]) <$> (m :: q))),
             mkMessageQueue (<[n := []]> (process_queues ms)))) as ->.
  { unfold Cli.view_messages. rewrite Hfound, Hsize.
    rewrite bool_decide_eq_false_2 by (simpl; lia).
    rewrite Nat2Z.id, (receive_many_queue (m :: q) ms n Hq).
    by rewrite Hrows. }
  cbn [fst snd]. unfold get_queue_size. cbn [process_queues].
  rewrite lookup_insert_eq. simpl. rewrite <- app_assoc. done.
Qed.

End ViewMessages.

(** ** Releases of memory *)

Section ReleaseOnce.

Local Abbreviation Sched := (@Scheduler recording_memory).
Local Abbreviation Driver := (@Cli.t recording_memory).

Lemma pids_insert (ps : list Process) r p p' :
  ps !! r = Some p → pid p' = pid p → pid <$> <[r := p']> ps = pid <$> ps.
Proof.
  intros Hp Hpid. rewrite list_fmap_insert, Hpid.
  apply list_insert_id. by rewrite list_lookup_fmap, Hp.
Qed.

Lemma pids_inj (ps : list Process) r1 r2 p1 p2 :
  NoDup (pid <$> ps) → ps !! r1 = Some p1 → ps !! r2 = Some p2 →
  pid p1 = pid p2 → r1 = r2.
Proof.
  intros Hnd H1 H2 Heq.
  eapply NoDup_lookup; [exact Hnd | |].
  - rewrite list_lookup_fmap, H1. reflexivity.
  - rewrite list_lookup_fmap, H2. simpl. by rewrite Heq.
Qed.

Lemma release_inv_same (s s' : Sched) :
  release_inv s →
  processes (process_manager s') = processes (process_manager s) →
  released s' = released s →
  release_inv s'.
Proof.
  intros (Hnd & Hrel & Hiff) Hps Hmem. unfold release_inv.
  rewrite Hps, Hmem. done.
Qed.

(** A process that was not Terminated and is not Terminated afterwards. *)
Lemma release_inv_keep (s s' : Sched) r p p' :
  release_inv s →
  processes (process_manager s) !! r = Some p →
  state p ≠ Terminated → state p' ≠ Terminated →
  pid p' = pid p → memory p' = memory p →
  processes (process_manager s') = <[r := p']> (processes (process_manager s)) →
  released s' = released s →
  release_inv s'.
Proof.
  intros (Hnd & Hrel & Hiff) Hp Hst Hst' Hpid Hmemory Hps Hmem.
  unfold release_inv. rewrite Hps, Hmem.
  rewrite (pids_insert _ _ _ _ Hp Hpid).
  split; [done |]. split; [done |].
  intros n a. rewrite Hiff. split.
  - intros (r0 & p0 & Hp0 & Hn & Ha & Ht).
    exists r0, p0. split; [| done].
    rewrite list_lookup_insert_ne; [done |].
    intros ->. rewrite Hp in Hp0. injection Hp0 as <-. done.
  - intros (r0 & p0 & Hp0 & Hn & Ha & Ht).
    destruct (decide (r = r0)) as [<- | Hne].
    + rewrite list_lookup_insert_eq in Hp0
        by (by apply lookup_lt_is_Some_1; eexists).
      injection Hp0 as <-. done.
    + rewrite list_lookup_insert_ne in Hp0 by done.
      by exists r0, p0.
Qed.

(** A process that was not Terminated becomes Terminated, and the call is
    recorded. *)
Lemma release_inv_release (s s' : Sched) r p p' :
  release_inv s →
  processes (process_manager s) !! r = Some p →
  state p ≠ Terminated → state p' = Terminated →
  pid p' = pid p → memory p' = memory p →
  processes (process_manager s') = <[r := p']> (processes (process_manager s)) →
  released s' = released s ++ [(pid p, memory p)] →
  release_inv s'.
Proof.
  intros (Hnd & Hrel & Hiff) Hp Hst Hst' Hpid Hmemory Hps Hmem.
  assert (Hlt : (r < length (processes (process_manager s)))%nat)
    by (by apply lookup_lt_is_Some_1; eexists).
  unfold release_inv. rewrite Hps, Hmem.
  rewrite (pids_insert _ _ _ _ Hp Hpid).
  split; [done |]. split.
  - rewrite fmap_app. simpl. apply NoDup_app. split; [done |].
    split; [| apply NoDup_singleton].
    intros n Hn Hn'. apply list_elem_of_singleton in Hn' as ->.
    apply list_elem_of_fmap in Hn as ([n a] & Hna & Hin). simpl in Hna.
    apply Hiff in Hin as (r0 & p0 & Hp0 & Hn0 & _ & Ht).
    assert (r0 = r) as ->
      by (eapply pids_inj; [exact Hnd | exact Hp0 | exact Hp | congruence]).
    rewrite Hp in Hp0. injection Hp0 as <-. done.
  - intros n a. rewrite elem_of_app, list_elem_of_singleton, Hiff. split.
    + intros [(r0 & p0 & Hp0 & Hn & Ha & Ht) | [= -> ->]].
      * exists r0, p0. split; [| done].
        rewrite list_lookup_insert_ne; [done |].
        intros ->. rewrite Hp in Hp0. injection Hp0 as <-. done.
      * exists r, p'. by rewrite list_lookup_insert_eq.
    + intros (r0 & p0 & Hp0 & Hn & Ha & Ht).
      destruct (decide (r = r0)) as [<- | Hne].
      * rewrite list_lookup_insert_eq in Hp0 by done.
        injection Hp0 as <-. right. congruence.
      * rewrite list_lookup_insert_ne in Hp0 by done.
        left. by exists r0, p0.
Qed.

Lemma execute_cycle_release_inv (s s' : Sched) ev :
  release_inv s → execute_cycle s = Ok (s', ev) → release_inv s'.
Proof.
  intros Hinv Hrun.
  destruct (execute_cycle_outcome s s' ev Hrun) as (_ & _ & _ & _ & Hev).
  destruct ev as [|r|r|r|r].
  - destruct Hev as (Hpm & Hres & _).
    apply (release_inv_same s); [done | by rewrite Hpm |].
    unfold released. by rewrite Hres.
  - destruct Hev as (p & Hp & Hst & _ & _ & _ & Hps & _ & Hres & _).
    apply (release_inv_keep s s' r p (set_state p Running)); try done.
    + rewrite Hst. done.
    + unfold released. by rewrite Hres.
  - destruct Hev as (p & m & _ & Hp & Hst & _ & Hps & _ & Hrel & Hres & _).
    apply (release_inv_release s s' r p
             (set_state (set_burst_time p (burst_time p - 1)) Terminated));
      try done.
    + rewrite Hst. done.
    + unfold released. rewrite Hres. simpl in *. by injection Hrel as <-.
  - destruct Hev as (p & _ & Hp & Hst & _ & Hps & _ & Hres & _).
    apply (release_inv_keep s s' r p (set_burst_time p (burst_time p - 1)));
      try done.
    + rewrite Hst. done.
    + simpl. rewrite Hst. done.
    + unfold released. by rewrite Hres.
  - destruct Hev as (_ & p & q1 & q2 & Hp & _ & _ & _ & Hres & _ & _ & Hcase).
    destruct Hcase as [(Hst & _ & _ & _ & _ & Hps) | (_ & Hst & _ & _ & Hps)].
    + apply (release_inv_keep s s' r p (set_state p Ready)); try done.
      * rewrite Hst. done.
      * unfold released. by rewrite Hres.
    + apply (release_inv_keep s s' r p
               (set_state (set_burst_time p (burst_time p - 1)) Ready));
        try done.
      * rewrite Hst. done.
      * unfold released. by rewrite Hres.
Qed.

Lemma simulation_loop_release_inv n : ∀ (c c' : Driver),
  release_inv (Cli.scheduler c) → Cli.simulation_loop n c = Ok c' →
  release_inv (Cli.scheduler c').
Proof.
  induction n as [|n IH]; intros c c' Hinv; simpl; [by intros [= <-] |].
  intros ([s1 ev] & Hrun & Hrest)%bind_Ok_inv.
  apply bind_Ok_inv in Hrest as (c1 & Hc1 & Hloop).
  apply handle_simulation_event_scheduler in Hc1. simpl in Hc1.
  eapply IH; [| exact Hloop].
  rewrite Hc1. eapply execute_cycle_release_inv; eauto.
Qed.

Lemma suspend_process_release_inv (c : Driver) n :
  release_inv (Cli.scheduler c) →
  release_inv (Cli.scheduler (Cli.suspend_process c n)).
Proof.
  intros Hinv. rewrite suspend_process_scheduler.
  destruct (find_process _ n) as [[r p]|] eqn:Hfind; [| done].
  apply find_process_Some in Hfind as [Hp _].
  destruct (bool_decide (state p = Running) || bool_decide (state p = Ready))
    eqn:Hb; [| done].
  eapply (release_inv_keep _ _ r p (set_state p Waiting)); try done.
  - intros Ht. rewrite Ht in Hb. done.
  - by case_bool_decide.
  - by case_bool_decide.
Qed.

Lemma resume_process_release_inv (c : Driver) n :
  release_inv (Cli.scheduler c) →
  release_inv (Cli.scheduler (Cli.resume_process c n)).
Proof.
  intros Hinv. rewrite resume_process_scheduler.
  destruct (find_process _ n) as [[r p]|] eqn:Hfind; [| done].
  apply find_process_Some in Hfind as [Hp _].
  case_bool_decide as Hw; [| done].
  eapply (release_inv_keep _ _ r p (set_state p Ready)); try done.
  rewrite Hw. done.
Qed.

Lemma terminate_process_release_inv (c c' : Driver) n :
  release_inv (Cli.scheduler c) →
  Cli.terminate_process c n = Ok c' →
  release_inv (Cli.scheduler c').
Proof.
  intros Hinv Hterm%terminate_process_scheduler.
  destruct (find_process _ n) as [[r p]|] eqn:Hfind; [| by rewrite Hterm].
  apply find_process_Some in Hfind as [Hp _].
  case_bool_decide as Ht; [by rewrite Hterm |].
  destruct Hterm as (m & Hrel & ->).
  eapply (release_inv_release _ _ r p (set_state p Terminated)); try done.
  unfold released. simpl in *. by injection Hrel as <-.
Qed.

Lemma change_algorithm_release_inv (c c' : Driver) option quantum_input :
  release_inv (Cli.scheduler c) →
  Cli.change_algorithm c option quantum_input = Ok c' →
  release_inv (Cli.scheduler c').
Proof.
  intros Hinv Hch. unfold Cli.change_algorithm in Hch.
  apply bind_Ok_inv in Hch as (c1 & Hsetup & [= <-]).
  unfold Cli._setup_scheduler in Hsetup.
  apply bind_Ok_inv in Hsetup as (s1 & Hmake & [= <-]).
  apply create_scheduler_Ok_inv in Hmake as (Hpm & Hres & _).
  simpl. apply (release_inv_same (Cli.scheduler c)); [done | |].
  - rewrite Hpm. by repeat case_bool_decide.
  - unfold released. rewrite Hres. by repeat case_bool_decide.
Qed.

Lemma do_ops_release_inv os : ∀ (c c' : Driver),
  release_inv (Cli.scheduler c) → Cli.do_ops c os = Ok c' →
  release_inv (Cli.scheduler c').
Proof.
  induction os as [|o os IH]; intros c c' Hinv; simpl; [by intros [= <-] |].
  intros (c1 & Hop & Hrest)%bind_Ok_inv.
  eapply IH; [| exact Hrest].
  destruct o as [cycles | n | n | n | option quantum_input]; simpl in Hop.
  - eapply simulation_loop_release_inv; eauto.
  - injection Hop as <-. by apply suspend_process_release_inv.
  - injection Hop as <-. by apply resume_process_release_inv.
  - by eapply terminate_process_release_inv.
  - eapply change_algorithm_release_inv; eauto.
Qed.

(** X29: the memory of a process is released exactly when it terminates, and
    once.  Observed at the recorder, from a state with unique pids, nothing
    released and no process Terminated, after any sequence of simulation
    runs, suspensions, resumptions, forced terminations and changes of
    algorithm: no pid was released twice, and [release_memory] was called
    with a pid and an amount exactly when a Terminated process carries that
    pid and that memory.  A process terminated by the user while Running or
    completed by the scheduler is released by that step only. *)
Theorem memory_is_released_once_per_terminated_process (c c' : Driver)
    (os : list Cli.op) :
  NoDup (pid <$> processes (process_manager (Cli.scheduler c))) →
  released (Cli.scheduler c) = [] →
  (∀ r p, processes (process_manager (Cli.scheduler c)) !! r = Some p →
          state p ≠ Terminated) →
  Cli.do_ops c os = Ok c' →
  NoDup (released (Cli.scheduler c')).*1
  ∧ ∀ n a, (n, a) ∈ released (Cli.scheduler c')
           ↔ ∃ r p, processes (process_manager (Cli.scheduler c')) !! r = Some p
                    ∧ pid p = n ∧ memory p = a ∧ state p = Terminated.
Proof.
  intros Hnd Hnone Hlive Hrun.
  assert (Hinv : release_inv (Cli.scheduler c)).
  { split; [done |]. rewrite Hnone. split; [apply NoDup_nil_2 |].
    intros n a. split; [by intros ?%elem_of_nil |].
    intros (r & p & Hp & _ & _ & Ht). by apply Hlive in Hp. }
  by destruct (do_ops_release_inv os c c' Hinv Hrun) as (_ & ? & ?).
Qed.

End ReleaseOnce.

(** ** The producer-consumer menu *)

Section ProducerConsumerMenuProperties.
Context `{MM : MemoryModel}.

Lemma consume_head N pc item rest :
  buffer_inv N pc → buffer pc = item :: rest →
  buffer (fst (consume pc)) = rest
  ∧ snd (consume pc) = Some item
  ∧ length (get_logs (fst (consume pc))) = S (length (get_logs pc)).
Proof.
  intros (_ & _ & Hfull) Hbuf. unfold consume. rewrite Hbuf.
  assert (0 < len (item :: rest)) by (unfold len; simpl; lia).
  rewrite Hbuf in Hfull.
  rewrite !bool_decide_eq_false_2 by lia. simpl.
  unfold get_logs. simpl. rewrite length_app. simpl. split; [done |].
  split; [done | lia].
Qed.

(** X30: an item that is the empty string is accepted by the buffer (the item
    prompt returns it when the user just presses Enter) and taken out again
    in its turn, but the menu then reports that nothing could be consumed:
    the buffer lost its head, consume logged the consumption, and the line
    printed is the one for an empty buffer. *)
Theorem consumed_empty_item_is_reported_as_failure (c : Cli.t) (N : Z)
    (cs : list call) (rest : list string) (item_input : string) :
  buffer (do_calls (new_ProducerConsumer N) cs) = "" :: rest →
  buffer (snd (Cli.run_producer_consumer c
                 (do_calls (new_ProducerConsumer N) cs) "2" item_input))
  = rest
  ∧ length (get_logs (snd (Cli.run_producer_consumer c
                             (do_calls (new_ProducerConsumer N) cs) "2" item_input)))
    = S (length (get_logs (do_calls (new_ProducerConsumer N) cs)))
  ∧ last (Cli.console (fst (Cli.run_producer_consumer c
                              (do_calls (new_ProducerConsumer N) cs) "2" item_input)))
    = Some (Text "[yellow]No se pudo consumir ningún item (buffer vacío o consumidor bloqueado)[/yellow]").
Proof.
  intros Hbuf.
  pose proof (do_calls_buffer_inv N cs _ (new_buffer_inv N)) as Hinv.
  destruct (consume_head N _ "" rest Hinv Hbuf) as (Hrest & Hitem & Hlogs).
  unfold Cli.run_producer_consumer.
  rewrite bool_decide_eq_false_2 by done.
  rewrite bool_decide_eq_true_2 by done.
  destruct (consume (do_calls (new_ProducerConsumer N) cs)) as [pc' item].
  simpl in Hrest, Hitem, Hlogs. subst item. simpl.
  split; [done |]. split; [done |].
  by rewrite last_snoc.
Qed.

End ProducerConsumerMenuProperties.

(** ** Facts about the sample states *)

Lemma sample_orphan_refs_ok : refs_ok sample_orphan.
Proof. sample_refs_ok. Qed.

Lemma sample_orphan_at_most_one : at_most_one_running sample_orphan.
Proof. sample_at_most_one. Qed.

Lemma sample_orphan_cpu_guard : cpu_guard sample_orphan.
Proof. intros H. discriminate H. Qed.

Lemma sample_fcfs_no_running : no_running sample_fcfs.
Proof. sample_no_running. Qed.

Lemma sample_fcfs_at_most_one : at_most_one_running sample_fcfs.
Proof. sample_at_most_one. Qed.

Lemma sample_rr_refs_ok : refs_ok (sample_rr 1).
Proof. sample_refs_ok. Qed.

Lemma sample_rr_no_running : no_running (sample_rr 1).
Proof. sample_no_running. Qed.

(** ** Instances of the theorems with a precondition *)

(** FCFS after the first process has completed: it skips the Terminated
    head of the queue. *)
Lemma fcfs_selects_first_ready_in_queue_witness :
  ∃ q1 q2,
    ready_queue (process_manager (after_cycles 6 sample_fcfs)) = q1 ++ 1%nat :: q2
    ∧ state_of (after_cycles 6 sample_fcfs) 1 = Some Ready
    ∧ ∀ r', r' ∈ q1 →
        ∃ st, state_of (after_cycles 6 sample_fcfs) r' = Some st ∧ st ≠ Ready.
Proof.
  apply (fcfs_selects_first_ready_in_queue (MM := pool_memory)
           (after_cycles 6 sample_fcfs) 1%nat).
  vm_compute; reflexivity.
Defined.

(** SJF over the sample table: bursts 5, 2, 2, 7, the second process wins
    the tie. *)
Lemma sjf_selects_shortest_ready_first_on_ties_witness :
  ∃ p q1 q2,
    ready_queue (process_manager sample_sjf) = q1 ++ 1%nat :: q2
    ∧ processes (process_manager sample_sjf) !! 1%nat = Some p
    ∧ state p = Ready
    ∧ (∀ r' p', r' ∈ q1 → processes (process_manager sample_sjf) !! r' = Some p' →
         state p' = Ready → burst_time p < burst_time p')
    ∧ (∀ r' p', r' ∈ q2 → processes (process_manager sample_sjf) !! r' = Some p' →
         state p' = Ready → burst_time p ≤ burst_time p').
Proof.
  apply (sjf_selects_shortest_ready_first_on_ties (MM := pool_memory)
           sample_sjf 1%nat).
  vm_compute; reflexivity.
Defined.

(** Priority over the sample table: priorities 2, 3, 1, 1, the third process
    wins the tie. *)
Lemma priority_selects_least_number_first_on_ties_witness :
  ∃ p q1 q2,
    ready_queue (process_manager sample_priority) = q1 ++ 2%nat :: q2
    ∧ processes (process_manager sample_priority) !! 2%nat = Some p
    ∧ state p = Ready
    ∧ (∀ r' p', r' ∈ q1 →
         processes (process_manager sample_priority) !! r' = Some p' →
         state p' = Ready → priority p < priority p')
    ∧ (∀ r' p', r' ∈ q2 →
         processes (process_manager sample_priority) !! r' = Some p' →
         state p' = Ready → priority p ≤ priority p').
Proof.
  apply (priority_selects_least_number_first_on_ties (MM := pool_memory)
           sample_priority 2%nat).
  vm_compute; reflexivity.
Defined.

(** Round Robin selecting over the sample table. *)
Lemma selection_is_empty_iff_nothing_ready_witness :
  ∃ s' o,
    select_next_process (sample_rr 2) = Ok (s', o)
    ∧ (o = None ↔
       ∀ r p, r ∈ ready_queue (process_manager s') →
              processes (process_manager s') !! r = Some p → state p ≠ Ready).
Proof.
  eexists _, _. split; [vm_compute; reflexivity |].
  apply (selection_is_empty_iff_nothing_ready (MM := pool_memory) (sample_rr 2)).
  vm_compute; reflexivity.
Defined.

(** The second Round Robin cycle over the sample table, which preempts the
    first process. *)
Lemma cycle_changes_only_the_process_of_its_event_witness :
  ∃ s' ev,
    execute_cycle (after_cycles 1 (sample_rr 2)) = Ok (s', ev)
    ∧ time s' = time (after_cycles 1 (sample_rr 2)) + 1
    ∧ kind s' = kind (after_cycles 1 (sample_rr 2))
    ∧ quantum s' = quantum (after_cycles 1 (sample_rr 2))
    ∧ length (processes (process_manager s'))
      = length (processes (process_manager (after_cycles 1 (sample_rr 2))))
    ∧ (∀ r, event_process ev ≠ Some r →
            processes (process_manager s') !! r
            = processes (process_manager (after_cycles 1 (sample_rr 2))) !! r)
    ∧ (∀ r p p',
         processes (process_manager (after_cycles 1 (sample_rr 2))) !! r = Some p →
         processes (process_manager s') !! r = Some p' →
         pid p' = pid p ∧ priority p' = priority p ∧ memory p' = memory p).
Proof.
  eexists _, _. split; [vm_compute; reflexivity |].
  apply (cycle_changes_only_the_process_of_its_event (MM := pool_memory)
           (after_cycles 1 (sample_rr 2))).
  vm_compute; reflexivity.
Defined.

(** The same cycle: the first process was Running with burst 5 and is Ready
    with burst 4. *)
Lemma cycle_event_tells_the_transition_witness :
  ∃ s' p p',
    execute_cycle (after_cycles 1 (sample_rr 2)) = Ok (s', process_preempted 0)
    ∧ processes (process_manager (after_cycles 1 (sample_rr 2))) !! 0%nat = Some p
    ∧ processes (process_manager s') !! 0%nat = Some p'
    ∧ state p' = Ready ∧ 0 < burst_time p'
    ∧ ((state p = Ready ∧ burst_time p' = burst_time p)
       ∨ (state p = Running ∧ burst_time p' = burst_time p - 1)).
Proof.
  eexists. 
  destruct (cycle_event_tells_the_transition (MM := pool_memory)
              (after_cycles 1 (sample_rr 2)) _ (process_preempted 0) 0%nat
              ltac:(vm_compute; reflexivity) eq_refl)
    as (p & p' & Hp & Hp' & H).
  exists p, p'. split; [vm_compute; reflexivity |]. tauto.
Defined.

(** The seventh FCFS cycle over the sample table starts the second process
    and leaves the first, which is Terminated, alone. *)
Lemma cycle_leaves_waiting_and_terminated_alone_witness :
  ∃ s' ev p,
    execute_cycle (after_cycles 6 sample_fcfs) = Ok (s', ev)
    ∧ processes (process_manager (after_cycles 6 sample_fcfs)) !! 0%nat = Some p
    ∧ state p = Terminated
    ∧ processes (process_manager s') !! 0%nat = Some p
    ∧ event_process ev ≠ Some 0%nat.
Proof.
  eexists _, _, _. split; [vm_compute; reflexivity |].
  split; [vm_compute; reflexivity |]. split; [reflexivity |].
  apply (cycle_leaves_waiting_and_terminated_alone (MM := pool_memory)
           (after_cycles 6 sample_fcfs)).
  - vm_compute; reflexivity.
  - vm_compute; reflexivity.
  - right; reflexivity.
Defined.

(** The fourth Round Robin cycle over the sample table preempts the second
    process and moves it behind the fourth. *)
Lemma queue_changes_only_by_rotation_witness :
  ∃ s',
    execute_cycle (after_cycles 3 (sample_rr 2)) = Ok (s', process_preempted 1)
    ∧ ∃ q1 q2,
        ready_queue (process_manager (after_cycles 3 (sample_rr 2)))
        = q1 ++ 1%nat :: q2
        ∧ (1%nat ∉ q1)
        ∧ ready_queue (process_manager s') = q1 ++ q2 ++ [1%nat].
Proof.
  eexists. split; [vm_compute; reflexivity |].
  apply (queue_changes_only_by_rotation (MM := pool_memory)
           (after_cycles 3 (sample_rr 2)) _ (process_preempted 1)).
  vm_compute; reflexivity.
Defined.

(** The sixth FCFS cycle over the sample table completes the first process
    and releases its memory. *)
Lemma resources_follow_the_event_witness :
  ∃ s',
    execute_cycle (after_cycles 5 sample_fcfs) = Ok (s', process_completed 0)
    ∧ (∃ p m, processes (process_manager (after_cycles 5 sample_fcfs)) !! 0%nat
              = Some p
              ∧ release_memory (mem (resources (after_cycles 5 sample_fcfs)))
                  (pid p) (memory p) = Ok m
              ∧ resources s' = mkSystemResources true m)
    ∧ current_process s' = None.
Proof.
  eexists. split; [vm_compute; reflexivity |].
  apply (resources_follow_the_event (MM := pool_memory)
           (after_cycles 5 sample_fcfs) _ (process_completed 0)).
  vm_compute; reflexivity.
Defined.

(** Three cycles of an SJF scheduler made while a process started by Round
    Robin runs. *)
Lemma cpu_flag_keeps_mutual_exclusion_witness :
  ∃ s' evs,
    run_cycles 3 sample_orphan = Ok (s', evs)
    ∧ length evs = 3%nat
    ∧ at_most_one_running s'
    ∧ cpu_guard s'.
Proof.
  destruct (cpu_flag_keeps_mutual_exclusion (MM := pool_memory) sample_orphan 3)
    as [Hreturns | (e & Hraises & _)].
  - exact sample_orphan_refs_ok.
  - exact sample_orphan_at_most_one.
  - exact sample_orphan_cpu_guard.
  - exact Hreturns.
  - vm_compute in Hraises. discriminate Hraises.
Defined.

(** The same scheduler idles. *)
Lemma taken_cpu_without_current_process_idles_forever_witness :
  ∃ s',
    run_cycles 3 sample_orphan = Ok (s', replicate 3 idle)
    ∧ process_manager s' = process_manager sample_orphan
    ∧ resources s' = resources sample_orphan
    ∧ current_process s' = current_process sample_orphan.
Proof.
  apply (taken_cpu_without_current_process_idles_forever (MM := pool_memory)
           sample_orphan 3).
  - exact sample_orphan_refs_ok.
  - reflexivity.
  - reflexivity.
Defined.

(** Five Round Robin cycles with quantum 1 over the sample table. *)
Lemma rr_quantum_of_one_never_runs_a_process_witness :
  ∃ s' evs,
    run_cycles 5 (sample_rr 1) = Ok (s', evs)
    ∧ processes (process_manager s') = processes (process_manager (sample_rr 1))
    ∧ Forall (λ ev, ev = idle ∨ ∃ r, ev = process_preempted r) evs.
Proof.
  apply (rr_quantum_of_one_never_runs_a_process (MM := pool_memory) (sample_rr 1) 5).
  - reflexivity.
  - simpl; lia.
  - exact sample_rr_refs_ok.
  - exact sample_rr_no_running.
  - intros r p Hp _. store_cases Hp; simpl; lia.
Defined.

(** SJF after its first cycle: the second process runs, with burst 2, and
    the pool holds the memory assigned to it. *)
Lemma running_process_runs_to_completion_witness :
  ∃ p m, processes (process_manager (after_cycles 1 sample_sjf)) !! 1%nat = Some p
  ∧ release_memory (mem (resources (after_cycles 1 sample_sjf))) (pid p) (memory p)
    = Ok m
  ∧ ∃ s',
    run_cycles (Z.to_nat (Z.max 1 (burst_time p))) (after_cycles 1 sample_sjf)
    = Ok (s', replicate (Z.to_nat (Z.max 1 (burst_time p)) - 1)
                (process_running 1) ++ [process_completed 1])
    ∧ processes (process_manager s')
      = <[1%nat := set_state
                 (set_burst_time p (burst_time p - Z.max 1 (burst_time p)))
                 Terminated]>
          (processes (process_manager (after_cycles 1 sample_sjf)))
    ∧ ready_queue (process_manager s')
      = ready_queue (process_manager (after_cycles 1 sample_sjf))
    ∧ current_process s' = None
    ∧ cpu_available (resources s') = true
    ∧ mem (resources s') = m
    ∧ time s' = time (after_cycles 1 sample_sjf) + Z.max 1 (burst_time p).
Proof.
  eexists _, _. split; [vm_compute; reflexivity |].
  split; [vm_compute; reflexivity |].
  apply (running_process_runs_to_completion (MM := pool_memory)
           (after_cycles 1 sample_sjf) 1%nat).
  - discriminate.
  - reflexivity.
  - vm_compute; reflexivity.
  - reflexivity.
  - vm_compute; reflexivity.
Defined.

(** A session over the sample table: run, suspend the running process, change
    to Round Robin with quantum 1, run, resume, terminate. *)
Lemma driver_keeps_at_most_one_process_running_witness :
  ∃ c',
    Cli.do_ops sample_cli
      [Cli.SimulationLoop 3; Cli.SuspendProcess 1; Cli.ChangeAlgorithm "4" 1;
       Cli.SimulationLoop 2; Cli.ResumeProcess 1; Cli.TerminateProcess 2]
    = Ok c'
    ∧ at_most_one_running (Cli.scheduler c')
    ∧ cpu_guard (Cli.scheduler c').
Proof.
  eexists. split; [vm_compute; reflexivity |].
  apply (driver_keeps_at_most_one_process_running (MM := pool_memory) sample_cli _
           [Cli.SimulationLoop 3; Cli.SuspendProcess 1; Cli.ChangeAlgorithm "4" 1;
            Cli.SimulationLoop 2; Cli.ResumeProcess 1; Cli.TerminateProcess 2]).
  - exact sample_fcfs_at_most_one.
  - intros _. exact sample_fcfs_no_running.
  - vm_compute; reflexivity.
Defined.

(** The three operations asked for pid 1 while it runs. *)
Lemma administrative_operations_follow_the_state_machine_witness :
  ∃ p c',
    processes (process_manager (after_cycles 1 sample_fcfs)) !! 0%nat = Some p
    ∧ (∃ p', processes (process_manager (Cli.scheduler
               (Cli.suspend_process
                  (Cli.mk (after_cycles 1 sample_fcfs) "fcfs" 2 [] []) 1))) !! 0%nat
             = Some p'
             ∧ (p' = p
                ∨ (pid p = 1 ∧ (state p = Ready ∨ state p = Running)
                   ∧ p' = set_state p Waiting)))
    ∧ (∃ p', processes (process_manager (Cli.scheduler
               (Cli.resume_process
                  (Cli.mk (after_cycles 1 sample_fcfs) "fcfs" 2 [] []) 1))) !! 0%nat
             = Some p'
             ∧ (p' = p
                ∨ (pid p = 1 ∧ state p = Waiting ∧ p' = set_state p Ready)))
    ∧ Cli.terminate_process
        (Cli.mk (after_cycles 1 sample_fcfs) "fcfs" 2 [] []) 1 = Ok c'
    ∧ (∃ p', processes (process_manager (Cli.scheduler c')) !! 0%nat = Some p'
             ∧ (p' = p
                ∨ (pid p = 1 ∧ state p ≠ Terminated
                   ∧ p' = set_state p Terminated))).
Proof.
  eexists _, _. split; [vm_compute; reflexivity |].
  destruct (administrative_operations_follow_the_state_machine
              (MM := pool_memory)
              (Cli.mk (after_cycles 1 sample_fcfs) "fcfs" 2 [] []) 1 0%nat _
              ltac:(vm_compute; reflexivity))
    as (Hsuspend & Hresume & Hterminate).
  split; [exact Hsuspend |]. split; [exact Hresume |].
  split; [vm_compute; reflexivity |].
  apply Hterminate. vm_compute; reflexivity.
Defined.

(** After the first process has completed: resume it, terminate it, change
    the algorithm, run. *)
Lemma terminated_process_is_never_changed_witness :
  ∃ c' p,
    Cli.do_ops (Cli.mk (after_cycles 6 sample_fcfs) "fcfs" 2 [] [])
      [Cli.ResumeProcess 1; Cli.TerminateProcess 1; Cli.ChangeAlgorithm "2" 2;
       Cli.SimulationLoop 4]
    = Ok c'
    ∧ processes (process_manager (after_cycles 6 sample_fcfs)) !! 0%nat = Some p
    ∧ state p = Terminated
    ∧ processes (process_manager (Cli.scheduler c')) !! 0%nat = Some p.
Proof.
  eexists _, _. split; [vm_compute; reflexivity |].
  split; [vm_compute; reflexivity |]. split; [reflexivity |].
  apply (terminated_process_is_never_changed (MM := pool_memory)
           (Cli.mk (after_cycles 6 sample_fcfs) "fcfs" 2 [] []) _
           [Cli.ResumeProcess 1; Cli.TerminateProcess 1; Cli.ChangeAlgorithm "2" 2;
            Cli.SimulationLoop 4] 0%nat).
  - vm_compute; reflexivity.
  - vm_compute; reflexivity.
  - reflexivity.
Defined.

(** A log of three entries: the lines are numbered -6, -5, -4. *)
Lemma show_logs_numbers_are_positions_from_ten_entries_on_witness :
  Cli.console (Cli.show_logs sample_logged_cli)
  = Cli.console sample_logged_cli
    ++ Text "[bold]Últimos eventos:[/bold]"
       :: imap (λ i l,
                  Text (pretty (Z.of_nat (length (Cli.logs sample_logged_cli) - 10 + i) + 1
                                - Z.max 0 (10 - len (Cli.logs sample_logged_cli)))
                        +:+ ". " +:+ l))
               (Cli.last_ten (Cli.logs sample_logged_cli))
  ∧ (∀ i l, Cli.last_ten (Cli.logs sample_logged_cli) !! i = Some l →
            Cli.logs sample_logged_cli
              !! (length (Cli.logs sample_logged_cli) - 10 + i)%nat = Some l)
  ∧ length (Cli.last_ten (Cli.logs sample_logged_cli))
    = (length (Cli.logs sample_logged_cli) `min` 10)%nat.
Proof.
  apply (show_logs_numbers_are_positions_from_ten_entries_on (MM := pool_memory)
           sample_logged_cli).
  discriminate.
Defined.

(** The mailbox of pid 2 with two messages. *)
Lemma view_messages_empties_the_mailbox_witness :
  Cli.console (fst (Cli.view_messages sample_cli sample_mailboxes 2))
  = Cli.console sample_cli
    ++ [Text ("[bold]Mensajes del proceso " +:+ pretty 2 +:+ ":[/bold]");
        Table ("Cola de mensajes: Proceso " +:+ pretty 2) ["De"; "Mensaje"]
              ((λ m, [pretty (sender m); content m])
                 <$> [mkMessage 1 "hola" 10; mkMessage 3 "adios" 11])]
  ∧ process_queues (snd (Cli.view_messages sample_cli sample_mailboxes 2))
    = <[2 := []]> (process_queues sample_mailboxes)
  ∧ get_queue_size (snd (Cli.view_messages sample_cli sample_mailboxes 2)) 2 = 0
  ∧ Cli.scheduler (fst (Cli.view_messages sample_cli sample_mailboxes 2))
    = Cli.scheduler sample_cli
  ∧ Cli.logs (fst (Cli.view_messages sample_cli sample_mailboxes 2))
    = Cli.logs sample_cli.
Proof.
  apply (view_messages_empties_the_mailbox (MM := pool_memory)
           sample_cli sample_mailboxes 2 (mkMessage 1 "hola" 10)
           [mkMessage 3 "adios" 11]).
  - vm_compute. by eexists.
  - vm_compute; reflexivity.
Defined.

(** The first process completes, the second is terminated while it runs, a
    second termination of the first is refused. *)
Lemma memory_is_released_once_per_terminated_process_witness :
  ∃ c',
    Cli.do_ops sample_recording_cli
      [Cli.SimulationLoop 7; Cli.TerminateProcess 2; Cli.TerminateProcess 1;
       Cli.SimulationLoop 2]
    = Ok c'
    ∧ released (Cli.scheduler c') = [(1, 256); (2, 128)]
    ∧ NoDup (released (Cli.scheduler c')).*1
    ∧ ∀ n a, (n, a) ∈ released (Cli.scheduler c')
             ↔ ∃ r p, processes (process_manager (Cli.scheduler c')) !! r = Some p
                      ∧ pid p = n ∧ memory p = a ∧ state p = Terminated.
Proof.
  eexists. split; [vm_compute; reflexivity |]. split; [vm_compute; reflexivity |].
  apply (memory_is_released_once_per_terminated_process sample_recording_cli _
           [Cli.SimulationLoop 7; Cli.TerminateProcess 2; Cli.TerminateProcess 1;
            Cli.SimulationLoop 2]).
  - apply (bool_decide_unpack _). vm_compute. exact I.
  - reflexivity.
  - intros r p Hp. store_cases Hp; discriminate.
  - vm_compute; reflexivity.
Defined.

(** A buffer of capacity 2 that received the empty string and then "b". *)
Lemma consumed_empty_item_is_reported_as_failure_witness :
  buffer (snd (Cli.run_producer_consumer sample_cli
                 (do_calls (new_ProducerConsumer 2) [Produce ""; Produce "b"])
                 "2" ""))
  = ["b"]
  ∧ length (get_logs (snd (Cli.run_producer_consumer sample_cli
                             (do_calls (new_ProducerConsumer 2)
                                [Produce ""; Produce "b"]) "2" "")))
    = S (length (get_logs (do_calls (new_ProducerConsumer 2)
                             [Produce ""; Produce "b"])))
  ∧ last (Cli.console (fst (Cli.run_producer_consumer sample_cli
                              (do_calls (new_ProducerConsumer 2)
                                 [Produce ""; Produce "b"]) "2" "")))
    = Some (Text "[yellow]No se pudo consumir ningún item (buffer vacío o consumidor bloqueado)[/yellow]").
Proof.
  apply (consumed_empty_item_is_reported_as_failure (MM := pool_memory)
           sample_cli 2 [Produce ""; Produce "b"] ["b"] "").
  vm_compute; reflexivity.
Defined.
